(** * The modal G-code interpreter of [app.py]

    A shallow embedding of [parse_gcode_for_time_and_tools] and the
    properties of the cut-time estimate it computes, followed by the
    parts of [main] that compute on its result: the identifiers of the
    rows, and the comparison of the tools of the files.

    Conventions of the embedding.
    - A Python [str] is a [string]; each [ascii] stands for the code point
      of the same number, so the texts covered are those whose code points
      are below 256.  In that range the regular-expression class [\d] is
      exactly [0-9].
    - A Python [float] is an IEEE 754 binary64 value, [spec_float] with
      precision 53 and maximal exponent 1024; arithmetic is the correctly
      rounded arithmetic of [SpecFloat], and so is the conversion of a
      decimal text by [float].  The square [x ** 2], which Python takes
      from the [pow] of the C library, is taken to be correctly rounded
      too.
    - A Python exception is a value of [PyError] returned on the left of a
      sum; the loop body is a function from state to [PyError + state].
    - A Python [set] is a duplicate-free list in insertion order, with
      membership decided by Python's [==]. *)

From Stdlib Require Import ZArith List String Ascii Bool Lia.
From Stdlib Require Import SpecFloat.
From Stdlib Require Import DecimalString DecimalNat Sorted Permutation.
Import ListNotations.

Local Open Scope string_scope.
Local Open Scope Z_scope.

(** ** Characters and strings *)

Module Text.

Definition code (c : ascii) : N := N_of_ascii c.

Definition dquote : ascii := ascii_of_N 34.
Definition LF : ascii := ascii_of_N 10.
Definition CR : ascii := ascii_of_N 13.

(** [\d] on code points below 256. *)
Definition is_digit (c : ascii) : bool :=
  (N.leb 48 (code c) && N.leb (code c) 57)%bool.

(** The class [[-\d.]]. *)
Definition is_numchar (c : ascii) : bool :=
  (Ascii.eqb c "-" || is_digit c || Ascii.eqb c ".")%bool.

(** [\s] on code points below 256: the characters for which
    [str.isspace] holds. *)
Definition is_space (c : ascii) : bool :=
  let n := code c in
  ((N.leb 9 n && N.leb n 13) || (N.leb 28 n && N.leb n 32)
   || N.eqb n 133 || N.eqb n 160)%bool.

(** The line boundaries of [str.splitlines] below 256. *)
Definition is_linebreak (c : ascii) : bool :=
  let n := code c in
  ((N.leb 10 n && N.leb n 13) || (N.leb 28 n && N.leb n 30)
   || N.eqb n 133)%bool.

Definition is_empty (s : string) : bool :=
  match s with EmptyString => true | _ => false end.

(** [str.splitlines()]: a break ends the current line, CR LF counts as one
    break, and no empty last line is produced. *)
Fixpoint splitlines_from (cur s : string) : list string :=
  match s with
  | EmptyString => if is_empty cur then [] else [cur]
  | String c rest =>
      if is_linebreak c then
        match rest with
        | String c2 rest2 =>
            if (Ascii.eqb c CR && Ascii.eqb c2 LF)%bool
            then cur :: splitlines_from "" rest2
            else cur :: splitlines_from "" rest
        | EmptyString => cur :: splitlines_from "" rest
        end
      else splitlines_from (cur ++ String c "") rest
  end.

Definition splitlines (s : string) : list string := splitlines_from "" s.

(** [strip_prefix p s] is what follows [p] when [s] starts with [p]. *)
Fixpoint strip_prefix (p s : string) : option string :=
  match p, s with
  | EmptyString, _ => Some s
  | String a p', String b s' =>
      if Ascii.eqb a b then strip_prefix p' s' else None
  | String _ _, EmptyString => None
  end.

(** [needle in s]. *)
Fixpoint contains (needle s : string) : bool :=
  match strip_prefix needle s with
  | Some _ => true
  | None => match s with
            | EmptyString => false
            | String _ s' => contains needle s'
            end
  end.

(** The longest prefix made of characters of a class, and what follows. *)
Fixpoint span (f : ascii -> bool) (s : string) : string * string :=
  match s with
  | EmptyString => ("", "")
  | String c s' =>
      if f c then let '(a, b) := span f s' in (String c a, b)
      else ("", s)
  end.

Definition take_while (f : ascii -> bool) (s : string) : string :=
  fst (span f s).

Definition drop_while (f : ascii -> bool) (s : string) : string :=
  snd (span f s).

Definition expect (c : ascii) (s : string) : option string :=
  match s with
  | String d s' => if Ascii.eqb c d then Some s' else None
  | EmptyString => None
  end.

(** Lines joined by LF, to write program texts. *)
Definition unlines (ls : list string) : string :=
  String.concat (String LF "") ls.

Definition quoted (s : string) : string :=
  String dquote (s ++ String dquote "").

(** [n] copies of a character. *)
Fixpoint replicate (n : nat) (c : ascii) : string :=
  match n with
  | O => ""
  | S n' => String c (replicate n' c)
  end.

End Text.

(** ** The regular expressions of the parser

    Each pattern is matched the way [re] matches it.  None of them needs
    backtracking beyond what is written out: a starred class is always
    followed by a character outside the class, so the greedy choice is the
    only one that can succeed. *)

Module Regex.
Import Text.

Definition bind_opt {A B} (o : option A) (k : A -> option B) : option B :=
  match o with Some a => k a | None => None end.

(** [search p s]: the first position of [s], from the left, where the
    anchored matcher [p] succeeds. *)
Fixpoint search {A} (p : string -> option A) (s : string) : option A :=
  match p s with
  | Some a => Some a
  | None => match s with
            | EmptyString => None
            | String _ s' => search p s'
            end
  end.

Definition not_char (c d : ascii) : bool := negb (Ascii.eqb c d).

(** A double quote, the characters up to the next double quote, which are
    captured, and that double quote. *)
Definition match_quoted (s : string) : option string :=
  bind_opt (expect dquote s) (fun s1 =>
  let '(name, s2) := span (not_char dquote) s1 in
  bind_opt (expect dquote s2) (fun _ => Some name)).

(** [group_begin_re], anchored: the text [GROUP_BEGIN(], any characters
    but commas, a comma, any white space, and a quoted name. *)
Definition group_begin_at (s : string) : option string :=
  bind_opt (strip_prefix "GROUP_BEGIN(" s) (fun s1 =>
  bind_opt (expect "," (drop_while (not_char ",") s1)) (fun s2 =>
  match_quoted (drop_while is_space s2))).

Definition group_begin_re (line : string) : option string :=
  search group_begin_at line.

(** [group_end_re]: the text [GROUP_END] anywhere in the line. *)
Definition group_end_re (line : string) : bool :=
  contains "GROUP_END" line.

(** [tool_re]: the text [T=] and a quoted value. *)
Definition tool_at (s : string) : option string :=
  bind_opt (strip_prefix "T=" s) match_quoted.

Definition tool_re (line : string) : option string :=
  search tool_at line.

Definition is_axis (c : ascii) : bool :=
  (Ascii.eqb c "X" || Ascii.eqb c "Y" || Ascii.eqb c "Z")%bool.

(** [coord_re] with [findall]: an axis letter and the longest nonempty run
    of [[-\d.]] after it; the matches from left to right, none overlapping.
    [skip] counts the characters still covered by the last match. *)
Fixpoint coord_findall_from (skip : nat) (s : string)
  : list (ascii * string) :=
  match s with
  | EmptyString => []
  | String c s' =>
      match skip with
      | S k => coord_findall_from k s'
      | O =>
          let num := take_while is_numchar s' in
          if (is_axis c && negb (is_empty num))%bool
          then (c, num) :: coord_findall_from (String.length num) s'
          else coord_findall_from O s'
      end
  end.

Definition coord_re (line : string) : list (ascii * string) :=
  coord_findall_from O line.

(** A letter followed by a nonempty run of a class, anchored. *)
Definition letter_run (l : ascii) (f : ascii -> bool) (s : string)
  : option string :=
  bind_opt (expect l s) (fun s1 =>
  let num := take_while f s1 in
  if is_empty num then None else Some num).

(** [feed_re]: the letter F and a run of [[-\d.]]. *)
Definition feed_re (line : string) : option string :=
  search (letter_run "F" is_numchar) line.

(** [rpm_re]: the letter S and a run of digits. *)
Definition rpm_re (line : string) : option string :=
  search (letter_run "S" is_digit) line.

Definition is_01 (c : ascii) : bool :=
  (Ascii.eqb c "0" || Ascii.eqb c "1")%bool.

(** [g_code_re], anchored: the letter G, an optional zero, and a captured
    0 or 1.  The optional zero is taken when a 0 or 1 follows it, and given
    back otherwise. *)
Definition g_code_at (s : string) : option ascii :=
  match s with
  | String "G" (String "0" (String d _)) =>
      if is_01 d then Some d else Some "0"%char
  | String "G" (String d _) => if is_01 d then Some d else None
  | _ => None
  end.

Definition g_code_re (line : string) : option ascii :=
  search g_code_at line.

End Regex.

(** ** Python exceptions *)

Inductive PyError : Set :=
  | ValueError
  | OverflowError
  | ZeroDivisionError.

(** A computation that returns a value or raises. *)
Definition Exc (A : Type) : Type := (PyError + A)%type.

Definition ret {A} (a : A) : Exc A := inr a.
Definition raise {A} (e : PyError) : Exc A := inl e.

Definition bind {A B} (c : Exc A) (k : A -> Exc B) : Exc B :=
  match c with
  | inl e => inl e
  | inr a => k a
  end.

Notation "x <- c ;; k" := (bind c (fun x => k))
  (at level 61, c at next level, right associativity).
Notation "' p <- c ;; k" := (bind c (fun x => let 'p := x in k))
  (at level 61, p pattern, c at next level, right associativity).

(** ** Python floats *)

Module Float.
Import Text.

Definition float : Set := spec_float.

Definition prec : Z := 53.
Definition emax : Z := 1024.

Definition zero : float := S754_zero false.
Definition nan : float := S754_nan.
Definition infinity : float := S754_infinity false.

Definition add : float -> float -> float := SFadd prec emax.
Definition sub : float -> float -> float := SFsub prec emax.
Definition mul : float -> float -> float := SFmul prec emax.
Definition ltb : float -> float -> bool := SFltb.
Definition leb : float -> float -> bool := SFleb.
Definition eqb : float -> float -> bool := SFeqb.

(** [float(n)] for an integer [n]: the nearest float, ties to even. *)
Definition of_Z (n : Z) : float := binary_normalize prec emax n 0 false.

(** [x > 0]. *)
Definition gt0 (x : float) : bool := ltb zero x.

(** [x >= 0]. *)
Definition ge0 (x : float) : bool := leb zero x.

Definition is_zero (x : float) : bool :=
  match x with S754_zero _ => true | _ => false end.

(** The IEEE quotient, and [x / y]: a zero divisor raises. *)
Definition quot : float -> float -> float := SFdiv prec emax.

Definition div (x y : float) : Exc float :=
  if is_zero y then raise ZeroDivisionError
  else ret (quot x y).

(** [x ** 2], which is [float_pow] with exponent 2.0: a NaN is returned
    as it is, an infinity and a zero give their positive counterpart, and
    any other [x] gives [pow(|x|, 2.0)] of the C library, taken to be the
    correctly rounded square; a square that overflows raises. *)
Definition pow2 (x : float) : Exc float :=
  match x with
  | S754_nan => ret S754_nan
  | S754_infinity _ => ret (S754_infinity false)
  | S754_zero _ => ret (S754_zero false)
  | S754_finite _ m e =>
      match mul (S754_finite false m e) (S754_finite false m e) with
      | S754_infinity _ => raise OverflowError
      | r => ret r
      end
  end.

(** [math.sqrt(x)]: a negative argument raises. *)
Definition sqrt (x : float) : Exc float :=
  if ltb x zero then raise ValueError
  else ret (SFsqrt prec emax x).

(** [int(x)]: truncation toward zero; an infinity or a NaN raises. *)
Definition to_int (x : float) : Exc Z :=
  match x with
  | S754_nan => raise ValueError
  | S754_infinity _ => raise OverflowError
  | S754_zero _ => ret 0
  | S754_finite s m e =>
      ret (cond_Zopp s (if 0 <=? e then Zpos m * 2 ^ e
                        else Zpos m / 2 ^ (- e)))
  end.

(** The number written by a string of decimal digits. *)
Fixpoint digits_value (acc : Z) (s : string) : Z :=
  match s with
  | EmptyString => acc
  | String c s' => digits_value (10 * acc + (Z.of_N (code c) - 48)) s'
  end.

Fixpoint all_digits (s : string) : bool :=
  match s with
  | EmptyString => true
  | String c s' => (is_digit c && all_digits s')%bool
  end.

(** The float nearest to [n / 10 ^ k], ties to even, with the sign [neg];
    the quotient is computed to full precision with the position of the
    remainder, then rounded once. *)
Definition of_decimal (neg : bool) (n : Z) (k : nat) : float :=
  match n with
  | Zpos _ =>
      let '(q, e, l) :=
        SFdiv_core_binary prec emax n 0 (10 ^ Z.of_nat k) 0 in
      binary_round_aux prec emax neg q e l
  | _ => S754_zero neg
  end.

(** [float(s)] for a string [s] of the characters [-], [.] and the
    digits, the only strings the patterns capture: an optional minus
    sign, then digits with at most one point among them, and at least one
    digit.  Anything else raises. *)
Definition of_string (s : string) : Exc float :=
  let '(neg, body) :=
    match s with
    | String c r => if Ascii.eqb c "-" then (true, r) else (false, s)
    | EmptyString => (false, s)
    end in
  let '(ip, rest) := span is_digit body in
  match rest with
  | EmptyString =>
      if is_empty ip then raise ValueError
      else ret (of_decimal neg (digits_value 0 ip) 0)
  | String c fp =>
      if (Ascii.eqb c "." && all_digits fp
          && negb (is_empty ip && is_empty fp))%bool
      then ret (of_decimal neg (digits_value 0 (ip ++ fp)) (String.length fp))
      else raise ValueError
  end.

End Float.

(** ** The state of [parse_gcode_for_time_and_tools] *)

Import Text Regex.
Import Float(float).

(** The dictionary [pos], with its three keys. *)
Record Position : Set := mkPosition {
  pos_X : float;
  pos_Y : float;
  pos_Z : float
}.

(** The two values [motion_mode] takes, ['G0'] and ['G1']. *)
Inductive Motion : Set := G0 | G1.

Definition Motion_eqb (a b : Motion) : bool :=
  match a, b with
  | G0, G0 | G1, G1 => true
  | _, _ => false
  end.

(** The state of the virtual machine, kept for the whole file
    (lines 19 to 25 of [app.py]). *)
Record Machine : Set := mkMachine {
  pos : Position;
  rpm : float;
  feed : float;
  g95_active : bool;
  motion_mode : Motion
}.

(** The dictionary of a group; the fields are its keys [Herramienta],
    [Grupo], [Tiempo Corte Est. (seg)], [Distancia Corte (mm)], [Avances]
    and [RPMs]. *)
Record Group : Set := mkGroup {
  Herramienta : string;
  Grupo : string;
  Tiempo_Corte_Est_seg : float;
  Distancia_Corte_mm : float;
  Avances : list float;
  RPMs : list Z
}.

Record State : Set := mkState {
  results : list Group;
  current_group_info : option Group;
  machine : Machine
}.

Definition initial_machine : Machine :=
  {| pos := mkPosition Float.zero Float.zero Float.zero;
     rpm := Float.of_Z 1;
     feed := Float.zero;
     g95_active := false;
     motion_mode := G0 |}.

Definition initial_state : State :=
  {| results := []; current_group_info := None; machine := initial_machine |}.

(** The dictionary of a group that opens (lines 42 to 49). *)
Definition new_group (name : string) : Group :=
  {| Herramienta := "N/A";
     Grupo := name;
     Tiempo_Corte_Est_seg := Float.zero;
     Distancia_Corte_mm := Float.zero;
     Avances := [];
     RPMs := [] |}.

(** [s.add(x)] on a set of floats and on a set of integers. *)
Definition add_float (x : float) (s : list float) : list float :=
  if existsb (Float.eqb x) s then s else s ++ [x].

Definition add_int (n : Z) (s : list Z) : list Z :=
  if existsb (Z.eqb n) s then s else s ++ [n].

Definition with_motion (v : Motion) (m : Machine) : Machine :=
  {| pos := pos m; rpm := rpm m; feed := feed m;
     g95_active := g95_active m; motion_mode := v |}.

Definition with_g95 (v : bool) (m : Machine) : Machine :=
  {| pos := pos m; rpm := rpm m; feed := feed m;
     g95_active := v; motion_mode := motion_mode m |}.

Definition with_rpm (v : float) (m : Machine) : Machine :=
  {| pos := pos m; rpm := v; feed := feed m;
     g95_active := g95_active m; motion_mode := motion_mode m |}.

Definition with_feed (v : float) (m : Machine) : Machine :=
  {| pos := pos m; rpm := rpm m; feed := v;
     g95_active := g95_active m; motion_mode := motion_mode m |}.

Definition with_pos (v : Position) (m : Machine) : Machine :=
  {| pos := v; rpm := rpm m; feed := feed m;
     g95_active := g95_active m; motion_mode := motion_mode m |}.

Definition record_rpm (n : Z) (g : Group) : Group :=
  {| Herramienta := Herramienta g; Grupo := Grupo g;
     Tiempo_Corte_Est_seg := Tiempo_Corte_Est_seg g;
     Distancia_Corte_mm := Distancia_Corte_mm g;
     Avances := Avances g; RPMs := add_int n (RPMs g) |}.

Definition record_feed (f : float) (g : Group) : Group :=
  {| Herramienta := Herramienta g; Grupo := Grupo g;
     Tiempo_Corte_Est_seg := Tiempo_Corte_Est_seg g;
     Distancia_Corte_mm := Distancia_Corte_mm g;
     Avances := add_float f (Avances g); RPMs := RPMs g |}.

Definition with_tool (t : string) (g : Group) : Group :=
  {| Herramienta := t; Grupo := Grupo g;
     Tiempo_Corte_Est_seg := Tiempo_Corte_Est_seg g;
     Distancia_Corte_mm := Distancia_Corte_mm g;
     Avances := Avances g; RPMs := RPMs g |}.

(** The two [+=] of a charged move. *)
Definition charge (time_for_move distance : float) (g : Group) : Group :=
  {| Herramienta := Herramienta g; Grupo := Grupo g;
     Tiempo_Corte_Est_seg := Float.add (Tiempo_Corte_Est_seg g) time_for_move;
     Distancia_Corte_mm := Float.add (Distancia_Corte_mm g) distance;
     Avances := Avances g; RPMs := RPMs g |}.

(** [target_pos[axis] = v] for a captured axis letter. *)
Definition set_axis (axis : ascii) (v : float) (p : Position) : Position :=
  if Ascii.eqb axis "X" then mkPosition v (pos_Y p) (pos_Z p)
  else if Ascii.eqb axis "Y" then mkPosition (pos_X p) v (pos_Z p)
  else mkPosition (pos_X p) (pos_Y p) v.

(** ** The loop body *)

(** [results.append(current_group_info)] when a group is open. *)
Definition emit (rs : list Group) (cur : option Group) : list Group :=
  match cur with
  | Some g => rs ++ [g]
  | None => rs
  end.

(** Group handling: the begin marker (lines 38 to 49), then the end
    marker (lines 51 to 53). *)
Definition open_group (line : string) (st : State) : State :=
  match group_begin_re line with
  | Some name =>
      {| results := emit (results st) (current_group_info st);
         current_group_info := Some (new_group name);
         machine := machine st |}
  | None => st
  end.

Definition close_group (line : string) (st : State) : State :=
  match group_end_re line, current_group_info st with
  | true, Some g =>
      {| results := results st ++ [g];
         current_group_info := None;
         machine := machine st |}
  | _, _ => st
  end.

Definition handle_groups (line : string) (st : State) : State :=
  close_group line (open_group line st).

(** The modal words of a line (lines 59 to 81): motion code, feed mode,
    spindle speed, feed and tool, in this order. *)
Definition update_motion_mode (line : string) (m : Machine) : Machine :=
  match g_code_re line with
  | Some d => with_motion (if Ascii.eqb d "1" then G1 else G0) m
  | None => m
  end.

Definition update_feed_mode (line : string) (m : Machine) : Machine :=
  let m1 := if contains "G95" line then with_g95 true m else m in
  if contains "G94" line then with_g95 false m1 else m1.

Definition update_rpm (line : string) (mg : Machine * Group)
  : Exc (Machine * Group) :=
  match rpm_re line with
  | Some txt =>
      r <- Float.of_string txt ;;
      n <- Float.to_int r ;;
      ret (with_rpm r (fst mg), record_rpm n (snd mg))
  | None => ret mg
  end.

Definition update_feed (line : string) (mg : Machine * Group)
  : Exc (Machine * Group) :=
  match feed_re line with
  | Some txt =>
      f <- Float.of_string txt ;;
      ret (with_feed f (fst mg), record_feed f (snd mg))
  | None => ret mg
  end.

Definition update_tool (line : string) (g : Group) : Group :=
  match tool_re line with
  | Some t => with_tool t g
  | None => g
  end.

Definition update_modal (line : string) (m : Machine) (g : Group)
  : Exc (Machine * Group) :=
  mg1 <- update_rpm line
           (update_feed_mode line (update_motion_mode line m), g) ;;
  mg2 <- update_feed line mg1 ;;
  ret (fst mg2, update_tool line (snd mg2)).

(** The target of a move (lines 86 to 88): the position with the matched
    axes overwritten, in the order of the matches. *)
Fixpoint target_of (coords : list (ascii * string)) (p : Position)
  : Exc Position :=
  match coords with
  | [] => ret p
  | (axis, value) :: rest =>
      v <- Float.of_string value ;;
      target_of rest (set_axis axis v p)
  end.

(** The Euclidean distance (lines 90 to 94). *)
Definition distance_between (p target_pos : Position) : Exc float :=
  dx <- Float.pow2 (Float.sub (pos_X target_pos) (pos_X p)) ;;
  dy <- Float.pow2 (Float.sub (pos_Y target_pos) (pos_Y p)) ;;
  dz <- Float.pow2 (Float.sub (pos_Z target_pos) (pos_Z p)) ;;
  Float.sqrt (Float.add (Float.add dx dy) dz).

Definition sixty : float := Float.of_Z 60.

(** The time of a charged move (lines 99 to 103). *)
Definition time_for_move (m : Machine) (distance : float) : Exc float :=
  if (g95_active m && Float.gt0 (rpm m) && Float.gt0 (feed m))%bool then
    q <- Float.div distance (Float.mul (feed m) (rpm m)) ;;
    ret (Float.mul q sixty)
  else if (negb (g95_active m) && Float.gt0 (feed m))%bool then
    q <- Float.div distance (feed m) ;;
    ret (Float.mul q sixty)
  else ret Float.zero.

(** The test before the charge (line 98): motion mode G1 and a distance above
    zero. *)
Definition is_cutting (m : Machine) (distance : float) : bool :=
  (Motion_eqb (motion_mode m) G1 && Float.gt0 distance)%bool.

(** The move of a line (lines 84 to 109): nothing without a coordinate;
    otherwise the charge when the test succeeds, and the new position in
    any case. *)
Definition process_motion (line : string) (m : Machine) (g : Group)
  : Exc (Machine * Group) :=
  match coord_re line with
  | [] => ret (m, g)
  | coords_found =>
      target_pos <- target_of coords_found (pos m) ;;
      distance <- distance_between (pos m) target_pos ;;
      g' <- (if is_cutting m distance then
               t <- time_for_move m distance ;;
               ret (charge t distance g)
             else ret g) ;;
      ret (with_pos target_pos m, g')
  end.

(** One turn of the loop over the lines (lines 37 to 109); with no group
    open after the markers the loop continues with the next line. *)
Definition process_line (st : State) (line : string) : Exc State :=
  let st1 := handle_groups line st in
  match current_group_info st1 with
  | None => ret st1
  | Some g =>
      '(m1, g1) <- update_modal line (machine st1) g ;;
      '(m2, g2) <- process_motion line m1 g1 ;;
      ret {| results := results st1;
             current_group_info := Some g2;
             machine := m2 |}
  end.

Fixpoint run (st : State) (lines : list string) : Exc State :=
  match lines with
  | [] => ret st
  | line :: rest => st' <- process_line st line ;; run st' rest
  end.

(** The function: the loop, then the group still open is emitted
    (lines 111 to 114). *)
Definition parse_gcode_for_time_and_tools (file_content : string)
  : Exc (list Group) :=
  st <- run initial_state (splitlines file_content) ;;
  ret (emit (results st) (current_group_info st)).

(** ** Vocabulary of the properties *)

(** The states the loop can be in: those reached from the initial state by
    processing some lines without an exception. *)
Definition reachable (st : State) : Prop :=
  exists lines, run initial_state lines = inr st.

(** The magnitude of a finite float with mantissa [m] and exponent [e]:
    the float lies in the interval from [2 ^ (mag - 1)] to [2 ^ mag]. *)
Definition mag (m : positive) (e : Z) : Z := Zpos (digits2_pos m) + e.

(** What holds of the modal feed and spindle speed in a reachable state:
    a finite feed has its exponent in range, and a finite spindle speed is
    at least one in magnitude. *)
Definition feed_ok (f : float) : Prop :=
  match f with
  | S754_finite _ _ e => -1074 <= e
  | _ => True
  end.

Definition rpm_ok (r : float) : Prop :=
  match r with
  | S754_finite _ m e => 1 <= mag m e
  | _ => True
  end.

Definition machine_ok (m : Machine) : Prop :=
  feed_ok (feed m) /\ rpm_ok (rpm m).

(** Floats that carry no minus sign: the positive zero, the positive
    infinity and the positive finite floats, with or without the NaN. *)
Definition plus (x : float) : bool :=
  match x with
  | S754_nan => false
  | S754_zero s | S754_infinity s | S754_finite s _ _ => negb s
  end.

Definition plus_or_nan (x : float) : bool :=
  match x with
  | S754_nan => true
  | _ => plus x
  end.

Definition group_signs_ok (g : Group) : Prop :=
  plus (Distancia_Corte_mm g) = true
  /\ plus_or_nan (Tiempo_Corte_Est_seg g) = true.

Definition state_signs_ok (st : State) : Prop :=
  Forall group_signs_ok (emit (results st) (current_group_info st)).

(** A captured number text that [float] accepts. *)
Definition is_float_literal (txt : string) : bool :=
  match Float.of_string txt with
  | inr _ => true
  | inl _ => false
  end.

(** A line with a feed or coordinate token whose number text [float]
    rejects. *)
Definition malformed_number (line : string) : bool :=
  (match feed_re line with
   | Some txt => negb (is_float_literal txt)
   | None => false
   end
   || existsb (fun c => negb (is_float_literal (snd c))) (coord_re line))%bool.

(** A line without group markers. *)
Definition no_marker (line : string) : bool :=
  (match group_begin_re line with Some _ => false | None => true end
   && negb (group_end_re line))%bool.

(** The motion mode in force when the move of a line is processed. *)
Definition motion_at (st : State) (line : string) : Motion :=
  motion_mode (update_motion_mode line (machine st)).

(** A body of lines, processed from [st], all of whose moves are made in
    motion mode G0. *)
Fixpoint rapid_only (st : State) (body : list string) : bool :=
  match body with
  | [] => true
  | line :: rest =>
      (no_marker line
       && (match coord_re line with [] => true | _ => false end
           || Motion_eqb (motion_at st line) G0)
       && match process_line st line with
          | inr st' => rapid_only st' rest
          | inl _ => true
          end)%bool
  end.

(** The move of a line processed with a group open: the machine and the
    group after the modal words of the line, the target position and the
    distance to it.  [None] when no group is open after the markers or the
    line has no coordinate. *)
Definition move_of_line (st : State) (line : string)
  : Exc (option (Machine * Group * Position * float)) :=
  match current_group_info (handle_groups line st), coord_re line with
  | Some g, (_ :: _) as coords_found =>
      '(m1, g1) <- update_modal line (machine st) g ;;
      target_pos <- target_of coords_found (pos m1) ;;
      distance <- distance_between (pos m1) target_pos ;;
      ret (Some (m1, g1, target_pos, distance))
  | _, _ => ret None
  end.

(** The state after such a move, with [g2] for the open group. *)
Definition after_move (st : State) (line : string) (m1 : Machine)
  (g2 : Group) (target_pos : Position) : State :=
  {| results := results (handle_groups line st);
     current_group_info := Some g2;
     machine := with_pos target_pos m1 |}.

(** The state in which the open group has been closed and emitted. *)
Definition closed (st : State) : State :=
  {| results := emit (results st) (current_group_info st);
     current_group_info := None;
     machine := machine st |}.

(** A float whose magnitude is at most [k]: a zero or a finite float. *)
Definition bounded_by (k : Z) (x : float) : Prop :=
  match x with
  | S754_zero _ => True
  | S754_finite _ m e => mag m e <= k
  | _ => False
  end.

(** The magnitude of the numbers of a moderate text: below [2 ^ 334],
    which is above [10 ^ 100]. *)
Definition small (x : float) : Prop := bounded_by 334 x.

(** A position all of whose coordinates are small. *)
Definition position_small (p : Position) : Prop :=
  small (pos_X p) /\ small (pos_Y p) /\ small (pos_Z p).

(** A group whose time and distance have no minus sign and are no NaN. *)
Definition group_plus (g : Group) : Prop :=
  plus (Distancia_Corte_mm g) = true /\ plus (Tiempo_Corte_Est_seg g) = true.

(** The invariant of the loop on a moderate text. *)
Definition moderate_state (st : State) : Prop :=
  machine_ok (machine st)
  /\ position_small (pos (machine st))
  /\ small (feed (machine st))
  /\ small (rpm (machine st))
  /\ Forall group_plus (emit (results st) (current_group_info st)).

(** A float literal of at most 100 characters. *)
Definition short_literal (txt : string) : bool :=
  (is_float_literal txt && (String.length txt <=? 100)%nat)%bool.

(** A line whose feed and coordinate texts are short float literals and
    whose spindle speed has at most 100 digits. *)
Definition moderate_line (line : string) : bool :=
  (match feed_re line with Some txt => short_literal txt | None => true end
   && forallb (fun c => short_literal (snd c)) (coord_re line)
   && match rpm_re line with
      | Some txt => (String.length txt <=? 100)%nat
      | None => true
      end)%bool.

(** A text all of whose lines are moderate. *)
Definition moderate_numbers (text : string) : bool :=
  forallb moderate_line (splitlines text).

(** Program texts. *)
Definition GROUP_BEGIN (arg name : string) : string :=
  "GROUP_BEGIN(" ++ arg ++ "," ++ quoted name ++ ")".

Definition roughing_program : string :=
  unlines [GROUP_BEGIN "x" "Roughing"; "G1 F500 X100"; "G0 X0"; "GROUP_END"].

Definition feed_mode_program : string :=
  unlines [GROUP_BEGIN "1" "A"; "G95"; "S1000"; "F0.1"; "G1 X10";
           GROUP_BEGIN "2" "B"; "G94"; "G1 X20"].

Definition boundary_program : string :=
  unlines [GROUP_BEGIN "1" "A"; "G1 X10"; GROUP_BEGIN "2" "B"; "G1 X20"].

Definition between_groups_program : string :=
  unlines [GROUP_BEGIN "1" "A"; "GROUP_END"; "G1 F100 X10";
           GROUP_BEGIN "2" "B"; "X20"; "GROUP_END"].

(** A feed and a coordinate of four hundred digits each, both beyond the
    largest float. *)
Definition overflow_program : string :=
  unlines [GROUP_BEGIN "1" "A";
           "G1 F" ++ replicate 400 "9" ++ " X" ++ replicate 400 "9"].

Definition negative_feed_program : string :=
  unlines [GROUP_BEGIN "1" "A"; "G1 F-100 X10"; "GROUP_END"].

Definition lone_minus_program : string :=
  unlines [GROUP_BEGIN "1" "A"; "G1 F- X10"; "GROUP_END"].

Definition lone_point_program : string :=
  unlines [GROUP_BEGIN "1" "A"; "G1 X."; "GROUP_END"].

(** A record with the given name and numbers, and the default tool. *)
Definition record (name : string) (time distance : float)
  (feeds : list float) (rpms : list Z) : Group :=
  {| Herramienta := "N/A"; Grupo := name;
     Tiempo_Corte_Est_seg := time; Distancia_Corte_mm := distance;
     Avances := feeds; RPMs := rpms |}.

(** The float of the text [0.1]. *)
Definition tenth : float := Float.of_decimal false 1 1.

(** The state after the lines [GROUP_BEGIN(1,A)], [G95], [S1000], [F0.1]. *)
Definition per_revolution_state : State :=
  {| results := [];
     current_group_info :=
       Some (record "A" Float.zero Float.zero [tenth] [1000]);
     machine :=
       {| pos := mkPosition Float.zero Float.zero Float.zero;
          rpm := Float.of_Z 1000;
          feed := tenth;
          g95_active := true;
          motion_mode := G0 |} |}.

(** The state after the line [GROUP_BEGIN(1,A)]. *)
Definition fresh_group_state : State :=
  {| results := [];
     current_group_info := Some (new_group "A");
     machine := initial_machine |}.

(** The state after the lines [GROUP_BEGIN(1,A)] and [G1 X10]. *)
Definition group_A_state : State :=
  {| results := [];
     current_group_info :=
       Some (record "A" Float.zero (Float.of_Z 10) [] []);
     machine :=
       with_pos (mkPosition (Float.of_Z 10) Float.zero Float.zero)
         (with_motion G1 initial_machine) |}.

(** The lines of a list have no begin marker. *)
Definition no_begin (lines : list string) : bool :=
  forallb (fun line => match group_begin_re line with
                       | Some _ => false
                       | None => true
                       end) lines.

(** The names captured by the begin markers of some lines, in order. *)
Definition begin_names (lines : list string) : list string :=
  flat_map (fun line => match group_begin_re line with
                        | Some name => [name]
                        | None => []
                        end) lines.

(** The tool of a group after some of its lines: the value of the last
    tool word of these lines, and the tool it had when they have none. *)
Definition last_tool (lines : list string) (t : string) : string :=
  fold_left (fun t line => match tool_re line with
                           | Some t' => t'
                           | None => t
                           end) lines t.

(** The state after a line with both markers: the open group and the
    group of the line are emitted, and no group is open. *)
Definition opened_and_closed (st : State) (name : string) : State :=
  {| results := (emit (results st) (current_group_info st)
                ++ [new_group name])%list;
     current_group_info := None;
     machine := machine st |}.

(** What holds of the two sets of a record: the spindle speeds are
    integers from zero on, each held once; no feed is a NaN, and no two
    feeds are equal as floats. *)
Definition sets_ok (g : Group) : Prop :=
  NoDup (RPMs g)
  /\ Forall (fun n => 0 <= n) (RPMs g)
  /\ Forall (fun f => f <> Float.nan) (Avances g)
  /\ ForallOrdPairs (fun a b => Float.eqb b a = false) (Avances g).

(** The letters that begin a word or a marker of the patterns. *)
Definition is_word_letter (c : ascii) : bool :=
  existsb (Ascii.eqb c) ["G"; "F"; "S"; "T"; "X"; "Y"; "Z"]%char.

(** A line with none of these letters: a blank line, or a line in lower
    case. *)
Fixpoint wordless (line : string) : bool :=
  match line with
  | EmptyString => true
  | String c rest => (negb (is_word_letter c) && wordless rest)%bool
  end.

(** [pos[axis]] for an axis letter. *)
Definition axis_value (axis : ascii) (p : Position) : float :=
  if Ascii.eqb axis "X" then pos_X p
  else if Ascii.eqb axis "Y" then pos_Y p
  else pos_Z p.

(** The number text of the last coordinate token of an axis among the
    tokens of a line. *)
Fixpoint last_coord (axis : ascii) (coords : list (ascii * string))
  : option string :=
  match coords with
  | [] => None
  | (a, value) :: rest =>
      match last_coord axis rest with
      | Some txt => Some txt
      | None => if Ascii.eqb a axis then Some value else None
      end
  end.

(** [int(float(txt))], as the spindle speed is recorded (lines 70 and
    71). *)
Definition int_of_float_of (txt : string) : Exc Z :=
  r <- Float.of_string txt ;; Float.to_int r.

(** More program texts. *)
Definition header_program : string :=
  unlines ["G1 F- X."; "GROUP_END"; "S12 T=5";
           GROUP_BEGIN "1" "A"; "G1 F100 X10"].

Definition headless_program : string :=
  unlines [GROUP_BEGIN "1" "A"; "G1 F100 X10"].

Definition closed_program : string :=
  unlines [GROUP_BEGIN "1" "A"; "G1 F100 X10"; "GROUP_END G1 X0 F-"].

Definition tool_program : list string :=
  [GROUP_BEGIN "1" "A" ++ " T=" ++ quoted "T1"; "G1 X10";
   "T=" ++ quoted "T2" ++ " T=" ++ quoted "T3"; "T=" ++ quoted "T4"; "S100"].

Definition sets_program : string :=
  unlines [GROUP_BEGIN "1" "A"; "S100 F0.0"; "S100 F-0.0"; "S0100 F-0";
           "S200 F1"; "F1.0"].

Definition commented_program : string :=
  unlines [GROUP_BEGIN "1" "A"; ""; "g1 x5 f3 s7"; "G1 F100 X10"; "; 12.5";
           "(move)"].

(** ** The files of [main]

    The parts of [main] that compute: the loop over the uploaded files
    (lines 246 to 267) and the comparison of the tools of the files
    (lines 339 to 358).  A file is given by its name and its decoded
    content. *)

(** The dictionary of a group once [main] has set its key [ID]
    (line 257). *)
Record Item : Set := mkItem {
  ID : string;
  group : Group
}.

(** An entry of [all_files_data] (line 260). *)
Record FileData : Set := mkFileData {
  name : string;
  data : list Item
}.

(** [enumerate(l)]. *)
Fixpoint enumerate_from {A} (k : nat) (l : list A) : list (nat * A) :=
  match l with
  | [] => []
  | x :: rest => (k, x) :: enumerate_from (S k) rest
  end.

Definition enumerate {A} (l : list A) : list (nat * A) := enumerate_from 0 l.

(** The decimal text an f-string writes for an integer from zero on. *)
Definition str_int (n : nat) : string :=
  NilEmpty.string_of_uint (Nat.to_uint n).

(** The identifier of the group [j] of the file [i], both counted from
    zero (line 257). *)
Definition item_id (i j : nat) : string :=
  str_int (i + 1) ++ "." ++ str_int (j + 1).

Definition with_ID (i : nat) (j_item : nat * Group) : Item :=
  {| ID := item_id i (fst j_item); group := snd j_item |}.

(** One turn of the loop over the files (lines 249 to 260). *)
Definition process_file (i_file : nat * (string * string)) : Exc FileData :=
  processed_groups <- parse_gcode_for_time_and_tools (snd (snd i_file)) ;;
  ret {| name := fst (snd i_file);
         data := map (with_ID (fst i_file)) (enumerate processed_groups) |}.

Fixpoint for_each {A B} (f : A -> Exc B) (l : list A) : Exc (list B) :=
  match l with
  | [] => ret []
  | x :: rest => y <- f x ;; ys <- for_each f rest ;; ret (y :: ys)
  end.

Definition process_files (uploaded_files : list (string * string))
  : Exc (list FileData) :=
  for_each process_file (enumerate uploaded_files).

(** What the session holds after the files are processed: the data of
    all the files, or [None] when the [except] clause has caught an
    exception (lines 262 to 267). *)
Definition session_after_upload (uploaded_files : list (string * string))
  : option (list FileData) :=
  match process_files uploaded_files with
  | inr all_files_data => Some all_files_data
  | inl _ => None
  end.

(** A set of strings, and the set of the elements of a list. *)
Definition add_str (x : string) (s : list string) : list string :=
  if existsb (String.eqb x) s then s else s ++ [x].

Definition set_of (l : list string) : list string :=
  fold_left (fun s x => add_str x s) l [].

(** [sorted] on strings, which Python orders by code points: the order
    of [String.leb]. *)
Fixpoint insert_sorted (x : string) (l : list string) : list string :=
  match l with
  | [] => [x]
  | y :: rest =>
      if String.leb x y then x :: l else y :: insert_sorted x rest
  end.

Definition sorted (l : list string) : list string :=
  fold_right insert_sorted [] l.

(** A dictionary with string keys and values: its items in insertion
    order.  Setting a key that is present replaces the value in place. *)
Definition dict : Set := list (string * string).

Fixpoint dict_set (k v : string) (d : dict) : dict :=
  match d with
  | [] => [(k, v)]
  | (k', v') :: rest =>
      if String.eqb k k' then (k', v) :: rest
      else (k', v') :: dict_set k v rest
  end.

Fixpoint dict_get (k : string) (d : dict) : option string :=
  match d with
  | [] => None
  | (k', v) :: rest => if String.eqb k k' then Some v else dict_get k rest
  end.

(** [d.update(extra)], which is what [**extra] does in a dictionary
    display after the items of [d]. *)
Definition dict_update (d extra : dict) : dict :=
  fold_left (fun acc kv => dict_set (fst kv) (snd kv) acc) extra d.

Definition tool_of (item : Item) : string := Herramienta (group item).

(** The set of all the tools (lines 341 and 342). *)
Definition all_unique_tools_set (edited_data : list FileData)
  : list string :=
  set_of (flat_map (fun file_data => map tool_of (data file_data))
            edited_data).

(** The mark of a tool for a file (line 350). *)
Definition mark (tool : string) (file_data : FileData) : string :=
  if existsb (String.eqb tool) (set_of (map tool_of (data file_data)))
  then "X" else "".

(** The dictionary comprehension of lines 350 and 351. *)
Definition marks (edited_data : list FileData) (tool : string) : dict :=
  fold_left (fun d file_data =>
               dict_set (name file_data) (mark tool file_data) d)
    edited_data [].

(** A row of the comparison (lines 348 to 352). *)
Definition comparison_row (edited_data : list FileData) (tool : string)
  : dict :=
  dict_update [("Herramienta", tool)] (marks edited_data tool).

(** The rows given to [pd.DataFrame] (lines 347 to 353). *)
Definition comparison_rows (edited_data : list FileData) : list dict :=
  map (comparison_row edited_data) (sorted (all_unique_tools_set edited_data)).

(** The exception of a local variable read before it is bound. *)
Inductive NameError : Set := UnboundLocalError.

(** The end of [main] (lines 269 and 339 to 358): nothing without data
    in the session; otherwise the call of [create_pdf_report] with the
    data and the comparison, which is bound only when some tool exists. *)
Inductive Report : Set :=
  | no_report
  | report_raises (e : NameError)
  | report_of (files_data : list FileData) (comparison : list dict).

Definition report_section (edited_data : option (list FileData)) : Report :=
  match edited_data with
  | None | Some [] => no_report
  | Some files_data =>
      match all_unique_tools_set files_data with
      | [] => report_raises UnboundLocalError
      | _ => report_of files_data (comparison_rows files_data)
      end
  end.

(** Files to upload. *)
Definition two_files : list (string * string) :=
  [("a.mpf", feed_mode_program); ("b.mpf", roughing_program)].

Definition bare_files : list (string * string) :=
  [("a.mpf", "G1 X10 F100"); ("b.mpf", "")].

Definition bad_files : list (string * string) :=
  [("a.mpf", feed_mode_program); ("b.mpf", lone_minus_program)].

(** Data of two files with the tools of their groups. *)
Definition tool_item (id tool : string) : Item :=
  {| ID := id; group := with_tool tool (new_group "g") |}.

Definition tools_data : list FileData :=
  [{| name := "a.mpf";
      data := [tool_item "1.1" "T2"; tool_item "1.2" "T10";
               tool_item "1.3" "T2"] |};
   {| name := "b.mpf"; data := [tool_item "2.1" "T10"] |}].

Definition same_name_data : list FileData :=
  [{| name := "a.mpf"; data := [tool_item "1.1" "T2"] |};
   {| name := "b.mpf"; data := [tool_item "2.1" "T2"] |};
   {| name := "a.mpf"; data := [tool_item "3.1" "T10"] |}].

(** ** Facts about rounding

    The rounding of [SpecFloat] shifts the mantissa right to the canonical
    exponent, rounds to nearest even and shifts once more; the lemmas
    follow the mantissa and the exponent through these steps. *)

Module FloatFacts.
Import Float.

Lemma digits2_log2 (p : positive) :
  Zpos (digits2_pos p) = Z.log2 (Zpos p) + 1.
Proof.
  induction p as [p IH | p IH |]; simpl; try reflexivity.
  - destruct p; simpl in *; lia.
  - destruct p; simpl in *; lia.
Qed.

Lemma Zdigits2_log2 (m : Z) : 0 < m -> Zdigits2 m = Z.log2 m + 1.
Proof.
  destruct m as [| p | p]; try lia. intros _. apply digits2_log2.
Qed.

Lemma shr_1_m (mrs : shr_record) :
  0 <= shr_m mrs -> shr_m (shr_1 mrs) = shr_m mrs / 2.
Proof.
  destruct mrs as [m r s]. simpl. intros Hm.
  destruct m as [| p | p]; try lia.
  - reflexivity.
  - destruct p as [p | p |]; simpl.
    + rewrite Pos2Z.inj_xI. apply Z.div_unique with (r := 1); lia.
    + rewrite Pos2Z.inj_xO. apply Z.div_unique with (r := 0); lia.
    + reflexivity.
Qed.

Lemma pow2_xO (p : positive) : 2 ^ Zpos p~0 = 2 ^ Zpos p * 2 ^ Zpos p.
Proof.
  rewrite <- Z.pow_add_r by lia. f_equal. lia.
Qed.

Lemma pow2_xI (p : positive) :
  2 ^ Zpos p~1 = 2 * (2 ^ Zpos p * 2 ^ Zpos p).
Proof.
  rewrite <- pow2_xO. rewrite <- Z.pow_succ_r by lia. reflexivity.
Qed.

Lemma iter_shr_m (p : positive) : forall mrs : shr_record,
  0 <= shr_m mrs ->
  shr_m (iter_pos shr_1 p mrs) = shr_m mrs / 2 ^ Zpos p.
Proof.
  induction p as [p IH | p IH |]; intros mrs Hm; simpl iter_pos.
  - assert (H1 : 0 <= shr_m (shr_1 mrs)).
    { rewrite shr_1_m by assumption. apply Z.div_pos; lia. }
    assert (H2 : 0 <= shr_m (iter_pos shr_1 p (shr_1 mrs))).
    { rewrite IH by assumption. apply Z.div_pos; [assumption | lia]. }
    rewrite IH by assumption. rewrite IH by assumption.
    rewrite shr_1_m by assumption.
    rewrite !Z.div_div by lia.
    f_equal. symmetry. apply pow2_xI.
  - assert (H2 : 0 <= shr_m (iter_pos shr_1 p mrs)).
    { rewrite IH by assumption. apply Z.div_pos; [assumption | lia]. }
    rewrite IH by assumption. rewrite IH by assumption.
    rewrite !Z.div_div by lia.
    f_equal. symmetry. apply pow2_xO.
  - rewrite shr_1_m by assumption. reflexivity.
Qed.

Lemma shr_record_of_loc_m (m : Z) (l : location) :
  shr_m (shr_record_of_loc m l) = m.
Proof. destruct l as [| []]; reflexivity. Qed.

Lemma fexp_eq (e : Z) : fexp prec emax e = Z.max (e - 53) (-1074).
Proof. reflexivity. Qed.

(** The first shift of a rounding: the mantissa stays non-negative and the
    exponent is the larger of the given one and the canonical one. *)
Lemma shr_fexp_nonneg (m e : Z) (l : location) (mrs : shr_record) (e' : Z) :
  0 <= m ->
  shr_fexp prec emax m e l = (mrs, e') ->
  0 <= shr_m mrs /\ e' = Z.max e (fexp prec emax (Zdigits2 m + e)).
Proof.
  intros Hm. unfold shr_fexp, shr.
  destruct (fexp prec emax (Zdigits2 m + e) - e) as [| p | p] eqn:Hn;
    intros H; inversion H; subst; clear H.
  - rewrite shr_record_of_loc_m. lia.
  - rewrite iter_shr_m by (rewrite shr_record_of_loc_m; assumption).
    rewrite shr_record_of_loc_m. split; [apply Z.div_pos; lia | lia].
  - rewrite shr_record_of_loc_m. lia.
Qed.

(** When the value is at least the smallest positive float, the shift
    keeps the mantissa positive and the magnitude unchanged. *)
Lemma shr_fexp_pos (m e : Z) (l : location) (mrs : shr_record) (e' : Z) :
  0 < m ->
  -1073 <= Zdigits2 m + e ->
  shr_fexp prec emax m e l = (mrs, e') ->
  0 < shr_m mrs /\ Zdigits2 (shr_m mrs) + e' = Zdigits2 m + e.
Proof.
  intros Hm HD. unfold shr_fexp, shr.
  destruct (fexp prec emax (Zdigits2 m + e) - e) as [| p | p] eqn:Hn;
    intros H; inversion H; subst; clear H;
    try (rewrite shr_record_of_loc_m; lia).
  rewrite iter_shr_m by (rewrite shr_record_of_loc_m; lia).
  rewrite shr_record_of_loc_m.
  rewrite fexp_eq in Hn. rewrite (Zdigits2_log2 m Hm) in *.
  assert (Hp : Zpos p <= Z.log2 m) by lia.
  assert (Hle : 2 ^ Zpos p <= m).
  { apply Z.le_trans with (2 ^ Z.log2 m).
    - apply Z.pow_le_mono_r; lia.
    - apply Z.log2_spec; assumption. }
  assert (Hq : 0 < m / 2 ^ Zpos p).
  { apply Z.div_str_pos. split; [apply Z.pow_pos_nonneg; lia | assumption]. }
  split; [assumption |].
  rewrite (Zdigits2_log2 _ Hq).
  rewrite <- Z.shiftr_div_pow2 by lia.
  rewrite Z.log2_shiftr by assumption. lia.
Qed.

Lemma round_nearest_even_cases (m : Z) (l : location) :
  round_nearest_even m l = m \/ round_nearest_even m l = m + 1.
Proof.
  destruct l as [| []]; simpl; auto. destruct (Z.even m); auto.
Qed.

Lemma Zdigits2_mono (a b : Z) : 0 < a -> a <= b -> Zdigits2 a <= Zdigits2 b.
Proof.
  intros Ha Hab. rewrite !Zdigits2_log2 by lia.
  apply Z.add_le_mono_r, Z.log2_le_mono. assumption.
Qed.

(** The outcomes of a rounding of a non-negative mantissa: a zero, an
    infinity or a finite float, of the given sign, and never a NaN. *)
Lemma binary_round_aux_cases (s : bool) (m e : Z) (l : location) :
  0 <= m ->
  binary_round_aux prec emax s m e l = S754_zero s
  \/ binary_round_aux prec emax s m e l = S754_infinity s
  \/ exists m' e', binary_round_aux prec emax s m e l = S754_finite s m' e'
                   /\ -1074 <= e'.
Proof.
  intros Hm. unfold binary_round_aux.
  destruct (shr_fexp prec emax m e l) as [mrs1 e1] eqn:H1.
  destruct (shr_fexp_nonneg _ _ _ _ _ Hm H1) as [Hm1 _].
  set (m2 := round_nearest_even (shr_m mrs1) (loc_of_shr_record mrs1)).
  assert (Hm2 : 0 <= m2).
  { destruct (round_nearest_even_cases (shr_m mrs1) (loc_of_shr_record mrs1))
      as [E | E]; unfold m2; rewrite E; lia. }
  destruct (shr_fexp prec emax m2 e1 loc_Exact) as [mrs3 e3] eqn:H3.
  destruct (shr_fexp_nonneg _ _ _ _ _ Hm2 H3) as [Hm3 He3].
  destruct (shr_m mrs3) as [| p | p]; try lia.
  - left. reflexivity.
  - right. destruct (e3 <=? emax - prec).
    + right. exists p, e3. split; [reflexivity |].
      rewrite He3, fexp_eq. lia.
    + left. reflexivity.
Qed.

(** A rounding of a value at least the smallest positive float is not a
    zero, and does not lower the magnitude. *)
Lemma binary_round_aux_mag (s : bool) (m e : Z) (l : location) :
  0 < m ->
  -1073 <= Zdigits2 m + e ->
  binary_round_aux prec emax s m e l = S754_infinity s
  \/ exists m' e', binary_round_aux prec emax s m e l = S754_finite s m' e'
                   /\ Zdigits2 m + e <= mag m' e'.
Proof.
  intros Hm HD. unfold binary_round_aux.
  destruct (shr_fexp prec emax m e l) as [mrs1 e1] eqn:H1.
  destruct (shr_fexp_pos _ _ _ _ _ Hm HD H1) as [Hm1 HD1].
  set (m2 := round_nearest_even (shr_m mrs1) (loc_of_shr_record mrs1)).
  assert (Hm2 : shr_m mrs1 <= m2).
  { destruct (round_nearest_even_cases (shr_m mrs1) (loc_of_shr_record mrs1))
      as [E | E]; unfold m2; rewrite E; lia. }
  assert (HD2 : Zdigits2 m + e <= Zdigits2 m2 + e1).
  { pose proof (Zdigits2_mono _ _ Hm1 Hm2). lia. }
  destruct (shr_fexp prec emax m2 e1 loc_Exact) as [mrs3 e3] eqn:H3.
  destruct (shr_fexp_pos m2 e1 _ _ _ ltac:(lia) ltac:(lia) H3) as [Hm3 HD3].
  destruct (shr_m mrs3) as [| p | p]; try lia.
  destruct (e3 <=? emax - prec).
  - right. exists p, e3. split; [reflexivity |].
    unfold mag. simpl Zdigits2 in HD3. lia.
  - left. reflexivity.
Qed.

Lemma gt0_cases (x : float) :
  gt0 x = true ->
  x = S754_infinity false \/ exists m e, x = S754_finite false m e.
Proof.
  destruct x as [s | s | | s m e]; try discriminate.
  - destruct s; [discriminate | auto].
  - destruct s; [discriminate | eauto].
Qed.

Lemma mul_nonzero (f r : float) :
  gt0 f = true -> gt0 r = true -> feed_ok f -> rpm_ok r ->
  is_zero (mul f r) = false.
Proof.
  intros Hf Hr Of Or.
  destruct (gt0_cases f Hf) as [-> | (mf & ef & ->)];
    destruct (gt0_cases r Hr) as [-> | (mr & er & ->)]; try reflexivity.
  simpl in Of, Or. unfold mag in Or.
  unfold mul. simpl SFmul.
  destruct (binary_round_aux_mag false (Zpos (mf * mr)) (ef + er) loc_Exact)
    as [E | (m' & e' & E & _)]; try (rewrite E; reflexivity).
  - lia.
  - simpl Zdigits2. rewrite !digits2_log2 in *. rewrite Pos2Z.inj_mul.
    pose proof (Z.log2_mul_below (Zpos mf) (Zpos mr) ltac:(lia) ltac:(lia)).
    pose proof (Z.log2_nonneg (Zpos mf)). lia.
Qed.

Lemma div_eucl_nonneg (a b q r : Z) :
  0 <= a -> 0 < b -> Z.div_eucl a b = (q, r) -> 0 <= q.
Proof.
  intros Ha Hb H.
  assert (E : q = a / b) by (unfold Z.div; rewrite H; reflexivity).
  subst q. apply Z.div_pos; assumption.
Qed.

Lemma SFdiv_core_nonneg (m1 e1 m2 e2 q e : Z) (l : location) :
  0 <= m1 -> 0 < m2 ->
  SFdiv_core_binary prec emax m1 e1 m2 e2 = (q, e, l) -> 0 <= q.
Proof.
  intros H1 H2 H. unfold SFdiv_core_binary in H.
  destruct (Z.div_eucl _ m2) as [q0 r0] eqn:Hd in H.
  inversion H; subst; clear H.
  eapply div_eucl_nonneg; [| exact H2 | exact Hd].
  destruct (e1 - e2 - _) as [| s | s]; try lia.
  apply Z.shiftl_nonneg. assumption.
Qed.

(** The float of a decimal is a zero, an infinity or a finite float with
    its exponent in range. *)
Lemma of_decimal_cases (neg : bool) (n : Z) (k : nat) :
  of_decimal neg n k = S754_zero neg
  \/ of_decimal neg n k = S754_infinity neg
  \/ exists m e, of_decimal neg n k = S754_finite neg m e /\ -1074 <= e.
Proof.
  unfold of_decimal. destruct n as [| p | p]; auto.
  destruct (SFdiv_core_binary prec emax (Zpos p) 0 (10 ^ Z.of_nat k) 0)
    as [[q e] l] eqn:H.
  apply binary_round_aux_cases.
  eapply SFdiv_core_nonneg; [| | exact H]; [lia |].
  apply Z.pow_pos_nonneg; lia.
Qed.

Lemma of_decimal_feed_ok (neg : bool) (n : Z) (k : nat) :
  feed_ok (of_decimal neg n k).
Proof.
  destruct (of_decimal_cases neg n k) as [E | [E | (m & e & E & He)]];
    rewrite E; simpl; trivial.
Qed.

Lemma of_decimal_not_nan (neg : bool) (n : Z) (k : nat) :
  of_decimal neg n k <> S754_nan.
Proof.
  destruct (of_decimal_cases neg n k) as [E | [E | (m & e & E & He)]];
    rewrite E; discriminate.
Qed.

Lemma of_string_error (s : string) (e : PyError) :
  of_string s = inl e -> e = ValueError.
Proof.
  unfold of_string.
  destruct (match s with
            | EmptyString => (false, s)
            | String c r => if Ascii.eqb c "-" then (true, r) else (false, s)
            end) as [neg body].
  destruct (span is_digit body) as [ip rest].
  destruct rest as [| c fp].
  - destruct (is_empty ip); intros H; inversion H; reflexivity.
  - destruct (_ && _ && _)%bool; intros H; inversion H; reflexivity.
Qed.

Lemma of_string_feed_ok (s : string) (f : float) :
  of_string s = inr f -> feed_ok f.
Proof.
  unfold of_string.
  destruct (match s with
            | EmptyString => (false, s)
            | String c r => if Ascii.eqb c "-" then (true, r) else (false, s)
            end) as [neg body].
  destruct (span is_digit body) as [ip rest].
  destruct rest as [| c fp].
  - destruct (is_empty ip); intros H; inversion H.
    apply of_decimal_feed_ok.
  - destruct (_ && _ && _)%bool; intros H; inversion H.
    apply of_decimal_feed_ok.
Qed.

Lemma div_eucl_1 (a : Z) : Z.div_eucl a 1 = (a, 0).
Proof.
  pose proof (Z.div_1_r a) as Hq. pose proof (Z.mod_1_r a) as Hr.
  unfold Z.div, Z.modulo in Hq, Hr.
  destruct (Z.div_eucl a 1) as [q r]. simpl in *. congruence.
Qed.

(** The float of a positive integer is at least one. *)
Lemma of_decimal_integer_rpm_ok (n : Z) : rpm_ok (of_decimal false n 0).
Proof.
  unfold of_decimal. destruct n as [| p | p]; simpl; trivial.
  change (10 ^ Z.of_nat 0) with 1.
  unfold SFdiv_core_binary.
  set (e' := Z.min _ (0 - 0)).
  assert (He' : e' <= 0) by (unfold e'; lia).
  clearbody e'.
  set (m' := match 0 - 0 - e' with
             | 0 => Zpos p
             | Zpos _ => Z.shiftl (Zpos p) (0 - 0 - e')
             | Zneg _ => 0
             end).
  assert (Hm' : 0 < m' /\ Zdigits2 m' + e' = Zpos (digits2_pos p)).
  { unfold m'. destruct (0 - 0 - e') as [| s | s] eqn:Hs; try lia.
    - change (Zdigits2 (Zpos p)) with (Zpos (digits2_pos p)). lia.
    - assert (Hpos : 0 < Z.shiftl (Zpos p) (Zpos s)).
      { rewrite Z.shiftl_mul_pow2 by lia.
        apply Z.mul_pos_pos; [lia | apply Z.pow_pos_nonneg; lia]. }
      split; [assumption |].
      rewrite (Zdigits2_log2 _ Hpos).
      rewrite Z.log2_shiftl by lia. rewrite digits2_log2. lia. }
  rewrite div_eucl_1.
  destruct Hm' as [Hpos Hmag].
  pose proof (Pos2Z.is_pos (digits2_pos p)).
  destruct (binary_round_aux_mag false m' e' (new_location 1 0)
              Hpos ltac:(lia)) as [E | (m2 & e2 & E & Hle)];
    rewrite E; simpl; trivial. lia.
Qed.

Lemma span_all_digits (s : string) :
  all_digits (fst (span is_digit s)) = true.
Proof.
  induction s as [| c s IH]; simpl; [reflexivity |].
  destruct (is_digit c) eqn:Hc; [| reflexivity].
  destruct (span is_digit s) as [a b]. simpl in *.
  rewrite Hc, IH. reflexivity.
Qed.

Lemma span_of_all_digits (s : string) :
  all_digits s = true -> span is_digit s = (s, EmptyString).
Proof.
  induction s as [| c s IH]; simpl; [reflexivity |].
  intros H. apply andb_prop in H. destruct H as [Hc Hs].
  rewrite Hc, (IH Hs). reflexivity.
Qed.

Lemma digit_not_minus (c : ascii) :
  is_digit c = true -> Ascii.eqb c "-" = false.
Proof.
  intros H. destruct (Ascii.eqb_spec c "-") as [-> | _];
    [discriminate | reflexivity].
Qed.

(** [float] of a nonempty run of digits never raises. *)
Lemma of_string_digits (s : string) :
  all_digits s = true -> is_empty s = false ->
  of_string s = inr (of_decimal false (digits_value 0 s) 0).
Proof.
  intros Hd Hne. unfold of_string.
  destruct s as [| c r]; [discriminate |].
  assert (Hc : is_digit c = true).
  { simpl in Hd. apply andb_prop in Hd. tauto. }
  rewrite (digit_not_minus c Hc).
  rewrite (span_of_all_digits _ Hd). reflexivity.
Qed.

End FloatFacts.

(** ** Bounds on magnitudes

    Numbers written with at most a hundred characters stay far below the
    largest float, and so do their differences, squares and products. *)

Module FloatBounds.
Import Float FloatFacts.

Lemma Zdigits2_nonneg (m : Z) : 0 <= Zdigits2 m.
Proof. destruct m; simpl; lia. Qed.

Lemma Zdigits2_succ (m : Z) : 0 <= m -> Zdigits2 (m + 1) <= Zdigits2 m + 1.
Proof.
  intros Hm. destruct (Z.eq_dec m 0) as [-> | Hn]; [simpl; lia |].
  rewrite !Zdigits2_log2 by lia.
  pose proof (Z.log2_succ_le m). unfold Z.succ in *. lia.
Qed.

Lemma Zdigits2_le_mono (a b : Z) : 0 <= a -> a <= b -> Zdigits2 a <= Zdigits2 b.
Proof.
  intros Ha Hab. destruct (Z.eq_dec a 0) as [-> | Hn].
  - apply Zdigits2_nonneg.
  - apply Zdigits2_mono; lia.
Qed.

(** A non-negative number below [2 ^ k] has at most [k] digits. *)
Lemma Zdigits2_lt_pow2 (m k : Z) :
  0 <= m -> 0 <= k -> m < 2 ^ k -> Zdigits2 m <= k.
Proof.
  intros Hm Hk Hlt. destruct (Z.eq_dec m 0) as [-> | Hn]; [simpl; lia |].
  rewrite Zdigits2_log2 by lia.
  assert (Z.log2 m < k) by (apply Z.log2_lt_pow2; lia). lia.
Qed.

Lemma Zdigits2_spec (m : Z) : 0 <= m -> m < 2 ^ Zdigits2 m.
Proof.
  intros Hm. destruct (Z.eq_dec m 0) as [-> | Hn]; [simpl; lia |].
  rewrite Zdigits2_log2 by lia.
  apply Z.log2_spec. lia.
Qed.

(** The shift of a rounding never raises the magnitude above the larger of
    the magnitude given and the least exponent. *)
Lemma shr_fexp_upper (m e : Z) (l : location) (mrs : shr_record) (e' : Z) :
  0 <= m ->
  shr_fexp prec emax m e l = (mrs, e') ->
  0 <= shr_m mrs
  /\ e' = Z.max e (fexp prec emax (Zdigits2 m + e))
  /\ Zdigits2 (shr_m mrs) + e' <= Z.max (Zdigits2 m + e) (-1074).
Proof.
  intros Hm H.
  destruct (shr_fexp_nonneg _ _ _ _ _ Hm H) as [Hm1 He'].
  split; [assumption |]. split; [assumption |].
  revert H. unfold shr_fexp, shr.
  destruct (fexp prec emax (Zdigits2 m + e) - e) as [| p | p] eqn:Hn;
    intros H; inversion H; subst; clear H;
    try (rewrite shr_record_of_loc_m; lia).
  rewrite iter_shr_m in * by (rewrite shr_record_of_loc_m; lia).
  rewrite shr_record_of_loc_m in *.
  rewrite fexp_eq in *.
  destruct (Z.eq_dec (m / 2 ^ Zpos p) 0) as [E0 | En].
  - rewrite E0. simpl Zdigits2.
    assert (Hlt : m < 2 ^ Zpos p).
    { pose proof (Z.pow_pos_nonneg 2 (Zpos p) ltac:(lia) ltac:(lia)).
      apply Z.div_small_iff in E0; lia. }
    pose proof (Zdigits2_lt_pow2 m (Zpos p) Hm ltac:(lia) Hlt). lia.
  - assert (Hq : 0 < m / 2 ^ Zpos p) by lia.
    assert (Hmpos : 0 < m).
    { destruct (Z.eq_dec m 0) as [-> | ?]; [| lia].
      pose proof (Z.pow_pos_nonneg 2 (Zpos p) ltac:(lia) ltac:(lia)).
      rewrite Z.div_0_l in Hq; lia. }
    rewrite (Zdigits2_log2 _ Hq), (Zdigits2_log2 _ Hmpos) in *.
    rewrite <- Z.shiftr_div_pow2 by lia.
    rewrite Z.log2_shiftr by assumption.
    assert (Hge : 2 ^ Zpos p <= m).
    { pose proof (Z.pow_pos_nonneg 2 (Zpos p) ltac:(lia) ltac:(lia)).
      destruct (Z.le_gt_cases (2 ^ Zpos p) m) as [? | Hlt]; [assumption |].
      rewrite Z.div_small in Hq; lia. }
    apply Z.log2_le_pow2 in Hge; lia.
Qed.

(** A rounding of a value below [2 ^ 1023] does not overflow, and raises
    the magnitude by one at most. *)
Lemma binary_round_aux_upper (s : bool) (m e : Z) (l : location) :
  0 <= m -> e <= 971 -> Zdigits2 m + e <= 1023 ->
  binary_round_aux prec emax s m e l = S754_zero s
  \/ exists m' e', binary_round_aux prec emax s m e l = S754_finite s m' e'
       /\ mag m' e' <= Z.max (Zdigits2 m + e) (-1074) + 1.
Proof.
  intros Hm He HD. unfold binary_round_aux.
  destruct (shr_fexp prec emax m e l) as [mrs1 e1] eqn:H1.
  destruct (shr_fexp_upper _ _ _ _ _ Hm H1) as (Hm1 & He1 & HD1).
  set (m2 := round_nearest_even (shr_m mrs1) (loc_of_shr_record mrs1)).
  assert (Hm2 : 0 <= m2 /\ Zdigits2 m2 <= Zdigits2 (shr_m mrs1) + 1).
  { destruct (round_nearest_even_cases (shr_m mrs1) (loc_of_shr_record mrs1))
      as [E | E]; unfold m2; rewrite E.
    - lia.
    - split; [lia | apply Zdigits2_succ; assumption]. }
  destruct Hm2 as [Hm2 Hd2].
  destruct (shr_fexp prec emax m2 e1 loc_Exact) as [mrs3 e3] eqn:H3.
  destruct (shr_fexp_upper _ _ _ _ _ Hm2 H3) as (Hm3 & He3 & HD3).
  rewrite fexp_eq in *.
  destruct (shr_m mrs3) as [| p | p] eqn:E3; try lia.
  - left. reflexivity.
  - right. assert (Hle : (e3 <=? emax - prec) = true).
    { apply Z.leb_le. unfold emax, prec. lia. }
    rewrite Hle. exists p, e3. split; [reflexivity |].
    unfold mag. simpl Zdigits2 in HD3. lia.
Qed.

Lemma finite_exponent_lt_mag (m : positive) (e : Z) : e < mag m e.
Proof. unfold mag. pose proof (Pos2Z.is_pos (digits2_pos m)). lia. Qed.

Lemma round_aux_bounded (s : bool) (m e k : Z) (l : location) :
  0 <= m -> e <= 971 -> Zdigits2 m + e <= k -> -1074 <= k -> k <= 1023 ->
  bounded_by (k + 1) (binary_round_aux prec emax s m e l).
Proof.
  intros Hm He HD Hk1 Hk2.
  destruct (binary_round_aux_upper s m e l Hm He ltac:(lia))
    as [E | (m' & e' & E & Hmag)]; rewrite E; simpl; [trivial | lia].
Qed.

Lemma iter_xO_value (d m : positive) :
  Zpos (Pos.iter xO m d) = Zpos m * 2 ^ Zpos d.
Proof.
  induction d as [| d IH] using Pos.peano_ind.
  - simpl. lia.
  - rewrite Pos.iter_succ, Pos2Z.inj_xO, IH, Pos2Z.inj_succ.
    rewrite Z.pow_succ_r by lia. lia.
Qed.

(** Aligning a mantissa to a smaller exponent keeps the value. *)
Lemma shl_align_value (m : positive) (e e' : Z) :
  let '(m', e1) := shl_align m e e' in
  e1 <= e /\ Zpos m' = Zpos m * 2 ^ (e - e1) /\ (e' <= e -> e1 = e').
Proof.
  unfold shl_align. destruct (e' - e) as [| d | d] eqn:Hd.
  - replace (e - e) with 0 by lia. simpl. lia.
  - replace (e - e) with 0 by lia. simpl. lia.
  - rewrite iter_xO_value. replace (e - e') with (Zpos d) by lia.
    repeat split; lia.
Qed.

Lemma Zdigits2_mul_pow2 (m k : Z) :
  0 < m -> 0 <= k -> Zdigits2 (m * 2 ^ k) = Zdigits2 m + k.
Proof.
  intros Hm Hk.
  assert (0 < m * 2 ^ k)
    by (apply Z.mul_pos_pos; [| apply Z.pow_pos_nonneg]; lia).
  rewrite !Zdigits2_log2 by assumption.
  rewrite <- Z.shiftl_mul_pow2, Z.log2_shiftl by lia. lia.
Qed.

Lemma binary_round_bounded (s : bool) (m : positive) (e k : Z) :
  e <= 971 -> mag m e <= k -> -1074 <= k -> k <= 1023 ->
  bounded_by (k + 1) (binary_round prec emax s m e).
Proof.
  intros He Hmag Hk1 Hk2. unfold binary_round.
  pose proof (shl_align_value m e (fexp prec emax (Zpos (digits2_pos m) + e)))
    as Ha.
  destruct (shl_align m e _) as [mz ez].
  destruct Ha as (Hle & Hv & _).
  apply round_aux_bounded; try lia.
  rewrite Hv, Zdigits2_mul_pow2 by lia.
  unfold mag in Hmag. simpl Zdigits2. lia.
Qed.

Lemma binary_normalize_bounded (z e k : Z) :
  e <= 971 -> Zdigits2 z + e <= k -> -1074 <= k -> k <= 1023 ->
  bounded_by (k + 1) (binary_normalize prec emax z e false).
Proof.
  intros He HD Hk1 Hk2. destruct z as [| p | p]; simpl; trivial;
    apply binary_round_bounded; assumption.
Qed.

Lemma Zdigits2_abs (z : Z) : Zdigits2 (Z.abs z) = Zdigits2 z.
Proof. destruct z; reflexivity. Qed.

(** The difference of two floats of magnitude at most [k] has magnitude at
    most [k + 2]. *)
Lemma sub_bounded (k : Z) (a b : float) :
  -1074 <= k -> k <= 970 ->
  bounded_by k a -> bounded_by k b -> bounded_by (k + 2) (sub a b).
Proof.
  intros Hk1 Hk2 Ha Hb.
  destruct a as [sa | sa | | sa ma ea]; try contradiction;
    destruct b as [sb | sb | | sb mb eb]; try contradiction; simpl in *.
  - destruct sa, sb; exact I.
  - lia.
  - lia.
  - pose proof (finite_exponent_lt_mag ma ea).
    pose proof (finite_exponent_lt_mag mb eb).
    pose proof (shl_align_value ma ea (Z.min ea eb)) as HA.
    pose proof (shl_align_value mb eb (Z.min ea eb)) as HB.
    destruct (shl_align ma ea (Z.min ea eb)) as [ma' ea'].
    destruct (shl_align mb eb (Z.min ea eb)) as [mb' eb'].
    destruct HA as (_ & HvA & HeA). destruct HB as (_ & HvB & HeB).
    specialize (HeA ltac:(lia)). specialize (HeB ltac:(lia)). subst ea' eb'.
    simpl fst.
    set (ez := Z.min ea eb) in *.
    set (z := cond_Zopp sa (Zpos ma') - cond_Zopp sb (Zpos mb')).
    replace (k + 2) with (k + 1 + 1) by lia.
    apply binary_normalize_bounded; try lia.
    rewrite <- Zdigits2_abs.
    assert (Hz : Z.abs z <= Zpos ma' + Zpos mb').
    { unfold z. destruct sa, sb; simpl cond_Zopp; lia. }
    assert (HbA : Zpos ma' < 2 ^ (k - ez)).
    { rewrite HvA. unfold mag in Ha.
      pose proof (Zdigits2_spec (Zpos ma) ltac:(lia)) as Hs.
      simpl Zdigits2 in Hs.
      apply Z.lt_le_trans with (2 ^ Zpos (digits2_pos ma) * 2 ^ (ea - ez)).
      - apply Z.mul_lt_mono_pos_r; [apply Z.pow_pos_nonneg; lia | exact Hs].
      - rewrite <- Z.pow_add_r by lia. apply Z.pow_le_mono_r; lia. }
    assert (HbB : Zpos mb' < 2 ^ (k - ez)).
    { rewrite HvB. unfold mag in Hb.
      pose proof (Zdigits2_spec (Zpos mb) ltac:(lia)) as Hs.
      simpl Zdigits2 in Hs.
      apply Z.lt_le_trans with (2 ^ Zpos (digits2_pos mb) * 2 ^ (eb - ez)).
      - apply Z.mul_lt_mono_pos_r; [apply Z.pow_pos_nonneg; lia | exact Hs].
      - rewrite <- Z.pow_add_r by lia. apply Z.pow_le_mono_r; lia. }
    assert (Hlt : Z.abs z < 2 ^ (k - ez + 1)).
    { rewrite Z.pow_add_r by lia. lia. }
    pose proof (Zdigits2_lt_pow2 (Z.abs z) (k - ez + 1)
                  ltac:(lia) ltac:(lia) Hlt).
    lia.
Qed.

(** The product of two floats of magnitudes at most [j] and [k] has
    magnitude at most [j + k + 1]. *)
Lemma mul_bounded (j k : Z) (a b : float) :
  -1074 <= j + k -> j + k <= 973 ->
  bounded_by j a -> bounded_by k b -> bounded_by (j + k + 1) (mul a b).
Proof.
  intros Hk1 Hk2 Ha Hb.
  destruct a as [sa | sa | | sa ma ea]; try contradiction;
    destruct b as [sb | sb | | sb mb eb]; try contradiction; simpl in *;
    trivial.
  pose proof (finite_exponent_lt_mag ma ea).
  pose proof (finite_exponent_lt_mag mb eb).
  unfold mag in *.
  apply round_aux_bounded; try lia.
  simpl Zdigits2. rewrite !digits2_log2 in *. rewrite Pos2Z.inj_mul.
  pose proof (Z.log2_mul_above (Zpos ma) (Zpos mb) ltac:(lia) ltac:(lia)).
  lia.
Qed.

Lemma SFdiv_core_decimal_upper (p : positive) (d q e : Z) (l : location) :
  0 < d ->
  SFdiv_core_binary prec emax (Zpos p) 0 d 0 = (q, e, l) ->
  0 <= q /\ e <= 0 /\ Zdigits2 q + e <= Zpos (digits2_pos p).
Proof.
  intros Hd H.
  pose proof (SFdiv_core_nonneg (Zpos p) 0 d 0 q e l ltac:(lia) Hd H) as Hq.
  split; [assumption |].
  unfold SFdiv_core_binary in H.
  set (e' := Z.min _ (0 - 0)) in H.
  assert (He' : e' <= 0) by (unfold e'; lia).
  clearbody e'.
  destruct (Z.div_eucl _ d) as [q0 r0] eqn:Hdiv in H.
  inversion H; subst; clear H. split; [assumption |].
  assert (Eq : q = (match 0 - 0 - e with
                    | 0 => Zpos p
                    | Zpos _ => Z.shiftl (Zpos p) (0 - 0 - e)
                    | Zneg _ => 0
                    end) / d)
    by (unfold Z.div; rewrite Hdiv; reflexivity).
  assert (Hm' : match 0 - 0 - e with
                | 0 => Zpos p
                | Zpos _ => Z.shiftl (Zpos p) (0 - 0 - e)
                | Zneg _ => 0
                end = Zpos p * 2 ^ (- e)).
  { destruct (0 - 0 - e) as [| s | s] eqn:Hs; try lia.
    - replace (- e) with 0 by lia. simpl. lia.
    - rewrite Z.shiftl_mul_pow2 by lia. f_equal. f_equal. lia. }
  rewrite Hm' in Eq.
  assert (Hpos : 0 < Zpos p * 2 ^ (- e))
    by (apply Z.mul_pos_pos; [| apply Z.pow_pos_nonneg]; lia).
  assert (Hle : q <= Zpos p * 2 ^ (- e)).
  { subst q. apply Z.div_le_upper_bound; [assumption |]. nia. }
  pose proof (Zdigits2_le_mono _ _ Hq Hle) as Hdig.
  rewrite Zdigits2_mul_pow2 in Hdig by lia.
  simpl Zdigits2 in Hdig. lia.
Qed.

(** The float of the decimal [n / 10 ^ k] for [n] below [2 ^ j]. *)
Lemma of_decimal_bounded (neg : bool) (n : Z) (k : nat) (j : Z) :
  0 <= j -> j <= 1023 -> n < 2 ^ j ->
  bounded_by (j + 1) (of_decimal neg n k).
Proof.
  intros Hj1 Hj2 Hn. unfold of_decimal.
  destruct n as [| p | p]; [exact I | | exact I].
  assert (Hten : 0 < 10 ^ Z.of_nat k) by (apply Z.pow_pos_nonneg; lia).
  destruct (SFdiv_core_binary prec emax (Zpos p) 0 (10 ^ Z.of_nat k) 0)
    as [[q e] l] eqn:H.
  destruct (SFdiv_core_decimal_upper p _ q e l Hten H) as (Hq & He & HD).
  pose proof (Zdigits2_lt_pow2 (Zpos p) j ltac:(lia) Hj1 Hn) as Hdig.
  simpl Zdigits2 in Hdig.
  apply round_aux_bounded; lia.
Qed.

Lemma digits_value_bound (s : string) : forall acc : Z,
  all_digits s = true -> 0 <= acc ->
  0 <= digits_value acc s
  /\ digits_value acc s < (acc + 1) * 10 ^ Z.of_nat (String.length s).
Proof.
  induction s as [| c s IH]; intros acc Hd Hacc.
  - simpl. lia.
  - change (digits_value acc (String c s))
      with (digits_value (10 * acc + (Z.of_N (Text.code c) - 48)) s).
    simpl in Hd. apply andb_prop in Hd. destruct Hd as [Hc Hs].
    unfold Text.is_digit in Hc. apply andb_prop in Hc.
    destruct Hc as [H1 H2]. apply N.leb_le in H1, H2.
    set (v := Z.of_N (Text.code c) - 48).
    assert (Hv : 0 <= v <= 9) by (unfold v; lia).
    destruct (IH (10 * acc + v) Hs ltac:(lia)) as [IH1 IH2].
    split; [assumption |].
    change (String.length (String c s)) with (S (String.length s)).
    rewrite Nat2Z.inj_succ, Z.pow_succ_r by lia.
    set (P := 10 ^ Z.of_nat (String.length s)) in *.
    assert (HP : 0 < P) by (apply Z.pow_pos_nonneg; lia).
    assert (Hstep : (10 * acc + v + 1) * P <= (10 * (acc + 1)) * P)
      by (apply Z.mul_le_mono_nonneg_r; lia).
    lia.
Qed.

Lemma span_append (f : ascii -> bool) (s : string) :
  s = (fst (Text.span f s) ++ snd (Text.span f s))%string.
Proof.
  induction s as [| c s IH]; simpl; [reflexivity |].
  destruct (f c); [| reflexivity].
  destruct (Text.span f s) as [a b]. simpl in *. congruence.
Qed.

Lemma length_append (a b : string) :
  String.length (a ++ b) = (String.length a + String.length b)%nat.
Proof. induction a as [| c a IH]; simpl; congruence. Qed.

Lemma all_digits_append (a b : string) :
  all_digits a = true -> all_digits b = true -> all_digits (a ++ b) = true.
Proof.
  induction a as [| c a IH]; simpl; [trivial |].
  intros H Hb. apply andb_prop in H. destruct H as [Hc Ha].
  rewrite Hc, (IH Ha Hb). reflexivity.
Qed.

(** The float of a number text of at most [len] characters, where
    [10 ^ len] is at most [2 ^ j]. *)
Lemma of_string_bounded (s : string) (v : float) (len : nat) (j : Z) :
  0 <= j -> j <= 1023 -> 10 ^ Z.of_nat len <= 2 ^ j ->
  (String.length s <= len)%nat ->
  of_string s = inr v ->
  bounded_by (j + 1) v.
Proof.
  intros Hj1 Hj2 Hpow Hlen. unfold of_string.
  set (nb := match s with
             | EmptyString => (false, s)
             | String c r => if Ascii.eqb c "-" then (true, r) else (false, s)
             end).
  assert (Hbody : (String.length (snd nb) <= String.length s)%nat).
  { unfold nb. destruct s as [| c r]; simpl; [lia |].
    destruct (Ascii.eqb c "-"); simpl; lia. }
  destruct nb as [neg body]. simpl in Hbody.
  pose proof (span_append Text.is_digit body) as Happ.
  pose proof (span_all_digits body) as Hip.
  destruct (Text.span Text.is_digit body) as [ip rest]. simpl in Happ, Hip.
  assert (Hsum : (String.length ip + String.length rest
                  = String.length body)%nat)
    by (rewrite <- length_append, <- Happ; reflexivity).
  clear Happ.
  assert (Hbound : forall ds, all_digits ds = true ->
            (String.length ds <= String.length body)%nat ->
            digits_value 0 ds < 2 ^ j).
  { intros ds Hds Hl.
    destruct (digits_value_bound ds 0 Hds ltac:(lia)) as [_ Hlt].
    apply Z.lt_le_trans with (10 ^ Z.of_nat len); [| assumption].
    apply Z.lt_le_trans with (10 ^ Z.of_nat (String.length ds)); [lia |].
    apply Z.pow_le_mono_r; lia. }
  destruct rest as [| c fp].
  - destruct (Text.is_empty ip); intros H; inversion H; subst.
    apply of_decimal_bounded; try assumption.
    apply Hbound; [assumption |]. lia.
  - destruct (Ascii.eqb c "." && all_digits fp
              && negb (Text.is_empty ip && Text.is_empty fp))%bool eqn:E;
      intros H; inversion H; subst.
    apply andb_prop in E. destruct E as [E _].
    apply andb_prop in E. destruct E as [_ Hfp].
    apply of_decimal_bounded; try assumption.
    apply Hbound; [apply all_digits_append; assumption |].
    rewrite length_append. simpl in Hsum. lia.
Qed.

End FloatBounds.


(** Inversion of an equation between results, with the substitution. *)
Ltac inv H := inversion H; subst; clear H.

(** ** Facts about the tokenizer *)

Lemma search_some {A} (p : string -> option A) (s : string) (a : A) :
  search p s = Some a -> exists s', p s' = Some a.
Proof.
  induction s as [| c s IH]; simpl.
  - destruct (p EmptyString) eqn:E; [| discriminate].
    intros H; inversion H; subst. eauto.
  - destruct (p (String c s)) eqn:E.
    + intros H; inversion H; subst. eauto.
    + exact IH.
Qed.

(** The spindle pattern captures a nonempty run of digits. *)
Lemma rpm_re_digits (line txt : string) :
  rpm_re line = Some txt ->
  Float.all_digits txt = true /\ is_empty txt = false.
Proof.
  unfold rpm_re. intros H.
  destruct (search_some _ _ _ H) as (s' & Hs'). clear H.
  unfold letter_run, bind_opt in Hs'.
  destruct (expect "S" s') as [s1 |]; [| discriminate].
  destruct (is_empty (take_while is_digit s1)) eqn:E; [discriminate |].
  inversion Hs'; subst. split; [| assumption].
  apply FloatFacts.span_all_digits.
Qed.

(** The patterns and conversions on sample texts. *)

Example splitlines_sample :
  splitlines ("a" ++ String CR (String LF "b") ++ String LF (String LF "c"))
  = ["a"; "b"; ""; "c"]
  /\ splitlines (String LF "") = [""]
  /\ splitlines "" = [].
Proof. repeat split. Qed.

Example group_begin_sample :
  group_begin_re ("N10 " ++ GROUP_BEGIN "0" "Face mill" ++ " ;")
  = Some "Face mill"
  /\ group_begin_re ("GROUP_BEGIN(0 " ++ quoted "no comma" ++ ")") = None
  /\ group_begin_re ("GROUP_BEGIN(0,  " ++ quoted "open") = Some "open"
  /\ group_begin_re ("GROUP_BEGIN(0," ++ String dquote "unclosed") = None.
Proof. repeat split. Qed.

Example g_code_sample :
  g_code_re "G0" = Some "0"%char
  /\ g_code_re "G00 X1" = Some "0"%char
  /\ g_code_re "G01" = Some "1"%char
  /\ g_code_re "N5 G1X2" = Some "1"%char
  /\ g_code_re "G0X5" = Some "0"%char
  /\ g_code_re "G95" = None
  /\ g_code_re "G2 G1" = Some "1"%char.
Proof. repeat split. Qed.

Example coord_sample :
  coord_re "G1 X10 Y-2.5Z.3 XY1 X Z--1"
  = [("X"%char, "10"); ("Y"%char, "-2.5"); ("Z"%char, ".3");
     ("Y"%char, "1"); ("Z"%char, "--1")]
  /\ feed_re "G1 F500 X100" = Some "500"
  /\ feed_re "F F-.5" = Some "-.5"
  /\ rpm_re "S S1200M3" = Some "1200"
  /\ tool_re ("T=" ++ quoted "MILL 10" ++ " D1") = Some "MILL 10".
Proof. repeat split. Qed.

Example of_string_sample :
  Float.of_string "0.1" = inr (S754_finite false 7205759403792794 (-56))
  /\ Float.of_string "0.1" = inr tenth
  /\ Float.of_string "500" = inr (Float.of_Z 500)
  /\ Float.of_string "-2.5" = inr (S754_finite true 5629499534213120 (-51))
  /\ Float.of_string "1." = inr (Float.of_Z 1)
  /\ Float.of_string "-0" = inr (S754_zero true)
  /\ Float.of_string "9007199254740993" = inr (Float.of_Z 9007199254740992)
  /\ Float.of_string (replicate 400 "9") = inr Float.infinity
  /\ Float.of_string "-" = inl ValueError
  /\ Float.of_string "." = inl ValueError
  /\ Float.of_string "1.2.3" = inl ValueError
  /\ Float.of_string "--1" = inl ValueError.
Proof. repeat split; vm_compute; reflexivity. Qed.

Example float_arithmetic_sample :
  Float.pow2 (Float.of_Z (-10)) = inr (Float.of_Z 100)
  /\ Float.pow2 (S754_finite false 1 600) = inl OverflowError
  /\ Float.pow2 (S754_infinity true) = inr Float.infinity
  /\ Float.sqrt (Float.of_Z 100) = inr (Float.of_Z 10)
  /\ Float.sqrt (Float.of_Z (-1)) = inl ValueError
  /\ Float.div (Float.of_Z 1) Float.zero = inl ZeroDivisionError
  /\ Float.div Float.infinity Float.infinity = inr Float.nan
  /\ Float.to_int (Float.of_Z 1000) = inr 1000
  /\ Float.to_int (S754_finite true 5629499534213120 (-51)) = inr (-2)
  /\ Float.to_int Float.infinity = inl OverflowError.
Proof. repeat split; vm_compute; reflexivity. Qed.

(** ** Facts about the loop body *)

Lemma Forall_snoc {A} (P : A -> Prop) (l : list A) (x : A) :
  Forall P l -> P x -> Forall P (l ++ [x]).
Proof.
  intros Hl Hx. apply Forall_app. split; [assumption |].
  constructor; [assumption | constructor].
Qed.

Lemma handle_groups_machine (line : string) (st : State) :
  machine (handle_groups line st) = machine st.
Proof.
  unfold handle_groups, close_group, open_group.
  destruct (group_begin_re line); destruct (group_end_re line); simpl;
    try reflexivity; destruct (current_group_info st); reflexivity.
Qed.

(** A line met with no group open and no begin marker changes nothing in
    the group handling. *)
Lemma handle_groups_idle (line : string) (st : State) :
  current_group_info st = None -> group_begin_re line = None ->
  handle_groups line st = st.
Proof.
  intros Hc Hb. unfold handle_groups, close_group, open_group.
  rewrite Hb, Hc. destruct (group_end_re line); reflexivity.
Qed.

(** The [continue] of the loop: with no group open after the markers, the
    rest of the line is not looked at. *)
Lemma process_line_closed (st : State) (line : string) :
  current_group_info (handle_groups line st) = None ->
  process_line st line = inr (handle_groups line st).
Proof. unfold process_line. intros ->. reflexivity. Qed.

Lemma process_line_idle (st : State) (line : string) :
  current_group_info st = None -> group_begin_re line = None ->
  process_line st line = inr st.
Proof.
  intros Hc Hb. rewrite process_line_closed;
    rewrite (handle_groups_idle line st Hc Hb); [reflexivity | assumption].
Qed.

Lemma update_feed_mode_fields (line : string) (m : Machine) :
  let m' := update_feed_mode line m in
  pos m' = pos m /\ rpm m' = rpm m /\ feed m' = feed m
  /\ motion_mode m' = motion_mode m.
Proof.
  unfold update_feed_mode.
  destruct (contains "G95" line); destruct (contains "G94" line); simpl; auto.
Qed.

Lemma update_motion_mode_fields (line : string) (m : Machine) :
  let m' := update_motion_mode line m in
  pos m' = pos m /\ rpm m' = rpm m /\ feed m' = feed m.
Proof.
  unfold update_motion_mode. destruct (g_code_re line); simpl; auto.
Qed.

(** The two conversions among the modal words, turned around: a spindle
    speed is the float of a run of digits, and a feed the float of its
    text. *)
Lemma update_rpm_inv (line : string) (mg mg' : Machine * Group) :
  update_rpm line mg = inr mg' ->
  mg' = mg
  \/ exists r n, rpm_ok r
       /\ mg' = (with_rpm r (fst mg), record_rpm n (snd mg)).
Proof.
  unfold update_rpm. destruct (rpm_re line) as [rt |] eqn:Ert.
  - destruct (rpm_re_digits _ _ Ert) as [Hd Hne].
    rewrite (FloatFacts.of_string_digits rt Hd Hne). simpl.
    destruct (Float.to_int _) as [e | n]; simpl; intros H; inv H.
    right. exists (Float.of_decimal false (Float.digits_value 0 rt) 0), n.
    split; [apply FloatFacts.of_decimal_integer_rpm_ok | reflexivity].
  - intros H; inv H. left. reflexivity.
Qed.

Lemma update_feed_inv (line : string) (mg mg' : Machine * Group) :
  update_feed line mg = inr mg' ->
  mg' = mg
  \/ exists f, feed_ok f
       /\ mg' = (with_feed f (fst mg), record_feed f (snd mg)).
Proof.
  unfold update_feed. destruct (feed_re line) as [ft |].
  - destruct (Float.of_string ft) as [e | f] eqn:Ef; simpl;
      intros H; inv H.
    right. exists f.
    split; [exact (FloatFacts.of_string_feed_ok _ _ Ef) | reflexivity].
  - intros H; inv H. left. reflexivity.
Qed.

Lemma update_modal_inv (line : string) (m m1 : Machine) (g g1 : Group) :
  update_modal line m g = inr (m1, g1) ->
  exists mg1 mg2,
    update_rpm line (update_feed_mode line (update_motion_mode line m), g)
    = inr mg1
    /\ update_feed line mg1 = inr mg2
    /\ m1 = fst mg2 /\ g1 = update_tool line (snd mg2).
Proof.
  unfold update_modal. intros H.
  destruct (update_rpm line _) as [e | mg1] eqn:H1; [discriminate |].
  simpl in H.
  destruct (update_feed line mg1) as [e | mg2] eqn:H2; [discriminate |].
  simpl in H. inv H. exists mg1, mg2. repeat split; assumption.
Qed.

Lemma update_tool_account (line : string) (g : Group) :
  Tiempo_Corte_Est_seg (update_tool line g) = Tiempo_Corte_Est_seg g
  /\ Distancia_Corte_mm (update_tool line g) = Distancia_Corte_mm g
  /\ Grupo (update_tool line g) = Grupo g.
Proof. unfold update_tool. destruct (tool_re line); simpl; auto. Qed.

(** What the modal words of a line leave alone: the position, and the
    time and distance of the group; the motion mode is the one set by the
    motion code. *)
Lemma update_modal_frame (line : string) (m m1 : Machine) (g g1 : Group) :
  update_modal line m g = inr (m1, g1) ->
  pos m1 = pos m
  /\ motion_mode m1 = motion_mode (update_motion_mode line m)
  /\ Tiempo_Corte_Est_seg g1 = Tiempo_Corte_Est_seg g
  /\ Distancia_Corte_mm g1 = Distancia_Corte_mm g
  /\ Grupo g1 = Grupo g.
Proof.
  intros H.
  destruct (update_modal_inv _ _ _ _ _ H) as (mg1 & mg2 & H1 & H2 & -> & ->).
  destruct (update_feed_mode_fields line (update_motion_mode line m))
    as (Hp & _ & _ & Hmm).
  destruct (update_motion_mode_fields line m) as (Hp' & _ & _).
  destruct (update_tool_account line (snd mg2)) as (Et & Ed & En).
  rewrite Et, Ed, En, <- Hp', <- Hp, <- Hmm.
  destruct (update_rpm_inv _ _ _ H1) as [-> | (r & n & _ & ->)];
    destruct (update_feed_inv _ _ _ H2) as [-> | (f & _ & ->)];
    simpl; auto.
Qed.

Lemma update_modal_ok (line : string) (m m1 : Machine) (g g1 : Group) :
  update_modal line m g = inr (m1, g1) ->
  machine_ok m -> machine_ok m1.
Proof.
  intros H [Of Or].
  destruct (update_modal_inv _ _ _ _ _ H) as (mg1 & mg2 & H1 & H2 & -> & _).
  destruct (update_feed_mode_fields line (update_motion_mode line m))
    as (_ & Hr & Hf & _).
  destruct (update_motion_mode_fields line m) as (_ & Hr' & Hf').
  rewrite <- Hf', <- Hf in Of. rewrite <- Hr', <- Hr in Or.
  destruct (update_rpm_inv _ _ _ H1) as [-> | (r & n & Okr & ->)];
    destruct (update_feed_inv _ _ _ H2) as [-> | (f & Okf & ->)];
    split; simpl; assumption.
Qed.

Lemma process_motion_machine (line : string) (m m2 : Machine) (g g2 : Group) :
  process_motion line m g = inr (m2, g2) ->
  rpm m2 = rpm m /\ feed m2 = feed m
  /\ g95_active m2 = g95_active m /\ motion_mode m2 = motion_mode m.
Proof.
  unfold process_motion.
  destruct (coord_re line) as [| c cs].
  - intros H; inversion H; subst. auto.
  - destruct (target_of (c :: cs) (pos m)) as [e | t]; simpl;
      [discriminate |].
    destruct (distance_between (pos m) t) as [e | d]; simpl;
      [discriminate |].
    destruct (if is_cutting m d then _ else _) as [e | g']; simpl;
      [discriminate |].
    intros H; inversion H; subst. simpl. auto.
Qed.

Lemma process_line_machine_ok (st st' : State) (line : string) :
  process_line st line = inr st' ->
  machine_ok (machine st) -> machine_ok (machine st').
Proof.
  unfold process_line. intros H Hok.
  rewrite <- (handle_groups_machine line st) in Hok.
  destruct (current_group_info (handle_groups line st)) as [g |].
  - destruct (update_modal line _ g) as [e | [m1 g1]] eqn:E1; simpl in H;
      [discriminate |].
    destruct (process_motion line m1 g1) as [e | [m2 g2]] eqn:E2; simpl in H;
      [discriminate |].
    inversion H; subst; clear H. simpl.
    pose proof (update_modal_ok _ _ _ _ _ E1 Hok) as [Of Or].
    destruct (process_motion_machine _ _ _ _ _ E2) as (Hr & Hf & _).
    unfold machine_ok. rewrite Hr, Hf. auto.
  - inversion H; subst. assumption.
Qed.

Lemma run_machine_ok (lines : list string) : forall st st' : State,
  run st lines = inr st' ->
  machine_ok (machine st) -> machine_ok (machine st').
Proof.
  induction lines as [| line rest IH]; intros st st' H Hok; simpl in H.
  - inversion H; subst. assumption.
  - destruct (process_line st line) as [e | st1] eqn:E; simpl in H;
      [discriminate |].
    apply (IH st1 st' H). exact (process_line_machine_ok _ _ _ E Hok).
Qed.

Lemma initial_machine_ok : machine_ok initial_machine.
Proof. split; simpl; unfold mag; simpl; lia. Qed.

Lemma reachable_machine_ok (st : State) :
  reachable st -> machine_ok (machine st).
Proof.
  intros [lines H]. exact (run_machine_ok _ _ _ H initial_machine_ok).
Qed.

Lemma run_app (l1 : list string) : forall (l2 : list string) (st : State),
  run st (l1 ++ l2) = (st1 <- run st l1 ;; run st1 l2).
Proof.
  induction l1 as [| line rest IH]; intros l2 st; simpl; [reflexivity |].
  destruct (process_line st line) as [e | st1]; simpl; [reflexivity |].
  apply IH.
Qed.

(** In a state that satisfies the invariant the time of a move is always
    computed: no division by zero occurs. *)
Lemma time_for_move_total (m : Machine) (d : float) :
  machine_ok m ->
  exists t, time_for_move m d = inr t
  /\ (g95_active m = true -> Float.gt0 (rpm m) = true ->
      Float.gt0 (feed m) = true ->
      t = Float.mul (Float.quot d (Float.mul (feed m) (rpm m))) sixty)
  /\ (g95_active m = false -> Float.gt0 (feed m) = true ->
      t = Float.mul (Float.quot d (feed m)) sixty)
  /\ (Float.gt0 (feed m) = false -> t = Float.zero)
  /\ (g95_active m = true -> Float.gt0 (rpm m) = false -> t = Float.zero).
Proof.
  intros [Of Or]. unfold time_for_move.
  destruct (g95_active m) eqn:Eg; destruct (Float.gt0 (rpm m)) eqn:Er;
    destruct (Float.gt0 (feed m)) eqn:Ef; simpl;
    try (eexists; split; [reflexivity |];
         repeat split; intros; try discriminate; reflexivity).
  - unfold Float.div.
    rewrite (FloatFacts.mul_nonzero _ _ Ef Er Of Or). simpl.
    eexists; split; [reflexivity |].
    repeat split; intros; try discriminate; reflexivity.
  - unfold Float.div.
    assert (Hz : Float.is_zero (feed m) = false).
    { destruct (FloatFacts.gt0_cases _ Ef) as [-> | (mf & ef & ->)];
        reflexivity. }
    rewrite Hz. simpl.
    eexists; split; [reflexivity |].
    repeat split; intros; try discriminate; reflexivity.
  - unfold Float.div.
    assert (Hz : Float.is_zero (feed m) = false).
    { destruct (FloatFacts.gt0_cases _ Ef) as [-> | (mf & ef & ->)];
        reflexivity. }
    rewrite Hz. simpl.
    eexists; split; [reflexivity |].
    repeat split; intros; try discriminate; reflexivity.
Qed.

(** The step of a line whose modal words and move are known. *)
Lemma process_line_open (st : State) (line : string) (g g1 g2 : Group)
  (m1 m2 : Machine) :
  current_group_info (handle_groups line st) = Some g ->
  update_modal line (machine st) g = inr (m1, g1) ->
  process_motion line m1 g1 = inr (m2, g2) ->
  process_line st line
  = inr {| results := results (handle_groups line st);
           current_group_info := Some g2;
           machine := m2 |}.
Proof.
  intros Hc Hu Hm. unfold process_line.
  rewrite Hc, handle_groups_machine, Hu. simpl. rewrite Hm. reflexivity.
Qed.

(** A move in motion mode G1 over a distance above zero is charged: its
    time and its distance are added to the open group. *)
Lemma cutting_move (line : string) (m1 : Machine) (g1 : Group)
  (target_pos : Position) (d : float) :
  machine_ok m1 ->
  coord_re line <> [] ->
  target_of (coord_re line) (pos m1) = inr target_pos ->
  distance_between (pos m1) target_pos = inr d ->
  is_cutting m1 d = true ->
  exists t, time_for_move m1 d = inr t
  /\ process_motion line m1 g1
     = inr (with_pos target_pos m1, charge t d g1).
Proof.
  intros Hok Hne Ht Hd Hc.
  destruct (time_for_move_total m1 d Hok) as (t & Et & _).
  exists t. split; [assumption |].
  unfold process_motion.
  destruct (coord_re line) as [| c cs]; [congruence |].
  rewrite Ht. simpl. rewrite Hd. simpl. rewrite Hc, Et. reflexivity.
Qed.

(** A move that is not charged only changes the position. *)
Lemma idle_move (line : string) (m1 : Machine) (g1 : Group)
  (target_pos : Position) (d : float) :
  coord_re line <> [] ->
  target_of (coord_re line) (pos m1) = inr target_pos ->
  distance_between (pos m1) target_pos = inr d ->
  is_cutting m1 d = false ->
  process_motion line m1 g1 = inr (with_pos target_pos m1, g1).
Proof.
  intros Hne Ht Hd Hc. unfold process_motion.
  destruct (coord_re line) as [| c cs]; [congruence |].
  rewrite Ht. simpl. rewrite Hd. simpl. rewrite Hc. reflexivity.
Qed.

(** ** Facts about signs

    The accumulators of a group only receive floats above zero and
    quotients of such floats, so they never carry a minus sign. *)

Module Signs.
Import Float FloatFacts.

Lemma round_aux_plus (m e : Z) (l : location) :
  0 <= m -> plus (binary_round_aux prec emax false m e l) = true.
Proof.
  intros Hm.
  destruct (binary_round_aux_cases false m e l Hm)
    as [E | [E | (m' & e' & E & _)]]; rewrite E; reflexivity.
Qed.

Lemma binary_round_plus (m : positive) (e : Z) :
  plus (binary_round prec emax false m e) = true.
Proof.
  unfold binary_round. destruct (shl_align _ _ _) as [mz ez].
  apply round_aux_plus. lia.
Qed.

Lemma plus_cases (x : float) :
  plus x = true ->
  x = S754_zero false \/ x = S754_infinity false
  \/ exists m e, x = S754_finite false m e.
Proof.
  destruct x as [[] | [] | | [] m e]; try discriminate; eauto.
Qed.

Lemma plus_or_nan_cases (x : float) :
  plus_or_nan x = true -> x = S754_nan \/ plus x = true.
Proof. destruct x; simpl; auto. Qed.

(** Adding floats without a minus sign gives one. *)
Lemma add_plus (a b : float) :
  plus a = true -> plus b = true -> plus (add a b) = true.
Proof.
  intros Ha Hb.
  destruct (plus_cases a Ha) as [-> | [-> | (ma & ea & ->)]];
    destruct (plus_cases b Hb) as [-> | [-> | (mb & eb & ->)]];
    try reflexivity.
  unfold add, SFadd. simpl cond_Zopp.
  apply binary_round_plus.
Qed.

Lemma add_plus_or_nan (a b : float) :
  plus_or_nan a = true -> plus_or_nan b = true ->
  plus_or_nan (add a b) = true.
Proof.
  intros Ha Hb.
  destruct (plus_or_nan_cases a Ha) as [-> | Pa]; [reflexivity |].
  destruct (plus_or_nan_cases b Hb) as [-> | Pb];
    [destruct a; reflexivity |].
  pose proof (add_plus a b Pa Pb) as H.
  destruct (add a b); simpl in *; congruence.
Qed.

Lemma gt0_plus (x : float) : gt0 x = true -> plus x = true.
Proof.
  intros H. destruct (gt0_cases x H) as [-> | (m & e & ->)]; reflexivity.
Qed.

Lemma plus_plus_or_nan (x : float) : plus x = true -> plus_or_nan x = true.
Proof. destruct x; simpl; auto. Qed.

(** The quotient of two floats above zero has no minus sign; it is a NaN
    when both are infinite. *)
Lemma quot_plus_or_nan (a b : float) :
  gt0 a = true -> gt0 b = true -> plus_or_nan (quot a b) = true.
Proof.
  intros Ha Hb.
  destruct (gt0_cases a Ha) as [-> | (ma & ea & ->)];
    destruct (gt0_cases b Hb) as [-> | (mb & eb & ->)]; try reflexivity.
  unfold quot, SFdiv.
  destruct (SFdiv_core_binary prec emax (Zpos ma) ea (Zpos mb) eb)
    as [[q e] l] eqn:H.
  apply plus_plus_or_nan, round_aux_plus.
  eapply SFdiv_core_nonneg; [| | exact H]; lia.
Qed.

Lemma mul_plus (a b : float) :
  plus a = true -> gt0 b = true -> plus_or_nan (mul a b) = true.
Proof.
  intros Ha Hb.
  destruct (plus_cases a Ha) as [-> | [-> | (ma & ea & ->)]];
    destruct (gt0_cases b Hb) as [-> | (mb & eb & ->)]; try reflexivity.
  unfold mul, SFmul. apply plus_plus_or_nan, round_aux_plus. lia.
Qed.

Lemma mul_plus_or_nan (a b : float) :
  plus_or_nan a = true -> gt0 b = true -> plus_or_nan (mul a b) = true.
Proof.
  intros Ha Hb.
  destruct (plus_or_nan_cases a Ha) as [-> | Pa]; [reflexivity |].
  apply mul_plus; assumption.
Qed.

Lemma plus_ge0 (x : float) : plus x = true -> ge0 x = true.
Proof.
  intros H.
  destruct (plus_cases x H) as [-> | [-> | (m & e & ->)]]; reflexivity.
Qed.

End Signs.

(** The sign lemmas, for [auto]. *)
Create HintDb signs.

#[global] Hint Resolve Signs.add_plus Signs.add_plus_or_nan Signs.gt0_plus
  Signs.plus_plus_or_nan Signs.plus_ge0 Signs.mul_plus_or_nan
  Signs.quot_plus_or_nan : signs.

Lemma time_for_move_sign (m : Machine) (d t : float) :
  time_for_move m d = inr t -> Float.gt0 d = true ->
  plus_or_nan t = true.
Proof.
  unfold time_for_move, Float.div. intros H Hd.
  destruct (g95_active m && Float.gt0 (rpm m) && Float.gt0 (feed m))%bool
    eqn:E1.
  - apply andb_prop in E1. destruct E1 as [E1 Ef].
    apply andb_prop in E1. destruct E1 as [_ Er].
    destruct (Float.is_zero (Float.mul (feed m) (rpm m))) eqn:Ez;
      simpl in H; [discriminate |].
    inversion H; subst; clear H.
    apply Signs.mul_plus_or_nan; [| reflexivity].
    assert (Hp : plus_or_nan (Float.mul (feed m) (rpm m)) = true)
      by (apply Signs.mul_plus; [apply Signs.gt0_plus |]; assumption).
    destruct (Float.mul (feed m) (rpm m)) as [s | s | | s mq eq] eqn:Eq;
      try discriminate.
    + destruct s; [discriminate |].
      apply Signs.quot_plus_or_nan; [assumption | reflexivity].
    + destruct d; reflexivity.
    + destruct s; [discriminate |].
      apply Signs.quot_plus_or_nan; [assumption | reflexivity].
  - destruct (negb (g95_active m) && Float.gt0 (feed m))%bool eqn:E2.
    + apply andb_prop in E2. destruct E2 as [_ Ef].
      destruct (Float.is_zero (feed m)); simpl in H; [discriminate |].
      inversion H; subst; clear H.
      apply Signs.mul_plus_or_nan; [| reflexivity].
      apply Signs.quot_plus_or_nan; assumption.
    + inversion H; subst. reflexivity.
Qed.

Lemma process_motion_signs (line : string) (m m2 : Machine) (g g2 : Group) :
  process_motion line m g = inr (m2, g2) ->
  group_signs_ok g -> group_signs_ok g2.
Proof.
  unfold process_motion. intros H [Hd Ht].
  destruct (coord_re line) as [| c cs];
    [inversion H; subst; split; assumption |].
  destruct (target_of (c :: cs) (pos m)) as [e | tp]; simpl in H;
    [discriminate |].
  destruct (distance_between (pos m) tp) as [e | d]; simpl in H;
    [discriminate |].
  destruct (is_cutting m d) eqn:Ec.
  - destruct (time_for_move m d) as [e | t] eqn:Et; simpl in H;
      [discriminate |].
    inversion H; subst; clear H.
    unfold is_cutting in Ec. apply andb_prop in Ec. destruct Ec as [_ Hgt].
    split; simpl.
    + auto with signs.
    + pose proof (time_for_move_sign _ _ _ Et Hgt). auto with signs.
  - simpl in H. inversion H; subst. split; assumption.
Qed.

Lemma handle_groups_signs (line : string) (st : State) :
  state_signs_ok st -> state_signs_ok (handle_groups line st).
Proof.
  unfold state_signs_ok, handle_groups, close_group, open_group.
  intros H.
  assert (Hnew : forall name, group_signs_ok (new_group name))
    by (intros; split; reflexivity).
  destruct (group_begin_re line) as [name |];
    destruct (group_end_re line); simpl.
  - apply Forall_snoc; [assumption | apply Hnew].
  - apply Forall_snoc; [assumption | apply Hnew].
  - revert H. destruct (current_group_info st) eqn:E; simpl; rewrite ?E; auto.
  - assumption.
Qed.

Lemma process_line_signs (st st' : State) (line : string) :
  process_line st line = inr st' ->
  state_signs_ok st -> state_signs_ok st'.
Proof.
  unfold process_line. intros H Hok.
  apply (handle_groups_signs line) in Hok.
  unfold state_signs_ok in *.
  destruct (current_group_info (handle_groups line st)) as [g |] eqn:Ec.
  - destruct (update_modal line _ g) as [e | [m1 g1]] eqn:E1; simpl in H;
      [discriminate |].
    destruct (process_motion line m1 g1) as [e | [m2 g2]] eqn:E2; simpl in H;
      [discriminate |].
    inversion H; subst; clear H. simpl in *.
    rewrite Forall_app in *. destruct Hok as [Hrs Hg].
    split; [assumption |].
    constructor; [| constructor].
    apply (process_motion_signs _ _ _ _ _ E2).
    inversion Hg as [| ? ? [Hd Ht] _]; subst.
    destruct (update_modal_frame _ _ _ _ _ E1) as (_ & _ & Et & Ed & _).
    split; congruence.
  - inversion H; subst. rewrite Ec. assumption.
Qed.

Lemma run_signs (lines : list string) : forall st st' : State,
  run st lines = inr st' -> state_signs_ok st -> state_signs_ok st'.
Proof.
  induction lines as [| line rest IH]; intros st st' H Hok; simpl in H.
  - inversion H; subst. assumption.
  - destruct (process_line st line) as [e | st1] eqn:E; simpl in H;
      [discriminate |].
    exact (IH _ _ H (process_line_signs _ _ _ E Hok)).
Qed.

(** ** Moderate numbers

    On a text with moderate numbers no conversion fails and no square
    overflows. *)

Lemma ten_pow_100 : 10 ^ Z.of_nat 100 <= 2 ^ 333.
Proof. apply Z.leb_le. vm_compute. reflexivity. Qed.

Lemma short_literal_small (txt : string) :
  short_literal txt = true ->
  exists v, Float.of_string txt = inr v /\ small v.
Proof.
  unfold short_literal, is_float_literal. intros H.
  apply andb_prop in H. destruct H as [Hl Hlen].
  apply Nat.leb_le in Hlen.
  destruct (Float.of_string txt) as [e | v] eqn:E; [discriminate |].
  exists v. split; [reflexivity |].
  exact (FloatBounds.of_string_bounded txt v 100 333 ltac:(lia) ltac:(lia)
           ten_pow_100 Hlen E).
Qed.


Lemma sub_small (a b : float) :
  small a -> small b -> bounded_by 336 (Float.sub a b).
Proof.
  intros Ha Hb.
  exact (FloatBounds.sub_bounded 334 a b ltac:(lia) ltac:(lia) Ha Hb).
Qed.


Lemma mul_small (a b : float) :
  small a -> small b -> bounded_by 669 (Float.mul a b).
Proof.
  intros Ha Hb.
  exact (FloatBounds.mul_bounded 334 334 a b ltac:(lia) ltac:(lia) Ha Hb).
Qed.


Lemma pow2_total (x : float) :
  bounded_by 336 x ->
  exists r, Float.pow2 x = inr r /\ plus r = true.
Proof.
  destruct x as [s | s | | s m e]; try contradiction.
  - intros _. eexists. split; reflexivity.
  - intros Hb. unfold Float.pow2.
    set (r := Float.mul (S754_finite false m e) (S754_finite false m e)).
    assert (Hm : bounded_by (336 + 336 + 1) r)
      by (apply FloatBounds.mul_bounded; [lia | lia | exact Hb | exact Hb]).
    assert (Hp : plus r = true).
    { unfold r, Float.mul, SFmul. apply Signs.round_aux_plus. lia. }
    destruct r as [s' | s' | | s' m' e'];
      try contradiction; try discriminate;
      eexists; (split; [reflexivity | exact Hp]).
Qed.


Lemma sqrt_total (x : float) :
  plus x = true -> exists r, Float.sqrt x = inr r.
Proof.
  intros Hp. unfold Float.sqrt.
  destruct (Signs.plus_cases x Hp) as [-> | [-> | (m & e & ->)]];
    eexists; reflexivity.
Qed.


Lemma distance_total (p tp : Position) :
  position_small p -> position_small tp ->
  exists d, distance_between p tp = inr d.
Proof.
  intros (Hx & Hy & Hz) (Tx & Ty & Tz). unfold distance_between.
  destruct (pow2_total _ (sub_small _ _ Tx Hx)) as (dx & -> & Px).
  destruct (pow2_total _ (sub_small _ _ Ty Hy)) as (dy & -> & Py).
  destruct (pow2_total _ (sub_small _ _ Tz Hz)) as (dz & -> & Pz).
  simpl. apply sqrt_total. auto with signs.
Qed.


Lemma set_axis_small (axis : ascii) (v : float) (p : Position) :
  small v -> position_small p -> position_small (set_axis axis v p).
Proof.
  intros Hv (Hx & Hy & Hz). unfold set_axis.
  destruct (Ascii.eqb axis "X"); [repeat split; assumption |].
  destruct (Ascii.eqb axis "Y"); repeat split; assumption.
Qed.


Lemma target_of_total (cs : list (ascii * string)) : forall p : Position,
  forallb (fun c => short_literal (snd c)) cs = true ->
  position_small p ->
  exists tp, target_of cs p = inr tp /\ position_small tp.
Proof.
  induction cs as [| [axis value] rest IH]; intros p Hcs Hp; simpl.
  - exists p. split; [reflexivity | assumption].
  - simpl in Hcs. apply andb_prop in Hcs. destruct Hcs as [Hv Hrest].
    destruct (short_literal_small value Hv) as (v & -> & Sv). simpl.
    apply IH; [assumption |]. apply set_axis_small; assumption.
Qed.


Lemma to_int_total (x : float) (k : Z) :
  bounded_by k x -> exists n, Float.to_int x = inr n.
Proof.
  destruct x; simpl; try contradiction; intros _; eexists; reflexivity.
Qed.


Lemma small_gt0_finite (x : float) :
  small x -> Float.gt0 x = true -> exists m e, x = S754_finite false m e.
Proof.
  intros Sx Hx.
  destruct (FloatFacts.gt0_cases x Hx) as [-> | H]; [contradiction | exact H].
Qed.


Lemma quot_finite_plus (d : float) (m : positive) (e : Z) :
  Float.gt0 d = true ->
  plus (Float.quot d (S754_finite false m e)) = true.
Proof.
  intros Hd.
  destruct (FloatFacts.gt0_cases d Hd) as [-> | (md & ed & ->)];
    [reflexivity |].
  unfold Float.quot, SFdiv.
  destruct (SFdiv_core_binary Float.prec Float.emax (Zpos md) ed (Zpos m) e)
    as [[q e'] l] eqn:H.
  apply Signs.round_aux_plus.
  eapply FloatFacts.SFdiv_core_nonneg; [| | exact H]; lia.
Qed.


Lemma mul_sixty_plus (q : float) :
  plus q = true -> plus (Float.mul q sixty) = true.
Proof.
  intros Hq.
  destruct (Signs.plus_cases q Hq) as [-> | [-> | (m & e & ->)]];
    try reflexivity.
  unfold Float.mul, SFmul. simpl xorb. apply Signs.round_aux_plus. lia.
Qed.


(** With a moderate feed and spindle speed the time of a move has no
    minus sign and is no NaN. *)
Lemma time_for_move_plus (m : Machine) (d : float) :
  machine_ok m -> small (feed m) -> small (rpm m) ->
  Float.gt0 d = true ->
  exists t, time_for_move m d = inr t /\ plus t = true.
Proof.
  intros [Of Or] Sf Sr Hd. unfold time_for_move, Float.div.
  destruct (g95_active m && Float.gt0 (rpm m) && Float.gt0 (feed m))%bool
    eqn:E1.
  - apply andb_prop in E1. destruct E1 as [E1 Ef].
    apply andb_prop in E1. destruct E1 as [_ Er].
    rewrite (FloatFacts.mul_nonzero _ _ Ef Er Of Or). simpl.
    eexists. split; [reflexivity |]. apply mul_sixty_plus.
    pose proof (FloatFacts.mul_nonzero _ _ Ef Er Of Or) as Hnz.
    pose proof (mul_small _ _ Sf Sr) as Hb.
    assert (Hp : plus_or_nan (Float.mul (feed m) (rpm m)) = true)
      by (apply Signs.mul_plus; [apply Signs.gt0_plus |]; assumption).
    destruct (Float.mul (feed m) (rpm m)) as [s | s | | s mq eq];
      try contradiction; try discriminate.
    destruct s; [discriminate |].
    apply quot_finite_plus. assumption.
  - destruct (negb (g95_active m) && Float.gt0 (feed m))%bool eqn:E2.
    + apply andb_prop in E2. destruct E2 as [_ Ef].
      destruct (small_gt0_finite _ Sf Ef) as (mf & ef & Eq).
      rewrite Eq. simpl.
      eexists. split; [reflexivity |].
      apply mul_sixty_plus, quot_finite_plus. assumption.
    + eexists. split; reflexivity.
Qed.


Lemma handle_groups_plus (line : string) (st : State) :
  Forall group_plus (emit (results st) (current_group_info st)) ->
  Forall group_plus
    (emit (results (handle_groups line st))
       (current_group_info (handle_groups line st))).
Proof.
  unfold handle_groups, close_group, open_group. intros H.
  assert (Hnew : forall name, group_plus (new_group name))
    by (intros; split; reflexivity).
  destruct (group_begin_re line) as [name |];
    destruct (group_end_re line); simpl.
  - apply Forall_snoc; [assumption | apply Hnew].
  - apply Forall_snoc; [assumption | apply Hnew].
  - revert H. destruct (current_group_info st) eqn:E; simpl; rewrite ?E; auto.
  - assumption.
Qed.

(** The step of a line with moderate numbers. *)
Section ModerateLine.

Variable line : string.
Hypothesis Hline : moderate_line line = true.

(** With moderate numbers the modal words of a line never raise. *)
Lemma update_modal_total (m : Machine) (g : Group) :
  small (feed m) -> small (rpm m) ->
  exists m1 g1,
    update_modal line m g = inr (m1, g1)
    /\ small (feed m1) /\ small (rpm m1).
Proof.
  intros Sf Sr. pose proof Hline as Hl. unfold moderate_line in Hl.
  apply andb_prop in Hl. destruct Hl as [Hl Hrpm].
  apply andb_prop in Hl. destruct Hl as [Hfeed _].
  unfold update_modal, update_rpm, update_feed.
  destruct (update_feed_mode_fields line (update_motion_mode line m))
    as (_ & Hr & Hf & _).
  destruct (update_motion_mode_fields line m) as (_ & Hr' & Hf').
  set (m0 := update_feed_mode line (update_motion_mode line m)) in *.
  assert (Sf0 : small (feed m0)) by (rewrite Hf, Hf'; assumption).
  assert (Sr0 : small (rpm m0)) by (rewrite Hr, Hr'; assumption).
  clearbody m0. clear Hr Hf Hr' Hf' Sf Sr.
  assert (Hstep2 : forall mg : Machine * Group,
            small (feed (fst mg)) -> small (rpm (fst mg)) ->
            exists m1 g1,
              (mg2 <- match feed_re line with
                      | Some txt =>
                          f <- Float.of_string txt ;;
                          ret (with_feed f (fst mg), record_feed f (snd mg))
                      | None => ret mg
                      end ;;
               ret (fst mg2, update_tool line (snd mg2))) = inr (m1, g1)
              /\ small (feed m1) /\ small (rpm m1)).
  { intros [ma ga] Sfa Sra. simpl in Sfa, Sra.
    destruct (feed_re line) as [ft |].
    - destruct (short_literal_small ft Hfeed) as (f & -> & Sfv). simpl.
      eexists _, _. split; [reflexivity |]. simpl. auto.
    - simpl. eexists _, _. split; [reflexivity |]. auto. }
  destruct (rpm_re line) as [rt |] eqn:Ert.
  - destruct (rpm_re_digits _ _ Ert) as [Hd Hne].
    apply Nat.leb_le in Hrpm.
    pose proof (FloatFacts.of_string_digits rt Hd Hne) as Eo.
    pose proof (FloatBounds.of_string_bounded rt _ 100 333 ltac:(lia) ltac:(lia)
                  ten_pow_100 Hrpm Eo) as Sr.
    rewrite Eo. simpl.
    destruct (to_int_total _ _ Sr) as (n & ->). simpl.
    apply (Hstep2 (with_rpm (Float.of_decimal false
                               (Float.digits_value 0 rt) 0) m0,
                   record_rpm n g)); simpl; assumption.
  - simpl. apply (Hstep2 (m0, g)); assumption.
Qed.

Lemma process_motion_total (m : Machine) (g : Group) :
  machine_ok m -> position_small (pos m) ->
  small (feed m) -> small (rpm m) -> group_plus g ->
  exists m2 g2,
    process_motion line m g = inr (m2, g2)
    /\ position_small (pos m2) /\ group_plus g2.
Proof.
  intros Hok Sp Sf Sr [Gd Gt].
  pose proof Hline as Hl. unfold moderate_line in Hl.
  apply andb_prop in Hl. destruct Hl as [Hl _].
  apply andb_prop in Hl. destruct Hl as [_ Hcs].
  unfold process_motion.
  destruct (coord_re line) as [| c cs].
  - eexists _, _. split; [reflexivity |].
    split; [assumption | split; assumption].
  - destruct (target_of_total (c :: cs) (pos m) Hcs Sp) as (tp & -> & Stp).
    unfold bind at 1.
    destruct (distance_total _ _ Sp Stp) as (d & ->).
    unfold bind at 1.
    destruct (is_cutting m d) eqn:Ec.
    + unfold is_cutting in Ec. apply andb_prop in Ec. destruct Ec as [_ Hd].
      destruct (time_for_move_plus m d Hok Sf Sr Hd) as (t & -> & Pt).
      simpl. eexists _, _. split; [reflexivity |].
      split; [assumption |]. split; simpl.
      * auto with signs.
      * auto with signs.
    + simpl. eexists _, _. split; [reflexivity |].
      split; [assumption | split; assumption].
Qed.

(** A line with moderate numbers is processed without an exception, and
    keeps the state moderate. *)
Lemma process_line_moderate (st : State) :
  moderate_state st ->
  exists st', process_line st line = inr st' /\ moderate_state st'.
Proof.
  intros (Hok & Sp & Sf & Sr & Hg). unfold process_line.
  pose proof (handle_groups_plus line st Hg) as Hg1.
  pose proof (handle_groups_machine line st) as Hm.
  destruct (current_group_info (handle_groups line st)) as [g |] eqn:Ec.
  - rewrite Hm.
    destruct (update_modal_total (machine st) g Sf Sr)
      as (m1 & g1 & Eu & Sf1 & Sr1).
    rewrite Eu. simpl.
    destruct (update_modal_frame _ _ _ _ _ Eu) as (Ep & _ & Ft & Fd & _).
    pose proof (update_modal_ok _ _ _ _ _ Eu Hok) as Hok1.
    simpl in Hg1. rewrite Forall_app in Hg1. destruct Hg1 as [Hrs Hgg].
    assert (Gg1 : group_plus g1).
    { inversion Hgg as [| ? ? [Hd Ht] _]; subst. split; congruence. }
    rewrite <- Ep in Sp.
    destruct (process_motion_total m1 g1 Hok1 Sp Sf1 Sr1 Gg1)
      as (m2 & g2 & Em & Sp2 & Gg2).
    rewrite Em. simpl. eexists. split; [reflexivity |].
    destruct (process_motion_machine _ _ _ _ _ Em) as (Er & Ef & _).
    unfold moderate_state, machine_ok in *. simpl. rewrite Er, Ef.
    repeat split; try tauto; try apply Sp2.
    apply Forall_snoc; assumption.
  - eexists. split; [reflexivity |].
    unfold moderate_state. rewrite Hm, Ec. auto.
Qed.

End ModerateLine.

Lemma run_moderate (lines : list string) : forall st : State,
  moderate_state st -> forallb moderate_line lines = true ->
  exists st', run st lines = inr st' /\ moderate_state st'.
Proof.
  induction lines as [| line rest IH]; intros st Hst Hl; simpl.
  - exists st. split; [reflexivity | assumption].
  - simpl in Hl. apply andb_prop in Hl. destruct Hl as [Hline Hrest].
    destruct (process_line_moderate line Hline st Hst) as (st1 & -> & Hst1).
    simpl. exact (IH st1 Hst1 Hrest).
Qed.

Lemma initial_state_moderate : moderate_state initial_state.
Proof.
  split; [exact initial_machine_ok |].
  repeat split; simpl; try exact I; try constructor.
  unfold small, bounded_by, mag. simpl. lia.
Qed.

(** A text with moderate numbers is parsed without an exception, and its
    records have no minus sign and no NaN. *)
Lemma parse_moderate (text : string) :
  moderate_numbers text = true ->
  exists rs, parse_gcode_for_time_and_tools text = inr rs
             /\ Forall group_plus rs.
Proof.
  intros H. unfold parse_gcode_for_time_and_tools.
  destruct (run_moderate _ _ initial_state_moderate H)
    as (st & -> & (_ & _ & _ & _ & Hg)).
  simpl. eexists. split; [reflexivity | exact Hg].
Qed.

(** ** Moves *)

Lemma move_of_line_inv (st : State) (line : string) (m1 : Machine)
  (g1 : Group) (tp : Position) (d : float) :
  move_of_line st line = inr (Some (m1, g1, tp, d)) ->
  exists g,
    current_group_info (handle_groups line st) = Some g
    /\ update_modal line (machine st) g = inr (m1, g1)
    /\ coord_re line <> []
    /\ target_of (coord_re line) (pos m1) = inr tp
    /\ distance_between (pos m1) tp = inr d.
Proof.
  unfold move_of_line. intros H.
  destruct (coord_re line) as [| c cs] eqn:Ec;
    destruct (current_group_info (handle_groups line st)) as [g |];
    try discriminate.
  destruct (update_modal line (machine st) g) as [e | [m g']] eqn:Eu;
    [discriminate |].
  unfold bind in H at 1.
  destruct (target_of (c :: cs) (pos m)) as [e | t] eqn:Et;
    [discriminate |].
  unfold bind in H at 1.
  destruct (distance_between (pos m) t) as [e | d'] eqn:Ed;
    [discriminate |].
  inversion H; subst; clear H.
  exists g. repeat split; try reflexivity; try assumption; discriminate.
Qed.

(** The step of a charged move. *)
Lemma charged_move (st : State) (line : string) (m1 : Machine)
  (g1 : Group) (tp : Position) (d : float) :
  reachable st ->
  move_of_line st line = inr (Some (m1, g1, tp, d)) ->
  is_cutting m1 d = true ->
  exists t, time_for_move m1 d = inr t
    /\ process_line st line = inr (after_move st line m1 (charge t d g1) tp).
Proof.
  intros Hr Hm Hc.
  destruct (move_of_line_inv _ _ _ _ _ _ Hm) as (g & Hg & Hu & Hne & Ht & Hd).
  assert (Hok : machine_ok m1).
  { apply (update_modal_ok _ _ _ _ _ Hu), reachable_machine_ok, Hr. }
  destruct (cutting_move line m1 g1 tp d Hok Hne Ht Hd Hc) as (t & Et & Ep).
  exists t. split; [assumption |].
  exact (process_line_open _ _ _ _ _ _ _ Hg Hu Ep).
Qed.

(** The step of a move that is not charged. *)
Lemma uncharged_move (st : State) (line : string) (m1 : Machine)
  (g1 : Group) (tp : Position) (d : float) :
  move_of_line st line = inr (Some (m1, g1, tp, d)) ->
  is_cutting m1 d = false ->
  process_line st line = inr (after_move st line m1 g1 tp).
Proof.
  intros Hm Hc.
  destruct (move_of_line_inv _ _ _ _ _ _ Hm) as (g & Hg & Hu & Hne & Ht & Hd).
  exact (process_line_open _ _ _ _ _ _ _ Hg Hu
           (idle_move line m1 g1 tp d Hne Ht Hd Hc)).
Qed.

(** C1.  A cutting move charged while a group is open takes
    [(d / (feed * rpm)) * 60] seconds in feed-per-revolution mode with a
    spindle speed and a feed above zero, and [(d / feed) * 60] seconds in
    feed-per-minute mode with a feed above zero.  With G95, S1000 and F0.1
    a move of 10 mm takes 6 seconds, and the same move after G94 takes
    6000 seconds. *)
Theorem cutting_time_formula :
  (forall st line m1 g1 target_pos d,
     reachable st ->
     move_of_line st line = inr (Some (m1, g1, target_pos, d)) ->
     is_cutting m1 d = true ->
     exists t,
       process_line st line
       = inr (after_move st line m1 (charge t d g1) target_pos)
       /\ (g95_active m1 = true -> Float.gt0 (rpm m1) = true ->
           Float.gt0 (feed m1) = true ->
           t = Float.mul (Float.quot d (Float.mul (feed m1) (rpm m1))) sixty)
       /\ (g95_active m1 = false -> Float.gt0 (feed m1) = true ->
           t = Float.mul (Float.quot d (feed m1)) sixty))
  /\ parse_gcode_for_time_and_tools feed_mode_program
     = inr [record "A" (Float.of_Z 6) (Float.of_Z 10) [tenth] [1000];
            record "B" (Float.of_Z 6000) (Float.of_Z 10) [] []].
Proof.
  split.
  - intros st line m1 g1 tp d Hr Hm Hc.
    destruct (charged_move _ _ _ _ _ _ Hr Hm Hc) as (t & Et & Ep).
    destruct (move_of_line_inv _ _ _ _ _ _ Hm) as (g & _ & Hu & _).
    assert (Hok : machine_ok m1).
    { apply (update_modal_ok _ _ _ _ _ Hu), reachable_machine_ok, Hr. }
    destruct (time_for_move_total m1 d Hok) as (t' & Et' & F95 & F94 & _).
    assert (t' = t) by congruence. subst t'.
    exists t. auto.
  - vm_compute. reflexivity.
Qed.

Lemma cutting_time_formula_witness :
  reachable per_revolution_state
  /\ move_of_line per_revolution_state "G1 X10"
     = inr (Some (with_motion G1 (machine per_revolution_state),
                  record "A" Float.zero Float.zero [tenth] [1000],
                  mkPosition (Float.of_Z 10) Float.zero Float.zero,
                  Float.of_Z 10))
  /\ exists t,
       process_line per_revolution_state "G1 X10"
       = inr (after_move per_revolution_state "G1 X10"
                (with_motion G1 (machine per_revolution_state))
                (charge t (Float.of_Z 10)
                   (record "A" Float.zero Float.zero [tenth] [1000]))
                (mkPosition (Float.of_Z 10) Float.zero Float.zero))
       /\ t = Float.of_Z 6.
Proof.
  assert (Hr : reachable per_revolution_state).
  { exists [GROUP_BEGIN "1" "A"; "G95"; "S1000"; "F0.1"].
    vm_compute. reflexivity. }
  assert (Hm : move_of_line per_revolution_state "G1 X10"
     = inr (Some (with_motion G1 (machine per_revolution_state),
                  record "A" Float.zero Float.zero [tenth] [1000],
                  mkPosition (Float.of_Z 10) Float.zero Float.zero,
                  Float.of_Z 10))).
  { vm_compute. reflexivity. }
  split; [exact Hr |]. split; [exact Hm |].
  destruct (proj1 cutting_time_formula _ _ _ _ _ _ Hr Hm eq_refl)
    as (t & Ep & F95 & _).
  exists t. split; [exact Ep |].
  rewrite (F95 eq_refl eq_refl eq_refl). vm_compute. reflexivity.
Defined.

(** C6.  A move in motion mode G1 over a distance above zero adds its
    distance to the distance of the open group, also when no time can be
    computed, for a feed that is not above zero or, in feed-per-revolution
    mode, a spindle speed that is not above zero; the time charged is then
    zero. *)
Theorem distance_accrues_without_time :
  forall st line m1 g1 target_pos d,
    reachable st ->
    move_of_line st line = inr (Some (m1, g1, target_pos, d)) ->
    is_cutting m1 d = true ->
    exists t g2,
      process_line st line = inr (after_move st line m1 g2 target_pos)
      /\ Distancia_Corte_mm g2 = Float.add (Distancia_Corte_mm g1) d
      /\ Tiempo_Corte_Est_seg g2 = Float.add (Tiempo_Corte_Est_seg g1) t
      /\ (Float.gt0 (feed m1) = false -> t = Float.zero)
      /\ (g95_active m1 = true -> Float.gt0 (rpm m1) = false ->
          t = Float.zero).
Proof.
  intros st line m1 g1 tp d Hr Hm Hc.
  destruct (charged_move _ _ _ _ _ _ Hr Hm Hc) as (t & Et & Ep).
  destruct (move_of_line_inv _ _ _ _ _ _ Hm) as (g & _ & Hu & _).
  assert (Hok : machine_ok m1).
  { apply (update_modal_ok _ _ _ _ _ Hu), reachable_machine_ok, Hr. }
  destruct (time_for_move_total m1 d Hok) as (t' & Et' & _ & _ & Z1 & Z2).
  assert (t' = t) by congruence. subst t'.
  exists t, (charge t d g1). auto.
Qed.

Lemma distance_accrues_without_time_witness :
  reachable fresh_group_state
  /\ move_of_line fresh_group_state "G1 X10"
     = inr (Some (with_motion G1 initial_machine, new_group "A",
                  mkPosition (Float.of_Z 10) Float.zero Float.zero,
                  Float.of_Z 10))
  /\ feed (with_motion G1 initial_machine) = Float.zero
  /\ exists t g2,
       process_line fresh_group_state "G1 X10"
       = inr (after_move fresh_group_state "G1 X10"
                (with_motion G1 initial_machine) g2
                (mkPosition (Float.of_Z 10) Float.zero Float.zero))
       /\ Distancia_Corte_mm g2 = Float.of_Z 10
       /\ Tiempo_Corte_Est_seg g2 = Float.zero
       /\ t = Float.zero.
Proof.
  assert (Hr : reachable fresh_group_state).
  { exists [GROUP_BEGIN "1" "A"]. vm_compute. reflexivity. }
  assert (Hm : move_of_line fresh_group_state "G1 X10"
     = inr (Some (with_motion G1 initial_machine, new_group "A",
                  mkPosition (Float.of_Z 10) Float.zero Float.zero,
                  Float.of_Z 10))).
  { vm_compute. reflexivity. }
  split; [exact Hr |]. split; [exact Hm |]. split; [reflexivity |].
  destruct (distance_accrues_without_time _ _ _ _ _ _ Hr Hm eq_refl)
    as (t & g2 & Ep & Ed & Et & Z1 & _).
  exists t, g2. rewrite Ed, Et, (Z1 eq_refl).
  split; [exact Ep |]. repeat split; vm_compute; reflexivity.
Defined.

(** ** Lines without moves to charge *)

Lemma handle_groups_no_marker (line : string) (st : State) :
  no_marker line = true -> handle_groups line st = st.
Proof.
  unfold no_marker, handle_groups, close_group, open_group.
  destruct (group_begin_re line); [discriminate |].
  destruct (group_end_re line); [discriminate |]. reflexivity.
Qed.

(** A line of a body whose move, if any, is made in motion mode G0 leaves
    the time, the distance and the name of the open group as they are. *)
Lemma rapid_line (st st' : State) (line : string) (g : Group) :
  current_group_info st = Some g ->
  no_marker line = true ->
  coord_re line = [] \/ motion_at st line = G0 ->
  process_line st line = inr st' ->
  results st' = results st
  /\ exists g', current_group_info st' = Some g'
       /\ Grupo g' = Grupo g
       /\ Tiempo_Corte_Est_seg g' = Tiempo_Corte_Est_seg g
       /\ Distancia_Corte_mm g' = Distancia_Corte_mm g.
Proof.
  intros Hg Hn Hrapid. unfold process_line.
  rewrite (handle_groups_no_marker line st Hn), Hg.
  destruct (update_modal line (machine st) g) as [e | [m1 g1]] eqn:Eu;
    [discriminate |].
  destruct (update_modal_frame _ _ _ _ _ Eu) as (_ & Hmm & Ft & Fd & Fn).
  unfold bind at 1. unfold process_motion.
  destruct (coord_re line) as [| c cs] eqn:Ec.
  - intros H; inversion H; subst; clear H. simpl.
    split; [reflexivity |]. exists g1. auto.
  - destruct Hrapid as [Hrapid | Hrapid]; [discriminate |].
    unfold motion_at in Hrapid.
    destruct (target_of (c :: cs) (pos m1)) as [e | tp]; [discriminate |].
    unfold bind at 2.
    destruct (distance_between (pos m1) tp) as [e | d]; [discriminate |].
    unfold bind at 2. unfold is_cutting. rewrite Hmm, Hrapid.
    intros H; inversion H; subst; clear H. simpl.
    split; [reflexivity |]. exists g1. auto.
Qed.

Lemma rapid_body (body : list string) : forall (st st' : State) (g : Group),
  current_group_info st = Some g ->
  rapid_only st body = true ->
  run st body = inr st' ->
  results st' = results st
  /\ exists g', current_group_info st' = Some g'
       /\ Grupo g' = Grupo g
       /\ Tiempo_Corte_Est_seg g' = Tiempo_Corte_Est_seg g
       /\ Distancia_Corte_mm g' = Distancia_Corte_mm g.
Proof.
  induction body as [| line rest IH]; intros st st' g Hg Hro Hrun.
  - inversion Hrun; subst. split; [reflexivity |]. exists g. auto.
  - simpl in Hro, Hrun.
    destruct (process_line st line) as [e | st1] eqn:Ep; [discriminate |].
    apply andb_prop in Hro. destruct Hro as [Hro Hrest].
    apply andb_prop in Hro. destruct Hro as [Hn Hmv].
    assert (Hrapid : coord_re line = [] \/ motion_at st line = G0).
    { apply orb_prop in Hmv. destruct Hmv as [Hmv | Hmv].
      - left. destruct (coord_re line); [reflexivity | discriminate].
      - right. destruct (motion_at st line); [reflexivity | discriminate]. }
    destruct (rapid_line _ _ _ _ Hg Hn Hrapid Ep)
      as (Hrs & g1 & Hg1 & Fn & Ft & Fd).
    destruct (IH st1 st' g1 Hg1 Hrest Hrun)
      as (Hrs' & g' & Hg' & Fn' & Ft' & Fd').
    split; [congruence |]. exists g'. repeat split; congruence.
Qed.

(** C7.  A move made in motion mode G0 adds nothing to the time and the
    distance of the open group and still moves the position to its target;
    a group with zero time and distance whose body has only such moves is
    emitted at its end marker with zero time and zero distance. *)
Theorem rapid_moves_not_charged :
  (forall st line m1 g1 target_pos d g,
     move_of_line st line = inr (Some (m1, g1, target_pos, d)) ->
     motion_mode m1 = G0 ->
     current_group_info (handle_groups line st) = Some g ->
     process_line st line = inr (after_move st line m1 g1 target_pos)
     /\ Tiempo_Corte_Est_seg g1 = Tiempo_Corte_Est_seg g
     /\ Distancia_Corte_mm g1 = Distancia_Corte_mm g
     /\ pos (machine (after_move st line m1 g1 target_pos)) = target_pos)
  /\ (forall body closing st st' g,
        current_group_info st = Some g ->
        Tiempo_Corte_Est_seg g = Float.zero ->
        Distancia_Corte_mm g = Float.zero ->
        rapid_only st body = true ->
        group_begin_re closing = None ->
        group_end_re closing = true ->
        run st (body ++ [closing]) = inr st' ->
        exists g',
          results st' = (results st ++ [g'])%list
          /\ current_group_info st' = None
          /\ Grupo g' = Grupo g
          /\ Tiempo_Corte_Est_seg g' = Float.zero
          /\ Distancia_Corte_mm g' = Float.zero).
Proof.
  split.
  - intros st line m1 g1 tp d g Hm Hmode Hg.
    assert (Hc : is_cutting m1 d = false)
      by (unfold is_cutting; rewrite Hmode; reflexivity).
    destruct (move_of_line_inv _ _ _ _ _ _ Hm) as (g0 & Hg0 & Hu & _).
    assert (g0 = g) by congruence. subst g0.
    destruct (update_modal_frame _ _ _ _ _ Hu) as (_ & _ & Ft & Fd & _).
    split; [exact (uncharged_move _ _ _ _ _ _ Hm Hc) |]. auto.
  - intros body closing st st' g Hg Ht Hd Hro Hb He Hrun.
    rewrite run_app in Hrun.
    destruct (run st body) as [e | st1] eqn:Eb; [discriminate |].
    destruct (rapid_body body st st1 g Hg Hro Eb)
      as (Hrs & g' & Hg' & Fn & Ft & Fd).
    simpl in Hrun.
    assert (Hcl : handle_groups closing st1
                  = {| results := (results st1 ++ [g'])%list;
                       current_group_info := None;
                       machine := machine st1 |}).
    { unfold handle_groups, open_group, close_group.
      rewrite Hb, He, Hg'. reflexivity. }
    rewrite process_line_closed in Hrun by (rewrite Hcl; reflexivity).
    simpl in Hrun. inversion Hrun; subst; clear Hrun.
    rewrite Hcl. simpl. exists g'.
    repeat split; congruence.
Qed.

Lemma rapid_moves_not_charged_witness :
  move_of_line fresh_group_state "G0 X10"
  = inr (Some (initial_machine, new_group "A",
               mkPosition (Float.of_Z 10) Float.zero Float.zero,
               Float.of_Z 10))
  /\ process_line fresh_group_state "G0 X10"
     = inr (after_move fresh_group_state "G0 X10" initial_machine
              (new_group "A")
              (mkPosition (Float.of_Z 10) Float.zero Float.zero))
  /\ rapid_only fresh_group_state ["G0 X10"; "X0 Y5"; "G00 Z-3"] = true
  /\ exists g',
       run fresh_group_state
         (["G0 X10"; "X0 Y5"; "G00 Z-3"] ++ ["GROUP_END"])%list
       = inr {| results := [g'];
                current_group_info := None;
                machine := with_pos
                             (mkPosition Float.zero (Float.of_Z 5)
                                (Float.of_Z (-3)))
                             initial_machine |}
       /\ Tiempo_Corte_Est_seg g' = Float.zero
       /\ Distancia_Corte_mm g' = Float.zero.
Proof.
  assert (Hm : move_of_line fresh_group_state "G0 X10"
     = inr (Some (initial_machine, new_group "A",
                  mkPosition (Float.of_Z 10) Float.zero Float.zero,
                  Float.of_Z 10))).
  { vm_compute. reflexivity. }
  assert (Hro : rapid_only fresh_group_state ["G0 X10"; "X0 Y5"; "G00 Z-3"]
                = true).
  { vm_compute. reflexivity. }
  split; [exact Hm |].
  split.
  { exact (proj1 (proj1 rapid_moves_not_charged _ _ _ _ _ _ (new_group "A")
                    Hm eq_refl eq_refl)). }
  split; [exact Hro |].
  destruct (run fresh_group_state
              (["G0 X10"; "X0 Y5"; "G00 Z-3"] ++ ["GROUP_END"])%list)
    as [e | st'] eqn:Erun; [vm_compute in Erun; discriminate |].
  destruct (proj2 rapid_moves_not_charged
              ["G0 X10"; "X0 Y5"; "G00 Z-3"] "GROUP_END"
              fresh_group_state st' (new_group "A")
              eq_refl eq_refl eq_refl Hro eq_refl eq_refl Erun)
    as (g' & Hrs & Hc & _ & Ht & Hd).
  exists g'. split; [| split; assumption].
  vm_compute in Erun. inversion Erun; subst; clear Erun.
  simpl in Hrs. inversion Hrs; subst. reflexivity.
Defined.

(** ** Group boundaries *)

(** C2.  A begin marker met while a group is open closes and emits the
    open group and begins the new one, without an exception: the line is
    processed as it would be after an explicit close, from the same
    machine state.  So the position persists: with G1 X10 charged to
    group A, a begin marker for group B and G1 X20, group B is charged
    10 mm, the distance from X=10, and not the 20 mm from X=0. *)
Theorem nested_open_closes_first :
  (forall st line name g,
     current_group_info st = Some g ->
     group_begin_re line = Some name ->
     open_group line st
     = {| results := (results st ++ [g])%list;
          current_group_info := Some (new_group name);
          machine := machine st |}
     /\ process_line st line = process_line (closed st) line
     /\ machine (closed st) = machine st)
  /\ parse_gcode_for_time_and_tools boundary_program
     = inr [record "A" Float.zero (Float.of_Z 10) [] [];
            record "B" Float.zero (Float.of_Z 10) [] []]
  /\ Float.eqb (Float.of_Z 10) (Float.of_Z 20) = false.
Proof.
  split; [| split; vm_compute; reflexivity].
  intros st line name g Hg Hb.
  assert (Ho : open_group line st
               = {| results := (results st ++ [g])%list;
                    current_group_info := Some (new_group name);
                    machine := machine st |}).
  { unfold open_group. rewrite Hb, Hg. reflexivity. }
  split; [exact Ho |]. split; [| reflexivity].
  assert (Hoc : open_group line (closed st) = open_group line st).
  { rewrite Ho. unfold open_group, closed. rewrite Hb, Hg. reflexivity. }
  unfold process_line, handle_groups. rewrite Hoc. reflexivity.
Qed.

Lemma nested_open_closes_first_witness :
  open_group (GROUP_BEGIN "2" "B") group_A_state
  = {| results := [record "A" Float.zero (Float.of_Z 10) [] []];
       current_group_info := Some (new_group "B");
       machine := machine group_A_state |}
  /\ process_line group_A_state (GROUP_BEGIN "2" "B")
     = process_line (closed group_A_state) (GROUP_BEGIN "2" "B").
Proof.
  destruct (proj1 nested_open_closes_first group_A_state
              (GROUP_BEGIN "2" "B") "B"
              (record "A" Float.zero (Float.of_Z 10) [] [])
              eq_refl eq_refl) as (Ho & Hp & _).
  split; [exact Ho | exact Hp].
Defined.

(** C4.  With no group open after the markers of a line, the rest of the
    line is not evaluated: the step returns the state left by the markers,
    with the machine state as it was, whatever coordinate, feed, spindle,
    tool, motion or feed-mode tokens the line has; when no group was open
    before the line and the line has no begin marker, the whole state,
    output included, is unchanged. *)
Theorem tokens_ignored_without_group :
  forall st line,
    current_group_info (handle_groups line st) = None ->
    process_line st line = inr (handle_groups line st)
    /\ machine (handle_groups line st) = machine st
    /\ (current_group_info st = None -> group_begin_re line = None ->
        process_line st line = inr st).
Proof.
  intros st line Hc. split; [exact (process_line_closed st line Hc) |].
  split; [apply handle_groups_machine |].
  intros Hn Hb. exact (process_line_idle st line Hn Hb).
Qed.

Lemma tokens_ignored_without_group_witness :
  current_group_info (handle_groups "G1 G95 F- X. S1200 T=1" initial_state)
  = None
  /\ process_line initial_state "G1 G95 F- X. S1200 T=1" = inr initial_state.
Proof.
  split; [reflexivity |].
  exact (proj2 (proj2 (tokens_ignored_without_group initial_state
                         "G1 G95 F- X. S1200 T=1" eq_refl))
           eq_refl eq_refl).
Defined.

(** C10.  A line with an end marker met while no group is open, and
    opening none, changes nothing: no record is emitted, and the run is
    the one of the text without that line. *)
Theorem unmatched_group_end_ignored :
  forall st line,
    current_group_info st = None ->
    group_begin_re line = None ->
    group_end_re line = true ->
    process_line st line = inr st
    /\ forall st0 pre post,
         run st0 pre = inr st ->
         run st0 (pre ++ line :: post) = run st0 (pre ++ post).
Proof.
  intros st line Hn Hb He.
  pose proof (process_line_idle st line Hn Hb) as Hp.
  split; [exact Hp |].
  intros st0 pre post Hpre.
  rewrite !run_app, Hpre. simpl. rewrite Hp. reflexivity.
Qed.

Lemma unmatched_group_end_ignored_witness :
  process_line initial_state "GROUP_END" = inr initial_state
  /\ run initial_state
       ([] ++ "GROUP_END" :: [GROUP_BEGIN "1" "A"; "G1 F100 X10"])
     = run initial_state ([] ++ [GROUP_BEGIN "1" "A"; "G1 F100 X10"]).
Proof.
  destruct (unmatched_group_end_ignored initial_state "GROUP_END"
              eq_refl eq_refl eq_refl) as [Hp Hrun].
  split; [exact Hp |].
  exact (Hrun initial_state [] [GROUP_BEGIN "1" "A"; "G1 F100 X10"] eq_refl).
Defined.

(** C5, as the code has it.  The machine state does not evolve between
    groups: lines processed while no group is open, whatever tokens they
    carry, leave the whole state as it was when the last group closed, and
    the next group starts from that state. *)
Theorem state_frozen_between_groups :
  forall lines st,
    current_group_info st = None ->
    no_begin lines = true ->
    run st lines = inr st.
Proof.
  induction lines as [| line rest IH]; intros st Hn Hb; [reflexivity |].
  simpl in Hb. apply andb_prop in Hb. destruct Hb as [Hb Hrest].
  simpl. rewrite (process_line_idle st line Hn); [exact (IH st Hn Hrest) |].
  destruct (group_begin_re line); [discriminate | reflexivity].
Qed.

Lemma state_frozen_between_groups_witness :
  current_group_info (closed group_A_state) = None
  /\ run (closed group_A_state)
       ["G0 F100 X50"; "S500 G95"; "GROUP_END"; "Z-5"]
     = inr (closed group_A_state).
Proof.
  split; [reflexivity |].
  exact (state_frozen_between_groups
           ["G0 F100 X50"; "S500 G95"; "GROUP_END"; "Z-5"]
           (closed group_A_state) eq_refl eq_refl).
Defined.

(** C5, as the claim has it, fails.  After group A is closed the line
    [G1 F100 X10] has a motion code, a feed and a coordinate, and leaves
    the motion mode at G0, the feed at 0 and X at 0; group B, opened next,
    is charged nothing for its move to X20, which the claim would charge
    10 mm at feed 100. *)
Lemma between_groups_tokens_dropped :
  exists st,
    run initial_state [GROUP_BEGIN "1" "A"; "GROUP_END"] = inr st
    /\ current_group_info st = None
    /\ g_code_re "G1 F100 X10" = Some "1"%char
    /\ feed_re "G1 F100 X10" = Some "100"
    /\ coord_re "G1 F100 X10" = [("X"%char, "10")]
    /\ process_line st "G1 F100 X10" = inr st
    /\ motion_mode (machine st) = G0
    /\ feed (machine st) = Float.zero
    /\ Float.of_string "100" = inr (Float.of_Z 100)
    /\ Float.eqb (feed (machine st)) (Float.of_Z 100) = false
    /\ pos_X (pos (machine st)) = Float.zero
    /\ Float.of_string "10" = inr (Float.of_Z 10)
    /\ Float.eqb (pos_X (pos (machine st))) (Float.of_Z 10) = false
    /\ parse_gcode_for_time_and_tools between_groups_program
       = inr [record "A" Float.zero Float.zero [] [];
              record "B" Float.zero Float.zero [] []].
Proof.
  eexists. split; [vm_compute; reflexivity |].
  repeat split; vm_compute; reflexivity.
Qed.

(** C9.  The roughing scenario: one record, named Roughing, with the
    default tool, 100 mm, 12 seconds, the feed 500 and no spindle speed;
    the time is (100 / 500) * 60, and the text without the G0 return move
    gives the same record. *)
Theorem roughing_scenario :
  parse_gcode_for_time_and_tools roughing_program
  = inr [{| Herramienta := "N/A";
            Grupo := "Roughing";
            Tiempo_Corte_Est_seg := Float.of_Z 12;
            Distancia_Corte_mm := Float.of_Z 100;
            Avances := [Float.of_Z 500];
            RPMs := [] |}]
  /\ Float.mul (Float.quot (Float.of_Z 100) (Float.of_Z 500)) sixty
     = Float.of_Z 12
  /\ parse_gcode_for_time_and_tools
       (unlines [GROUP_BEGIN "x" "Roughing"; "G1 F500 X100"; "GROUP_END"])
     = parse_gcode_for_time_and_tools roughing_program.
Proof. repeat split; vm_compute; reflexivity. Qed.

(** C8, as the code has it.  In every record returned the distance is at
    least zero, and the time is at least zero or is a NaN: neither is ever
    negative, whatever the sign of the feed.  On a text with moderate
    numbers, where the feed and coordinate texts are float literals of at
    most 100 characters and the spindle speeds have at most 100 digits,
    [parse] returns and both the time and the distance of every record
    are at least zero. *)
Theorem accumulators_never_negative :
  (forall text rs,
     parse_gcode_for_time_and_tools text = inr rs ->
     Forall (fun g =>
               Float.ge0 (Distancia_Corte_mm g) = true
               /\ (Float.ge0 (Tiempo_Corte_Est_seg g) = true
                   \/ Tiempo_Corte_Est_seg g = Float.nan)) rs)
  /\ (forall text,
        moderate_numbers text = true ->
        exists rs,
          parse_gcode_for_time_and_tools text = inr rs
          /\ Forall (fun g =>
                       Float.ge0 (Distancia_Corte_mm g) = true
                       /\ Float.ge0 (Tiempo_Corte_Est_seg g) = true) rs).
Proof.
  split.
  - intros text rs. unfold parse_gcode_for_time_and_tools.
    destruct (run initial_state (splitlines text)) as [e | st] eqn:Erun;
      [discriminate |].
    intros H; inversion H; subst; clear H.
    assert (Hok : state_signs_ok st).
    { apply (run_signs _ _ _ Erun). constructor. }
    unfold state_signs_ok in Hok.
    eapply Forall_impl; [| exact Hok].
    intros g [Hd Ht]. split; [apply Signs.plus_ge0; assumption |].
    destruct (Signs.plus_or_nan_cases _ Ht) as [E | P];
      [right; exact E | left; apply Signs.plus_ge0; exact P].
  - intros text Hmod.
    destruct (parse_moderate text Hmod) as (rs & Hp & Hg).
    exists rs. split; [exact Hp |].
    eapply Forall_impl; [| exact Hg].
    intros g [Hd Ht]. split; auto with signs.
Qed.

Lemma accumulators_never_negative_witness :
  parse_gcode_for_time_and_tools negative_feed_program
  = inr [record "A" Float.zero (Float.of_Z 10) [Float.of_Z (-100)] []]
  /\ Forall (fun g =>
               Float.ge0 (Distancia_Corte_mm g) = true
               /\ (Float.ge0 (Tiempo_Corte_Est_seg g) = true
                   \/ Tiempo_Corte_Est_seg g = Float.nan))
       [record "A" Float.zero (Float.of_Z 10) [Float.of_Z (-100)] []]
  /\ moderate_numbers negative_feed_program = true
  /\ exists rs,
       parse_gcode_for_time_and_tools negative_feed_program = inr rs
       /\ Forall (fun g =>
                    Float.ge0 (Distancia_Corte_mm g) = true
                    /\ Float.ge0 (Tiempo_Corte_Est_seg g) = true) rs.
Proof.
  assert (H : parse_gcode_for_time_and_tools negative_feed_program
    = inr [record "A" Float.zero (Float.of_Z 10) [Float.of_Z (-100)] []]).
  { vm_compute. reflexivity. }
  assert (Hmod : moderate_numbers negative_feed_program = true).
  { vm_compute. reflexivity. }
  split; [exact H |].
  split; [exact (proj1 accumulators_never_negative _ _ H) |].
  split; [exact Hmod |].
  exact (proj2 accumulators_never_negative _ Hmod).
Defined.

(** C8, as the claim has it, fails.  With a feed and a coordinate beyond
    the largest float the move has an infinite distance and an infinite
    feed; their quotient is a NaN, and so is the time of the record, for
    which [>= 0] is false. *)
Lemma overflow_time_is_nan :
  parse_gcode_for_time_and_tools overflow_program
  = inr [record "A" Float.nan Float.infinity [Float.infinity] []]
  /\ Float.ge0 Float.nan = false.
Proof. split; vm_compute; reflexivity. Qed.

(** ** Malformed numbers *)

Lemma to_int_error (x : float) (e : PyError) :
  Float.to_int x = inl e -> x <> S754_nan -> e = OverflowError.
Proof.
  destruct x; simpl; intros H Hn; inversion H; congruence.
Qed.

Lemma target_of_malformed (cs : list (ascii * string)) :
  existsb (fun c => negb (is_float_literal (snd c))) cs = true ->
  forall p, target_of cs p = inl ValueError.
Proof.
  induction cs as [| [axis value] rest IH]; simpl; [discriminate |].
  intros H p. unfold is_float_literal in H at 1. simpl in H.
  destruct (Float.of_string value) as [e | v] eqn:Ev; simpl.
  - rewrite (FloatFacts.of_string_error _ _ Ev). reflexivity.
  - simpl in H. apply IH. exact H.
Qed.

(** The modal words of a line raise a [ValueError] for a feed text that
    is no float literal, unless the spindle speed has raised before. *)
Lemma update_modal_errors (line : string) (m : Machine) (g : Group)
  (e : PyError) :
  update_modal line m g = inl e ->
  (e = ValueError \/ e = OverflowError)
  /\ (rpm_re line = None -> e = ValueError).
Proof.
  unfold update_modal, update_rpm, update_feed.
  set (m0 := update_feed_mode line (update_motion_mode line m)).
  clearbody m0.
  assert (Hfeed : forall mg,
            (mg2 <- match feed_re line with
                    | Some txt =>
                        f <- Float.of_string txt ;;
                        ret (with_feed f (fst mg), record_feed f (snd mg))
                    | None => ret mg
                    end ;;
             ret (fst mg2, update_tool line (snd mg2))) = inl e ->
            e = ValueError).
  { intros mg. destruct (feed_re line) as [ft |]; simpl.
    - destruct (Float.of_string ft) as [e' | f] eqn:Ef; simpl.
      + intros H; inversion H; subst.
        exact (FloatFacts.of_string_error _ _ Ef).
      + discriminate.
    - discriminate. }
  destruct (rpm_re line) as [rt |] eqn:Ert.
  - destruct (rpm_re_digits _ _ Ert) as [Hd Hne].
    rewrite (FloatFacts.of_string_digits rt Hd Hne). simpl.
    destruct (Float.to_int _) as [e' | n] eqn:Ei; simpl.
    + intros H; inversion H; subst. split; [| discriminate].
      right. apply (to_int_error _ _ Ei).
      apply FloatFacts.of_decimal_not_nan.
    + intros H. split; [left | discriminate]. exact (Hfeed _ H).
  - simpl. intros H. pose proof (Hfeed _ H). auto.
Qed.

Lemma update_modal_feed_literal (line : string) (m m1 : Machine)
  (g g1 : Group) (txt : string) :
  update_modal line m g = inr (m1, g1) ->
  feed_re line = Some txt -> is_float_literal txt = true.
Proof.
  unfold update_modal, update_feed, is_float_literal. intros H Hf.
  destruct (update_rpm line _) as [e | mg1]; [discriminate |].
  unfold bind in H at 1. rewrite Hf in H.
  destruct (Float.of_string txt); [discriminate | reflexivity].
Qed.

(** A line with a malformed number, processed with a group open, raises. *)
Lemma process_line_malformed (st : State) (line : string) (g : Group) :
  current_group_info (handle_groups line st) = Some g ->
  malformed_number line = true ->
  exists e,
    process_line st line = inl e
    /\ (e = ValueError \/ e = OverflowError)
    /\ (rpm_re line = None -> e = ValueError).
Proof.
  intros Hg Hbad. unfold process_line. rewrite Hg.
  destruct (update_modal line _ g) as [e | [m1 g1]] eqn:Eu.
  - exists e. split; [reflexivity |].
    exact (update_modal_errors _ _ _ _ Eu).
  - unfold malformed_number in Hbad.
    assert (Hcs : existsb (fun c => negb (is_float_literal (snd c)))
                    (coord_re line) = true).
    { destruct (feed_re line) as [ft |] eqn:Ef; [| exact Hbad].
      rewrite (update_modal_feed_literal _ _ _ _ _ _ Eu Ef) in Hbad.
      exact Hbad. }
    exists ValueError. split; [| auto].
    unfold bind at 1. unfold process_motion.
    destruct (coord_re line) as [| c cs]; [discriminate |].
    rewrite (target_of_malformed _ Hcs). reflexivity.
Qed.

(** C3, as the code has it.  A feed or coordinate token whose number text
    is no float literal, such as a lone minus sign or a lone point, is
    not skipped when its line is processed with a group open: [parse]
    then raises and returns no output.  The exception is a [ValueError],
    or the [OverflowError] of a spindle speed beyond the largest float on
    the same line.  With no group open the line is skipped without an
    exception.  [parse] returns an output sequence for every text with
    moderate numbers, where the feed and coordinate texts are float
    literals of at most 100 characters and the spindle speeds have at
    most 100 digits. *)
Theorem malformed_number_raises :
  (forall text pre line post st,
     splitlines text = (pre ++ line :: post)%list ->
     run initial_state pre = inr st ->
     malformed_number line = true ->
     (forall g,
        current_group_info (handle_groups line st) = Some g ->
        exists e,
          parse_gcode_for_time_and_tools text = inl e
          /\ (e = ValueError \/ e = OverflowError)
          /\ (rpm_re line = None -> e = ValueError))
     /\ (current_group_info (handle_groups line st) = None ->
         process_line st line = inr (handle_groups line st)))
  /\ (forall text,
        moderate_numbers text = true ->
        exists rs, parse_gcode_for_time_and_tools text = inr rs).
Proof.
  split.
  - intros text pre line post st Hsplit Hpre Hbad. split.
    + intros g Hg.
      destruct (process_line_malformed st line g Hg Hbad) as (e & Ep & He).
      exists e. split; [| exact He].
      unfold parse_gcode_for_time_and_tools.
      rewrite Hsplit, run_app, Hpre. simpl. rewrite Ep. reflexivity.
    + apply process_line_closed.
  - intros text Hmod.
    destruct (parse_moderate text Hmod) as (rs & Hp & _).
    exists rs. exact Hp.
Qed.

Lemma malformed_number_raises_witness :
  splitlines lone_minus_program
  = ([GROUP_BEGIN "1" "A"] ++ "G1 F- X10" :: ["GROUP_END"])%list
  /\ malformed_number "G1 F- X10" = true
  /\ (exists e,
        parse_gcode_for_time_and_tools lone_minus_program = inl e
        /\ e = ValueError)
  /\ moderate_numbers feed_mode_program = true
  /\ exists rs, parse_gcode_for_time_and_tools feed_mode_program = inr rs.
Proof.
  split; [vm_compute; reflexivity |]. split; [vm_compute; reflexivity |].
  split.
  - destruct (proj1 (proj1 malformed_number_raises lone_minus_program
                       [GROUP_BEGIN "1" "A"] "G1 F- X10" ["GROUP_END"]
                       fresh_group_state eq_refl eq_refl eq_refl)
                (new_group "A") eq_refl) as (e & Hp & _ & Hv).
    exists e. split; [exact Hp | exact (Hv eq_refl)].
  - assert (Hmod : moderate_numbers feed_mode_program = true)
      by (vm_compute; reflexivity).
    split; [exact Hmod |].
    exact (proj2 malformed_number_raises feed_mode_program Hmod).
Defined.

(** C3, as the claim has it, fails.  Inside a group a feed token whose
    number text is a lone minus sign, and a coordinate token whose number
    text is a lone point, make [parse] raise a [ValueError]. *)
Lemma lone_sign_raises :
  feed_re "G1 F- X10" = Some "-"
  /\ parse_gcode_for_time_and_tools lone_minus_program = inl ValueError
  /\ coord_re "G1 X." = [("X"%char, ".")]
  /\ parse_gcode_for_time_and_tools lone_point_program = inl ValueError.
Proof. repeat split; vm_compute; reflexivity. Qed.

(** ** What the result holds

    Properties of the sequence of records as a whole. *)

Lemma run_idle (lines : list string) : forall st : State,
  current_group_info st = None -> no_begin lines = true ->
  run st lines = inr st.
Proof.
  induction lines as [| line rest IH]; intros st Hn Hb; [reflexivity |].
  simpl in Hb. apply andb_prop in Hb. destruct Hb as [Hb Hrest].
  simpl. rewrite (process_line_idle st line Hn); [exact (IH st Hn Hrest) |].
  destruct (group_begin_re line); [discriminate | reflexivity].
Qed.

(** X1.  The lines before the first begin marker do not count: a text
    gives what it gives without them, an exception included, whatever
    words they hold; and a text with no begin marker at all gives the
    empty sequence. *)
Theorem lines_before_first_group_ignored :
  (forall text text' header,
     splitlines text = (header ++ splitlines text')%list ->
     no_begin header = true ->
     parse_gcode_for_time_and_tools text
     = parse_gcode_for_time_and_tools text')
  /\ (forall text,
        no_begin (splitlines text) = true ->
        parse_gcode_for_time_and_tools text = inr []).
Proof.
  split.
  - intros text text' header Hs Hb. unfold parse_gcode_for_time_and_tools.
    rewrite Hs, run_app, (run_idle _ initial_state eq_refl Hb). reflexivity.
  - intros text Hb. unfold parse_gcode_for_time_and_tools.
    rewrite (run_idle _ initial_state eq_refl Hb). reflexivity.
Qed.

Lemma lines_before_first_group_ignored_witness :
  parse_gcode_for_time_and_tools header_program
  = parse_gcode_for_time_and_tools headless_program
  /\ parse_gcode_for_time_and_tools
       (unlines ["G1 F- X."; "GROUP_END"; "S12 T=5"]) = inr [].
Proof.
  split.
  - apply (proj1 lines_before_first_group_ignored header_program
             headless_program ["G1 F- X."; "GROUP_END"; "S12 T=5"]);
      vm_compute; reflexivity.
  - apply (proj2 lines_before_first_group_ignored). vm_compute. reflexivity.
Defined.

Lemma process_motion_name (line : string) (m m2 : Machine) (g g2 : Group) :
  process_motion line m g = inr (m2, g2) ->
  Grupo g2 = Grupo g /\ Herramienta g2 = Herramienta g
  /\ Avances g2 = Avances g /\ RPMs g2 = RPMs g.
Proof.
  unfold process_motion.
  destruct (coord_re line) as [| c cs]; [intros H; inv H; auto |].
  destruct (target_of (c :: cs) (pos m)) as [e | tp]; [discriminate |].
  unfold bind at 1.
  destruct (distance_between (pos m) tp) as [e | d]; [discriminate |].
  unfold bind at 1.
  destruct (is_cutting m d).
  - destruct (time_for_move m d) as [e | t]; [discriminate |].
    simpl. intros H; inv H. simpl. auto.
  - simpl. intros H; inv H. auto.
Qed.

(** What the markers of a line do to the sequence of all groups, emitted
    and open: they append the group they begin. *)
Lemma handle_groups_emit (line : string) (st : State) :
  emit (results (handle_groups line st))
    (current_group_info (handle_groups line st))
  = (emit (results st) (current_group_info st)
     ++ match group_begin_re line with
        | Some name => [new_group name]
        | None => []
        end)%list.
Proof.
  unfold handle_groups, close_group, open_group.
  destruct (group_begin_re line) as [name |];
    destruct (group_end_re line); simpl;
    destruct (current_group_info st) eqn:E; simpl;
    rewrite ?E; simpl; rewrite ?app_nil_r; reflexivity.
Qed.

Lemma process_line_names (st st' : State) (line : string) :
  process_line st line = inr st' ->
  map Grupo (emit (results st') (current_group_info st'))
  = (map Grupo (emit (results st) (current_group_info st))
     ++ begin_names [line])%list.
Proof.
  unfold process_line. intros H.
  pose proof (handle_groups_emit line st) as He.
  assert (Hn : begin_names [line]
               = map Grupo match group_begin_re line with
                           | Some name => [new_group name]
                           | None => []
                           end).
  { unfold begin_names. simpl. destruct (group_begin_re line); reflexivity. }
  rewrite Hn, <- map_app, <- He. clear He Hn.
  destruct (current_group_info (handle_groups line st)) as [g |] eqn:Ec.
  - destruct (update_modal line _ g) as [e | [m1 g1]] eqn:E1; simpl in H;
      [discriminate |].
    destruct (process_motion line m1 g1) as [e | [m2 g2]] eqn:E2; simpl in H;
      [discriminate |].
    inv H. simpl.
    destruct (update_modal_frame _ _ _ _ _ E1) as (_ & _ & _ & _ & N1).
    destruct (process_motion_name _ _ _ _ _ E2) as (N2 & _).
    rewrite !map_app. simpl. congruence.
  - inv H. rewrite Ec. reflexivity.
Qed.

Lemma begin_names_app (l1 l2 : list string) :
  begin_names (l1 ++ l2) = (begin_names l1 ++ begin_names l2)%list.
Proof. unfold begin_names. apply flat_map_app. Qed.

Lemma run_names (lines : list string) : forall st st' : State,
  run st lines = inr st' ->
  map Grupo (emit (results st') (current_group_info st'))
  = (map Grupo (emit (results st) (current_group_info st))
     ++ begin_names lines)%list.
Proof.
  induction lines as [| line rest IH]; intros st st' H; simpl in H.
  - inv H. rewrite app_nil_r. reflexivity.
  - destruct (process_line st line) as [e | st1] eqn:E; [discriminate |].
    simpl in H. rewrite (IH _ _ H), (process_line_names _ _ _ E).
    rewrite <- app_assoc. f_equal.
    change (line :: rest) with ([line] ++ rest)%list.
    symmetry. apply begin_names_app.
Qed.

(** X2.  The records returned are the groups begun, one for each line
    with a begin marker and in the order of these lines: their names are
    the names the markers capture.  A group is returned whether or not an
    end marker closes it, and an end marker alone returns none. *)
Theorem records_follow_begin_markers :
  forall text rs,
    parse_gcode_for_time_and_tools text = inr rs ->
    map Grupo rs = begin_names (splitlines text)
    /\ List.length rs = List.length (begin_names (splitlines text)).
Proof.
  intros text rs. unfold parse_gcode_for_time_and_tools.
  destruct (run initial_state (splitlines text)) as [e | st] eqn:Erun;
    [discriminate |].
  intros H; inv H.
  pose proof (run_names _ _ _ Erun) as Hn. simpl in Hn.
  split; [exact Hn |]. rewrite <- Hn. symmetry. apply List.length_map.
Qed.

Lemma records_follow_begin_markers_witness :
  parse_gcode_for_time_and_tools feed_mode_program
  = inr [record "A" (Float.of_Z 6) (Float.of_Z 10) [tenth] [1000];
         record "B" (Float.of_Z 6000) (Float.of_Z 10) [] []]
  /\ begin_names (splitlines feed_mode_program) = ["A"; "B"]
  /\ map Grupo
       [record "A" (Float.of_Z 6) (Float.of_Z 10) [tenth] [1000];
        record "B" (Float.of_Z 6000) (Float.of_Z 10) [] []]
     = begin_names (splitlines feed_mode_program).
Proof.
  assert (H : parse_gcode_for_time_and_tools feed_mode_program
    = inr [record "A" (Float.of_Z 6) (Float.of_Z 10) [tenth] [1000];
           record "B" (Float.of_Z 6000) (Float.of_Z 10) [] []])
    by (vm_compute; reflexivity).
  split; [exact H |]. split; [vm_compute; reflexivity |].
  exact (proj1 (records_follow_begin_markers _ _ H)).
Defined.

(** The records emitted are not touched again: the sequence only grows
    at its end. *)
Lemma handle_groups_results (line : string) (st : State) :
  exists more,
    results (handle_groups line st) = (results st ++ more)%list.
Proof.
  unfold handle_groups, close_group, open_group.
  destruct (group_begin_re line) as [name |];
    destruct (group_end_re line); simpl;
    destruct (current_group_info st) as [g |] eqn:E; simpl; rewrite ?E;
    simpl; eauto using app_nil_r, app_assoc.
  all: try (exists []; rewrite app_nil_r; reflexivity).
  all: try (eexists; rewrite <- app_assoc; reflexivity).
  all: try (eexists; reflexivity).
Qed.

Lemma process_line_results (st st' : State) (line : string) :
  process_line st line = inr st' ->
  exists more, results st' = (results st ++ more)%list.
Proof.
  unfold process_line. intros H.
  destruct (current_group_info (handle_groups line st)) as [g |].
  - destruct (update_modal line _ g) as [e | [m1 g1]]; simpl in H;
      [discriminate |].
    destruct (process_motion line m1 g1) as [e | [m2 g2]]; simpl in H;
      [discriminate |].
    inv H. simpl. apply handle_groups_results.
  - inv H. apply handle_groups_results.
Qed.

Lemma run_results (lines : list string) : forall st st' : State,
  run st lines = inr st' ->
  exists more, results st' = (results st ++ more)%list.
Proof.
  induction lines as [| line rest IH]; intros st st' H; simpl in H.
  - inv H. exists []. rewrite app_nil_r. reflexivity.
  - destruct (process_line st line) as [e | st1] eqn:E; [discriminate |].
    simpl in H.
    destruct (process_line_results _ _ _ E) as (more1 & E1).
    destruct (IH _ _ H) as (more2 & E2).
    exists (more1 ++ more2)%list. rewrite E2, E1, app_assoc. reflexivity.
Qed.

(** X3.  A record once emitted is final: the records emitted after the
    first lines of a text are, unchanged and in the same order, the first
    records of the result, whatever the later lines hold. *)
Theorem emitted_records_are_final :
  forall text pre post st rs,
    splitlines text = (pre ++ post)%list ->
    run initial_state pre = inr st ->
    parse_gcode_for_time_and_tools text = inr rs ->
    exists more, rs = (results st ++ more)%list.
Proof.
  intros text pre post st rs Hs Hpre.
  unfold parse_gcode_for_time_and_tools. rewrite Hs, run_app, Hpre. simpl.
  destruct (run st post) as [e | st'] eqn:Erun; [discriminate |].
  simpl. intros H; inv H.
  destruct (run_results _ _ _ Erun) as (more & Em). rewrite Em.
  destruct (current_group_info st') as [g |]; simpl.
  - exists (more ++ [g])%list. rewrite app_assoc. reflexivity.
  - exists more. reflexivity.
Qed.

Lemma emitted_records_are_final_witness :
  exists more,
    [record "A" (Float.of_Z 6) (Float.of_Z 10) [tenth] [1000];
     record "B" (Float.of_Z 6000) (Float.of_Z 10) [] []]
    = ([record "A" (Float.of_Z 6) (Float.of_Z 10) [tenth] [1000]]
       ++ more)%list.
Proof.
  apply (emitted_records_are_final feed_mode_program
           [GROUP_BEGIN "1" "A"; "G95"; "S1000"; "F0.1"; "G1 X10";
            GROUP_BEGIN "2" "B"]
           ["G94"; "G1 X20"]
           {| results :=
                [record "A" (Float.of_Z 6) (Float.of_Z 10) [tenth] [1000]];
              current_group_info := Some (new_group "B");
              machine :=
                {| pos := mkPosition (Float.of_Z 10) Float.zero Float.zero;
                   rpm := Float.of_Z 1000;
                   feed := tenth;
                   g95_active := true;
                   motion_mode := G1 |} |});
    vm_compute; reflexivity.
Defined.

(** ** The exceptions of the function *)

Lemma plus_or_nan_not_negative (x : float) :
  plus_or_nan x = true -> Float.ltb x Float.zero = false.
Proof.
  destruct x as [[] | [] | | [] m e]; try discriminate; reflexivity.
Qed.

(** A square overflows or has no minus sign. *)
Lemma pow2_cases (x : float) :
  Float.pow2 x = inl OverflowError
  \/ exists r, Float.pow2 x = inr r /\ plus_or_nan r = true.
Proof.
  destruct x as [s | s | | s m e]; simpl;
    try (right; eexists; split; reflexivity).
  unfold Float.mul, SFmul. simpl xorb.
  destruct (FloatFacts.binary_round_aux_cases false
              (Zpos m * Zpos m) (e + e) loc_Exact ltac:(lia))
    as [E | [E | (m' & e' & E & _)]];
    change (Zpos (m * m)) with (Zpos m * Zpos m);
    rewrite E.
  - right. eexists. split; reflexivity.
  - left. reflexivity.
  - right. eexists. split; reflexivity.
Qed.

(** The distance raises for a square that overflows only: the root is
    taken of a sum that has no minus sign. *)
Lemma distance_between_error (p tp : Position) (e : PyError) :
  distance_between p tp = inl e -> e = OverflowError.
Proof.
  unfold distance_between.
  destruct (pow2_cases (Float.sub (pos_X tp) (pos_X p)))
    as [E | (dx & E & Px)]; rewrite E; simpl; [intros H; inv H; reflexivity |].
  destruct (pow2_cases (Float.sub (pos_Y tp) (pos_Y p)))
    as [E' | (dy & E' & Py)]; rewrite E'; simpl;
    [intros H; inv H; reflexivity |].
  destruct (pow2_cases (Float.sub (pos_Z tp) (pos_Z p)))
    as [E'' | (dz & E'' & Pz)]; rewrite E''; simpl;
    [intros H; inv H; reflexivity |].
  unfold Float.sqrt.
  rewrite plus_or_nan_not_negative; [discriminate |].
  auto with signs.
Qed.

Lemma target_of_error (cs : list (ascii * string)) :
  forall (p : Position) (e : PyError),
    target_of cs p = inl e ->
    e = ValueError
    /\ existsb (fun c => negb (is_float_literal (snd c))) cs = true.
Proof.
  induction cs as [| [axis value] rest IH]; simpl; intros p e H;
    [discriminate |].
  unfold is_float_literal at 1. simpl.
  destruct (Float.of_string value) as [e' | v] eqn:Ev; simpl in *.
  - inv H. split; [exact (FloatFacts.of_string_error _ _ Ev) | reflexivity].
  - exact (IH _ _ H).
Qed.

(** The modal words of a line raise a [ValueError] for a feed text only. *)
Lemma update_modal_value_error (line : string) (m : Machine) (g : Group) :
  update_modal line m g = inl ValueError ->
  exists txt, feed_re line = Some txt /\ is_float_literal txt = false.
Proof.
  unfold update_modal, update_rpm, update_feed.
  set (m0 := update_feed_mode line (update_motion_mode line m)).
  clearbody m0.
  assert (Hfeed : forall mg,
            (mg2 <- match feed_re line with
                    | Some txt =>
                        f <- Float.of_string txt ;;
                        ret (with_feed f (fst mg), record_feed f (snd mg))
                    | None => ret mg
                    end ;;
             ret (fst mg2, update_tool line (snd mg2))) = inl ValueError ->
            exists txt,
              feed_re line = Some txt /\ is_float_literal txt = false).
  { intros mg. destruct (feed_re line) as [ft |]; simpl; [| discriminate].
    destruct (Float.of_string ft) as [e' | f] eqn:Ef; simpl; [| discriminate].
    intros _. exists ft. unfold is_float_literal. rewrite Ef. auto. }
  destruct (rpm_re line) as [rt |] eqn:Ert.
  - destruct (rpm_re_digits _ _ Ert) as [Hd Hne].
    rewrite (FloatFacts.of_string_digits rt Hd Hne). simpl.
    destruct (Float.to_int _) as [e' | n] eqn:Ei; simpl.
    + intros H; inv H.
      pose proof (to_int_error _ _ Ei
                    (FloatFacts.of_decimal_not_nan _ _ _)).
      discriminate.
    + intros H. exact (Hfeed _ H).
  - simpl. intros H. exact (Hfeed _ H).
Qed.

(** A line raises for a malformed number or for an overflow. *)
Lemma process_line_error (st : State) (line : string) (e : PyError) :
  machine_ok (machine st) ->
  process_line st line = inl e ->
  (e = ValueError /\ malformed_number line = true
   /\ current_group_info (handle_groups line st) <> None)
  \/ e = OverflowError.
Proof.
  intros Hok. unfold process_line.
  destruct (current_group_info (handle_groups line st)) as [g |] eqn:Ec;
    [| discriminate].
  rewrite handle_groups_machine.
  destruct (update_modal line (machine st) g) as [e1 | [m1 g1]] eqn:Eu.
  - simpl. intros H; inv H.
    destruct (update_modal_errors _ _ _ _ Eu) as [[-> | ->] _]; [| auto].
    left. split; [reflexivity |]. split; [| discriminate].
    destruct (update_modal_value_error _ _ _ Eu) as (txt & Ef & El).
    unfold malformed_number. rewrite Ef, El. reflexivity.
  - unfold bind at 1. unfold process_motion.
    pose proof (update_modal_ok _ _ _ _ _ Eu Hok) as Hok1.
    destruct (coord_re line) as [| c cs] eqn:Eco; [discriminate |].
    destruct (target_of (c :: cs) (pos m1)) as [e1 | tp] eqn:Et.
    + simpl. intros H; inv H.
      destruct (target_of_error _ _ _ Et) as [-> Hbad].
      left. split; [reflexivity |]. split; [| discriminate].
      unfold malformed_number. rewrite Eco, Hbad. apply orb_true_r.
    + unfold bind at 2.
      destruct (distance_between (pos m1) tp) as [e1 | d] eqn:Ed.
      * simpl. intros H; inv H. right.
        exact (distance_between_error _ _ _ Ed).
      * unfold bind at 2.
        destruct (time_for_move_total m1 d Hok1) as (t & Etm & _).
        rewrite Etm. destruct (is_cutting m1 d); discriminate.
Qed.

Lemma run_error (lines : list string) : forall (st : State) (e : PyError),
  run st lines = inl e ->
  exists pre line post st1,
    lines = (pre ++ line :: post)%list
    /\ run st pre = inr st1
    /\ process_line st1 line = inl e.
Proof.
  induction lines as [| line rest IH]; intros st e H; simpl in H;
    [discriminate |].
  destruct (process_line st line) as [e1 | st1] eqn:Ep; simpl in H.
  - inv H. exists [], line, rest, st. auto.
  - destruct (IH _ _ H) as (pre & l & post & st2 & -> & Hpre & Hl).
    exists (line :: pre), l, post, st2. simpl. rewrite Ep. auto.
Qed.

(** X4.  The function never raises a [ZeroDivisionError]: the feed times
    the spindle speed it divides by is never zero.  It raises a
    [ValueError] only at a line, processed with a group open, that has a
    feed or coordinate token whose number text is no float literal; any
    other exception is an [OverflowError]. *)
Theorem exceptions_of_parse :
  forall text e,
    parse_gcode_for_time_and_tools text = inl e ->
    (e = ValueError
     /\ exists pre line post st,
          splitlines text = (pre ++ line :: post)%list
          /\ run initial_state pre = inr st
          /\ current_group_info (handle_groups line st) <> None
          /\ malformed_number line = true)
    \/ e = OverflowError.
Proof.
  intros text e. unfold parse_gcode_for_time_and_tools.
  destruct (run initial_state (splitlines text)) as [e1 | st] eqn:Erun;
    [| discriminate].
  simpl. intros H; inv H.
  destruct (run_error _ _ _ Erun) as (pre & line & post & st1 & Hs & Hpre & Hl).
  assert (Hok : machine_ok (machine st1))
    by exact (run_machine_ok _ _ _ Hpre initial_machine_ok).
  destruct (process_line_error _ _ _ Hok Hl) as [(-> & Hbad & Hg) | ->];
    [left | right; reflexivity].
  split; [reflexivity |]. exists pre, line, post, st1. auto.
Qed.

Lemma exceptions_of_parse_witness :
  (ValueError = ValueError
   /\ exists pre line post st,
        splitlines lone_minus_program = (pre ++ line :: post)%list
        /\ run initial_state pre = inr st
        /\ current_group_info (handle_groups line st) <> None
        /\ malformed_number line = true)
  \/ ValueError = OverflowError.
Proof.
  apply (exceptions_of_parse lone_minus_program ValueError).
  vm_compute. reflexivity.
Defined.

(** ** Markers at the edges *)

(** X5.  A group still open at the end of the text is returned as if an
    end marker had closed it: a last line with an end marker and no begin
    marker changes nothing in the result, and the other words of that
    line are not read. *)
Theorem last_end_marker_redundant :
  forall text text' closing,
    splitlines text' = (splitlines text ++ [closing])%list ->
    group_end_re closing = true ->
    group_begin_re closing = None ->
    parse_gcode_for_time_and_tools text'
    = parse_gcode_for_time_and_tools text.
Proof.
  intros text text' closing Hs He Hb.
  unfold parse_gcode_for_time_and_tools. rewrite Hs, run_app.
  destruct (run initial_state (splitlines text)) as [e | st];
    [reflexivity |].
  simpl. unfold process_line, handle_groups, open_group, close_group.
  rewrite Hb, He.
  destruct (current_group_info st) as [g |] eqn:Eg; simpl; rewrite ?Eg;
    simpl; rewrite ?Eg; reflexivity.
Qed.

Lemma last_end_marker_redundant_witness :
  parse_gcode_for_time_and_tools closed_program
  = parse_gcode_for_time_and_tools headless_program.
Proof.
  apply (last_end_marker_redundant headless_program closed_program
           "GROUP_END G1 X0 F-"); vm_compute; reflexivity.
Defined.

(** X6.  A line with both markers begins a group and closes it at once:
    the group open before the line is emitted, then the new group as an
    empty record, with the tool N/A and nothing counted.  The other words
    of the line are not read, so the machine state is left as it was and a
    malformed number on the line raises nothing. *)
Theorem markers_on_one_line :
  forall st line name,
    group_begin_re line = Some name ->
    group_end_re line = true ->
    process_line st line = inr (opened_and_closed st name).
Proof.
  intros st line name Hb He.
  unfold process_line, handle_groups, open_group, close_group.
  rewrite Hb, He. reflexivity.
Qed.

Lemma markers_on_one_line_witness :
  process_line group_A_state
    (GROUP_BEGIN "2" "B" ++ " G1 F- X. S5 GROUP_END")
  = inr {| results := [record "A" Float.zero (Float.of_Z 10) [] [];
                       new_group "B"];
           current_group_info := None;
           machine := machine group_A_state |}.
Proof.
  apply (markers_on_one_line group_A_state
           (GROUP_BEGIN "2" "B" ++ " G1 F- X. S5 GROUP_END") "B");
    vm_compute; reflexivity.
Defined.

(** ** The tool of a group *)

Lemma update_modal_tool (line : string) (m m1 : Machine) (g g1 : Group) :
  update_modal line m g = inr (m1, g1) ->
  Herramienta g1 = last_tool [line] (Herramienta g).
Proof.
  intros H.
  destruct (update_modal_inv _ _ _ _ _ H) as (mg1 & mg2 & E1 & E2 & _ & ->).
  assert (H1 : Herramienta (snd mg1) = Herramienta g).
  { destruct (update_rpm_inv _ _ _ E1) as [-> | (r & n & _ & ->)];
      reflexivity. }
  assert (H2 : Herramienta (snd mg2) = Herramienta g).
  { destruct (update_feed_inv _ _ _ E2) as [-> | (f & _ & ->)];
      [exact H1 | exact H1]. }
  unfold last_tool, update_tool. simpl.
  destruct (tool_re line); simpl; [reflexivity | exact H2].
Qed.

Lemma process_line_tool (st st' : State) (line : string) (g : Group) :
  current_group_info (handle_groups line st) = Some g ->
  process_line st line = inr st' ->
  results st' = results (handle_groups line st)
  /\ exists g', current_group_info st' = Some g'
       /\ Grupo g' = Grupo g
       /\ Herramienta g' = last_tool [line] (Herramienta g).
Proof.
  intros Hg. unfold process_line. rewrite Hg.
  destruct (update_modal line _ g) as [e | [m1 g1]] eqn:E1; simpl;
    [discriminate |].
  destruct (process_motion line m1 g1) as [e | [m2 g2]] eqn:E2; simpl;
    [discriminate |].
  intros H; inv H. simpl. split; [reflexivity |]. exists g2.
  split; [reflexivity |].
  destruct (update_modal_frame _ _ _ _ _ E1) as (_ & _ & _ & _ & N1).
  destruct (process_motion_name _ _ _ _ _ E2) as (N2 & T2 & _).
  rewrite N2, T2, N1, (update_modal_tool _ _ _ _ _ E1). auto.
Qed.

Lemma run_tool (body : list string) : forall (st st' : State) (g : Group),
  current_group_info st = Some g ->
  forallb no_marker body = true ->
  run st body = inr st' ->
  results st' = results st
  /\ exists g', current_group_info st' = Some g'
       /\ Grupo g' = Grupo g
       /\ Herramienta g' = last_tool body (Herramienta g).
Proof.
  induction body as [| line rest IH]; intros st st' g Hg Hn Hrun.
  - inv Hrun. split; [reflexivity |]. exists g. auto.
  - simpl in Hn, Hrun. apply andb_prop in Hn. destruct Hn as [Hn Hrest].
    destruct (process_line st line) as [e | st1] eqn:Ep; [discriminate |].
    simpl in Hrun.
    pose proof (handle_groups_no_marker line st Hn) as Hh.
    assert (Hg1 : current_group_info (handle_groups line st) = Some g)
      by (rewrite Hh; exact Hg).
    destruct (process_line_tool _ _ _ _ Hg1 Ep) as (R1 & g1 & C1 & N1 & T1).
    destruct (IH _ _ _ C1 Hrest Hrun) as (R2 & g2 & C2 & N2 & T2).
    split; [rewrite R2, R1, Hh; reflexivity |].
    exists g2. split; [exact C2 |]. split; [congruence |].
    rewrite T2, T1. reflexivity.
Qed.

(** X7.  The tool of a group is the value of the last tool word on its
    lines, the line of the begin marker included, and N/A when they have
    none: a later tool word replaces the earlier one, and on one line the
    first tool word is the one read. *)
Theorem tool_is_last_tool_word :
  forall st first body name st',
    group_begin_re first = Some name ->
    group_end_re first = false ->
    forallb no_marker body = true ->
    run st (first :: body) = inr st' ->
    results st' = emit (results st) (current_group_info st)
    /\ exists g, current_group_info st' = Some g
         /\ Grupo g = name
         /\ Herramienta g = last_tool (first :: body) "N/A".
Proof.
  intros st first body name st' Hb He Hn Hrun. simpl in Hrun.
  destruct (process_line st first) as [e | st1] eqn:Ep; [discriminate |].
  simpl in Hrun.
  assert (Hh : handle_groups first st
               = {| results := emit (results st) (current_group_info st);
                    current_group_info := Some (new_group name);
                    machine := machine st |}).
  { unfold handle_groups, open_group, close_group. rewrite Hb, He.
    reflexivity. }
  assert (Hg : current_group_info (handle_groups first st)
               = Some (new_group name)) by (rewrite Hh; reflexivity).
  destruct (process_line_tool _ _ _ _ Hg Ep) as (R1 & g1 & C1 & N1 & T1).
  destruct (run_tool _ _ _ _ C1 Hn Hrun) as (R2 & g2 & C2 & N2 & T2).
  split; [rewrite R2, R1, Hh; reflexivity |].
  exists g2. split; [exact C2 |]. split; [rewrite N2, N1; reflexivity |].
  rewrite T2, T1. reflexivity.
Qed.

Lemma tool_is_last_tool_word_witness :
  exists st',
    run initial_state tool_program = inr st'
    /\ results st' = []
    /\ exists g, current_group_info st' = Some g
         /\ Grupo g = "A"
         /\ Herramienta g = "T4"
         /\ last_tool ["T=" ++ quoted "T2" ++ " T=" ++ quoted "T3"] "T1"
            = "T2".
Proof.
  destruct (run initial_state tool_program) as [e | st'] eqn:Erun;
    [vm_compute in Erun; discriminate |].
  exists st'. split; [reflexivity |].
  destruct (tool_is_last_tool_word initial_state
              (GROUP_BEGIN "1" "A" ++ " T=" ++ quoted "T1")
              ["G1 X10"; "T=" ++ quoted "T2" ++ " T=" ++ quoted "T3";
               "T=" ++ quoted "T4"; "S100"] "A" st'
              eq_refl eq_refl eq_refl Erun) as (R & g & C & N & T).
  split; [exact R |]. exists g.
  split; [exact C |]. split; [exact N |].
  split; [rewrite T; vm_compute; reflexivity | vm_compute; reflexivity].
Defined.

(** ** The sets of a record *)

Lemma add_int_sets (n : Z) (s : list Z) :
  0 <= n -> NoDup s -> Forall (fun k => 0 <= k) s ->
  NoDup (add_int n s) /\ Forall (fun k => 0 <= k) (add_int n s).
Proof.
  intros Hn Hd Hs. unfold add_int.
  destruct (existsb (Z.eqb n) s) eqn:E; [auto |].
  split.
  - apply NoDup_app; [assumption | constructor; [intros [] | constructor] |].
    intros k Hk [<- | []].
    assert (He : existsb (Z.eqb n) s = true)
      by (apply existsb_exists; exists n; split; [exact Hk | apply Z.eqb_refl]).
    congruence.
  - apply Forall_snoc; assumption.
Qed.

Lemma ForallOrdPairs_snoc {A} (R : A -> A -> Prop) (l : list A) (x : A) :
  ForallOrdPairs R l -> Forall (fun y => R y x) l ->
  ForallOrdPairs R (l ++ [x]).
Proof.
  induction 1 as [| a l Ha Hl IH]; intros Hx; simpl.
  - constructor; constructor.
  - inv Hx. constructor; [| auto].
    apply Forall_snoc; assumption.
Qed.

Lemma add_float_sets (x : float) (s : list float) :
  x <> Float.nan ->
  Forall (fun f => f <> Float.nan) s ->
  ForallOrdPairs (fun a b => Float.eqb b a = false) s ->
  Forall (fun f => f <> Float.nan) (add_float x s)
  /\ ForallOrdPairs (fun a b => Float.eqb b a = false) (add_float x s).
Proof.
  intros Hx Hs Hp. unfold add_float.
  destruct (existsb (Float.eqb x) s) eqn:E; [auto |].
  split; [apply Forall_snoc; assumption |].
  apply ForallOrdPairs_snoc; [assumption |].
  apply Forall_forall. intros y Hy.
  destruct (Float.eqb x y) eqn:Exy; [| reflexivity].
  assert (He : existsb (Float.eqb x) s = true)
    by (apply existsb_exists; exists y; auto).
  congruence.
Qed.

Lemma of_string_not_nan (s : string) (f : float) :
  Float.of_string s = inr f -> f <> Float.nan.
Proof.
  unfold Float.of_string.
  destruct (match s with
            | EmptyString => (false, s)
            | String c r => if Ascii.eqb c "-" then (true, r) else (false, s)
            end) as [neg body].
  destruct (span is_digit body) as [ip rest].
  destruct rest as [| c fp].
  - destruct (is_empty ip); intros H; inv H.
    apply FloatFacts.of_decimal_not_nan.
  - destruct (_ && _ && _)%bool; intros H; inv H.
    apply FloatFacts.of_decimal_not_nan.
Qed.

(** [int] of the float of a run of digits is zero or more. *)
Lemma to_int_of_digits (n k : Z) :
  Float.to_int (Float.of_decimal false n 0) = inr k -> 0 <= k.
Proof.
  destruct (FloatFacts.of_decimal_cases false n 0)
    as [E | [E | (m & e & E & _)]]; rewrite E; intros H.
  - inv H. lia.
  - inv H.
  - assert (Hk : k = if 0 <=? e then Zpos m * 2 ^ e
                     else Zpos m / 2 ^ (- e))
      by (unfold Float.to_int, cond_Zopp, ret in H; congruence).
    clear H. subst k.
    destruct (0 <=? e) eqn:He.
    + apply Z.leb_le in He. apply Z.mul_nonneg_nonneg; [lia |].
      apply Z.pow_nonneg. lia.
    + apply Z.leb_gt in He. apply Z.div_pos; [lia |].
      apply Z.pow_pos_nonneg; lia.
Qed.

Lemma update_modal_sets (line : string) (m m1 : Machine) (g g1 : Group) :
  update_modal line m g = inr (m1, g1) -> sets_ok g -> sets_ok g1.
Proof.
  intros H (Hd & Hn & Hf & Hp).
  destruct (update_modal_inv _ _ _ _ _ H) as (mg1 & mg2 & E1 & E2 & _ & ->).
  assert (S1 : sets_ok (snd mg1)).
  { revert E1. unfold update_rpm.
    destruct (rpm_re line) as [rt |] eqn:Ert;
      [| intros E; inv E; repeat split; assumption].
    destruct (rpm_re_digits _ _ Ert) as [Hdg Hne].
    rewrite (FloatFacts.of_string_digits rt Hdg Hne). simpl.
    destruct (Float.to_int _) as [e | n] eqn:Ei; simpl; [discriminate |].
    intros E; inv E. simpl.
    destruct (add_int_sets n (RPMs g) (to_int_of_digits _ _ Ei) Hd Hn).
    repeat split; assumption. }
  assert (S2 : sets_ok (snd mg2)).
  { revert E2. unfold update_feed.
    destruct (feed_re line) as [ft |]; [| intros E; inv E; exact S1].
    destruct (Float.of_string ft) as [e | f] eqn:Ef; simpl; [discriminate |].
    intros E; inv E. simpl.
    destruct S1 as (Hd1 & Hn1 & Hf1 & Hp1).
    destruct (add_float_sets f _ (of_string_not_nan _ _ Ef) Hf1 Hp1).
    repeat split; assumption. }
  unfold update_tool. destruct (tool_re line); exact S2.
Qed.

Lemma process_line_sets (st st' : State) (line : string) :
  process_line st line = inr st' ->
  Forall sets_ok (emit (results st) (current_group_info st)) ->
  Forall sets_ok (emit (results st') (current_group_info st')).
Proof.
  unfold process_line. intros H Hok.
  assert (Hh : Forall sets_ok
                 (emit (results (handle_groups line st))
                    (current_group_info (handle_groups line st)))).
  { rewrite handle_groups_emit. apply Forall_app. split; [exact Hok |].
    destruct (group_begin_re line); constructor; [| constructor].
    repeat split; constructor. }
  clear Hok.
  destruct (current_group_info (handle_groups line st)) as [g |] eqn:Ec.
  - destruct (update_modal line _ g) as [e | [m1 g1]] eqn:E1; simpl in H;
      [discriminate |].
    destruct (process_motion line m1 g1) as [e | [m2 g2]] eqn:E2; simpl in H;
      [discriminate |].
    inv H. simpl in *. rewrite Forall_app in *. destruct Hh as [Hrs Hg].
    split; [assumption |]. constructor; [| constructor].
    inv Hg.
    pose proof (update_modal_sets _ _ _ _ _ E1 ltac:(assumption)) as S1.
    destruct (process_motion_name _ _ _ _ _ E2) as (_ & _ & A2 & R2).
    unfold sets_ok. rewrite A2, R2. exact S1.
  - inv H. rewrite Ec. exact Hh.
Qed.

Lemma run_sets (lines : list string) : forall st st' : State,
  run st lines = inr st' ->
  Forall sets_ok (emit (results st) (current_group_info st)) ->
  Forall sets_ok (emit (results st') (current_group_info st')).
Proof.
  induction lines as [| line rest IH]; intros st st' H Hok; simpl in H.
  - inv H. assumption.
  - destruct (process_line st line) as [e | st1] eqn:E; simpl in H;
      [discriminate |].
    exact (IH _ _ H (process_line_sets _ _ _ E Hok)).
Qed.

(** X8.  In every record returned the spindle speeds are integers from
    zero on, each held once, and the feeds, which may be negative, hold
    no NaN and no two values that are equal as floats: a feed written in
    two ways, or a zero written with and without a minus sign, is held
    once. *)
Theorem sets_hold_each_value_once :
  forall text rs,
    parse_gcode_for_time_and_tools text = inr rs ->
    Forall sets_ok rs.
Proof.
  intros text rs. unfold parse_gcode_for_time_and_tools.
  destruct (run initial_state (splitlines text)) as [e | st] eqn:Erun;
    [discriminate |].
  intros H; inv H.
  apply (run_sets _ _ _ Erun). constructor.
Qed.

Lemma sets_hold_each_value_once_witness :
  parse_gcode_for_time_and_tools sets_program
  = inr [record "A" Float.zero Float.zero [Float.zero; Float.of_Z 1]
           [100; 200]]
  /\ Forall sets_ok
       [record "A" Float.zero Float.zero [Float.zero; Float.of_Z 1]
          [100; 200]].
Proof.
  assert (H : parse_gcode_for_time_and_tools sets_program
              = inr [record "A" Float.zero Float.zero
                       [Float.zero; Float.of_Z 1] [100; 200]])
    by (vm_compute; reflexivity).
  split; [exact H |].
  exact (sets_hold_each_value_once _ _ H).
Defined.

(** ** The motion word *)

Lemma search_unfold {A} (p : string -> option A) (s : string) :
  search p s = match p s with
               | Some a => Some a
               | None => match s with
                         | EmptyString => None
                         | String _ s' => search p s'
                         end
               end.
Proof. destruct s; reflexivity. Qed.

Lemma contains_unfold (needle s : string) :
  contains needle s = match strip_prefix needle s with
                      | Some _ => true
                      | None => match s with
                                | EmptyString => false
                                | String _ s' => contains needle s'
                                end
                      end.
Proof. destruct s; reflexivity. Qed.

(** The pattern matches at a position where [G0] or [G1] starts. *)
Lemma g_code_at_prefix (s : string) :
  match g_code_at s with Some _ => true | None => false end
  = (match strip_prefix "G0" s with Some _ => true | None => false end
     || match strip_prefix "G1" s with Some _ => true | None => false end)%bool.
Proof.
  destruct s as [| a s1]; [reflexivity |].
  destruct a as [[] [] [] [] [] [] [] []]; try reflexivity.
  destruct s1 as [| b s2]; [reflexivity |].
  destruct b as [[] [] [] [] [] [] [] []]; try reflexivity.
  destruct s2 as [| c s3]; [reflexivity |].
  simpl. destruct (is_01 c); reflexivity.
Qed.

Lemma is_01_cases (d : ascii) :
  is_01 d = true -> d = "0"%char \/ d = "1"%char.
Proof.
  unfold is_01. intros H. apply orb_prop in H.
  destruct H as [H | H]; apply Ascii.eqb_eq in H; auto.
Qed.

Lemma g_code_at_digit (s : string) (d : ascii) :
  g_code_at s = Some d -> d = "0"%char \/ d = "1"%char.
Proof.
  destruct s as [| a s1]; [discriminate |].
  destruct a as [[] [] [] [] [] [] [] []]; try discriminate.
  destruct s1 as [| b s2]; [discriminate |].
  destruct b as [[] [] [] [] [] [] [] []]; try discriminate.
  - simpl. intros H; inv H. auto.
  - destruct s2 as [| c s3]; simpl.
    + intros H; inv H. auto.
    + destruct (is_01 c) eqn:Ec; intros H; inv H;
        [apply is_01_cases; assumption | auto].
Qed.

(** X9.  The motion word is looked for as a piece of text: a line has one
    exactly when [G0] or [G1] occurs somewhere in it, so the words G17 and
    G10 set the cutting mode G1, and G02, G03 and G04 set the rapid mode
    G0; the digit read is never another one than 0 or 1. *)
Theorem motion_word_is_a_substring :
  forall line,
    (g_code_re line = None
     <-> contains "G0" line = false /\ contains "G1" line = false)
    /\ (forall d, g_code_re line = Some d -> d = "0"%char \/ d = "1"%char)
    /\ g_code_re "N10 G17 G2" = Some "1"%char
    /\ g_code_re "G02 X1 G1" = Some "0"%char.
Proof.
  intros line. split; [| split; [| split; reflexivity]].
  - unfold g_code_re.
    induction line as [| c rest IH];
      rewrite search_unfold, (contains_unfold "G0"), (contains_unfold "G1").
    + split; [intros _; split; reflexivity | reflexivity].
    + pose proof (g_code_at_prefix (String c rest)) as Hp.
      destruct (g_code_at (String c rest)) as [d |];
        destruct (strip_prefix "G0" (String c rest));
        destruct (strip_prefix "G1" (String c rest));
        try discriminate Hp.
      * split; [discriminate | intros [H _]; discriminate H].
      * split; [discriminate | intros [H _]; discriminate H].
      * split; [discriminate | intros [_ H]; discriminate H].
      * exact IH.
  - intros d H. unfold g_code_re in H.
    destruct (search_some _ _ _ H) as (s' & Hs).
    exact (g_code_at_digit _ _ Hs).
Qed.

Lemma motion_word_is_a_substring_witness :
  contains "G0" "T=5 X10 G94" = false
  /\ contains "G1" "T=5 X10 G94" = false
  /\ g_code_re "T=5 X10 G94" = None
  /\ ("1"%char = "0"%char \/ "1"%char = "1"%char).
Proof.
  destruct (motion_word_is_a_substring "T=5 X10 G94") as (Hn & _).
  destruct (motion_word_is_a_substring "N10 G17 G2") as (_ & Hd & _).
  split; [reflexivity |]. split; [reflexivity |].
  split; [apply (proj2 Hn); split; reflexivity |].
  apply Hd. reflexivity.
Defined.

(** ** The identifiers of the rows *)

Lemma str_int_digits (n : nat) : Float.all_digits (str_int n) = true.
Proof.
  unfold str_int. induction (Nat.to_uint n) as [| d IH | d IH | d IH | d IH
    | d IH | d IH | d IH | d IH | d IH | d IH]; simpl;
    rewrite ?IH; reflexivity.
Qed.

Lemma str_int_inj (a b : nat) : str_int a = str_int b -> a = b.
Proof.
  unfold str_int. intros H.
  apply (f_equal NilEmpty.uint_of_string) in H.
  rewrite !NilEmpty.usu in H. inv H.
  rewrite <- (DecimalNat.Unsigned.of_to a), <- (DecimalNat.Unsigned.of_to b).
  congruence.
Qed.

(** Two texts of digits with a point after each are the same when what
    they begin is. *)
Lemma digits_point_inj (s1 : string) : forall s2 t1 t2 : string,
  Float.all_digits s1 = true -> Float.all_digits s2 = true ->
  (s1 ++ String "." t1)%string = (s2 ++ String "." t2)%string ->
  s1 = s2 /\ t1 = t2.
Proof.
  induction s1 as [| c1 r1 IH]; intros [| c2 r2] t1 t2 H1 H2 E; simpl in *.
  - inv E. auto.
  - inv E. discriminate.
  - inv E. discriminate.
  - inv E. apply andb_prop in H1, H2.
    destruct (IH r2 t1 t2) as [-> ->]; tauto.
Qed.

Lemma item_id_inj (i j i' j' : nat) :
  item_id i j = item_id i' j' -> i = i' /\ j = j'.
Proof.
  unfold item_id. intros H.
  apply digits_point_inj in H; try apply str_int_digits.
  destruct H as [Hi Hj].
  apply str_int_inj in Hi, Hj. lia.
Qed.

Lemma enumerate_ids (i : nat) (gs : list Group) : forall k : nat,
  NoDup (map ID (map (with_ID i) (enumerate_from k gs)))
  /\ forall x, In x (map ID (map (with_ID i) (enumerate_from k gs))) ->
               exists j, x = item_id i j /\ (k <= j)%nat.
Proof.
  induction gs as [| g rest IH]; intros k; simpl.
  - split; [constructor | intros x []].
  - destruct (IH (S k)) as [Hnd Hin]. split.
    + constructor; [| exact Hnd].
      intros Hx. destruct (Hin _ Hx) as (j & E & Hj).
      apply item_id_inj in E. lia.
    + intros x [<- | Hx]; [exists k; split; [reflexivity | lia] |].
      destruct (Hin _ Hx) as (j & E & Hj). exists j. split; [exact E | lia].
Qed.

Lemma process_files_ids (files : list (string * string)) :
  forall (k : nat) (all_files_data : list FileData),
    for_each process_file (enumerate_from k files) = inr all_files_data ->
    NoDup (map ID (flat_map data all_files_data))
    /\ forall x, In x (map ID (flat_map data all_files_data)) ->
                 exists i j, x = item_id i j /\ (k <= i)%nat.
Proof.
  induction files as [| [file_name content] rest IH]; intros k all H;
    simpl in H.
  - inv H. split; [constructor | intros x []].
  - unfold process_file at 1 in H. simpl in H.
    destruct (parse_gcode_for_time_and_tools content) as [e | gs];
      [discriminate |].
    simpl in H.
    destruct (for_each process_file (enumerate_from (S k) rest))
      as [e | tail] eqn:Et; [discriminate |].
    simpl in H. inv H. simpl.
    destruct (IH _ _ Et) as [Hnd Hin].
    destruct (enumerate_ids k gs 0%nat) as [Hnd0 Hin0].
    rewrite map_app. split.
    + apply NoDup_app; [exact Hnd0 | exact Hnd |].
      intros x Hx Hx'.
      destruct (Hin0 _ Hx) as (j & E & _).
      destruct (Hin _ Hx') as (i' & j' & E' & Hi').
      rewrite E in E'. apply item_id_inj in E'. lia.
    + intros x Hx. apply in_app_or in Hx. destruct Hx as [Hx | Hx].
      * destruct (Hin0 _ Hx) as (j & E & _). exists k, j. split; [exact E | lia].
      * destruct (Hin _ Hx) as (i' & j' & E' & Hi').
        exists i', j'. split; [exact E' | lia].
Qed.

(** X10.  The identifiers given to the rows of all the files differ from
    one another: the identifier names the file and the group, and each is
    the identifier of one pair of numbers only. *)
Theorem identifiers_are_unique :
  (forall uploaded_files all_files_data,
     process_files uploaded_files = inr all_files_data ->
     NoDup (map ID (flat_map data all_files_data)))
  /\ (forall i j i' j',
        item_id i j = item_id i' j' -> i = i' /\ j = j').
Proof.
  split.
  - intros files all H. exact (proj1 (process_files_ids _ _ _ H)).
  - exact item_id_inj.
Qed.

Lemma identifiers_are_unique_witness :
  (exists all_files_data,
     process_files two_files = inr all_files_data
     /\ map ID (flat_map data all_files_data) = ["1.1"; "1.2"; "2.1"]
     /\ NoDup (map ID (flat_map data all_files_data)))
  /\ (item_id 0 10 = item_id 0 10 -> 0 = 0 /\ 10 = 10)%nat.
Proof.
  split.
  - destruct (process_files two_files) as [e | all] eqn:E;
      [vm_compute in E; discriminate |].
    exists all. split; [reflexivity |].
    split; [vm_compute in E; inv E; reflexivity |].
    exact (proj1 identifiers_are_unique two_files all E).
  - exact (proj2 identifiers_are_unique 0 10 0 10)%nat.
Defined.

(** ** All the files or none *)

Lemma enumerate_groups (i : nat) (gs : list Group) : forall k : nat,
  map group (map (with_ID i) (enumerate_from k gs)) = gs.
Proof.
  induction gs as [| g rest IH]; intros k; simpl;
    [reflexivity | rewrite IH; reflexivity].
Qed.

Lemma for_each_process (files : list (string * string)) :
  forall (k : nat) (all_files_data : list FileData),
    for_each process_file (enumerate_from k files) = inr all_files_data ->
    Forall2 (fun file file_data =>
               name file_data = fst file
               /\ parse_gcode_for_time_and_tools (snd file)
                  = inr (map group (data file_data)))
      files all_files_data.
Proof.
  induction files as [| [file_name content] rest IH]; intros k all H;
    simpl in H.
  - inv H. constructor.
  - unfold process_file at 1 in H. simpl in H.
    destruct (parse_gcode_for_time_and_tools content) as [e | gs] eqn:Ep;
      [discriminate |].
    simpl in H.
    destruct (for_each process_file (enumerate_from (S k) rest))
      as [e | tail] eqn:Et; [discriminate |].
    simpl in H. inv H. constructor; [| exact (IH _ _ Et)].
    simpl. split; [reflexivity |]. rewrite Ep. f_equal.
    symmetry. apply enumerate_groups.
Qed.

Lemma for_each_raises (files : list (string * string)) :
  forall (k : nat) (file : string * string) (e : PyError),
    In file files ->
    parse_gcode_for_time_and_tools (snd file) = inl e ->
    exists e', for_each process_file (enumerate_from k files) = inl e'.
Proof.
  induction files as [| [file_name content] rest IH]; intros k file e Hin Hp;
    [destruct Hin |].
  simpl. unfold process_file at 1. simpl.
  destruct (parse_gcode_for_time_and_tools content) as [e1 | gs] eqn:Ep;
    [exists e1; reflexivity |].
  simpl. destruct Hin as [<- | Hin]; [simpl in Hp; congruence |].
  destruct (IH (S k) file e Hin Hp) as (e' & E). rewrite E.
  exists e'. reflexivity.
Qed.

(** X11.  The files are processed all or none.  When no file raises, the
    session holds one entry for each file, in the order of the upload,
    with the name of the file and the groups the function returns for its
    content; when the function raises for one file, the session holds
    the data of no file. *)
Theorem files_all_or_none :
  (forall uploaded_files all_files_data,
     session_after_upload uploaded_files = Some all_files_data ->
     Forall2 (fun file file_data =>
                name file_data = fst file
                /\ parse_gcode_for_time_and_tools (snd file)
                   = inr (map group (data file_data)))
       uploaded_files all_files_data)
  /\ (forall uploaded_files file e,
        In file uploaded_files ->
        parse_gcode_for_time_and_tools (snd file) = inl e ->
        session_after_upload uploaded_files = None).
Proof.
  unfold session_after_upload, process_files, enumerate. split.
  - intros files all H.
    destruct (for_each process_file (enumerate_from 0 files)) as [e | a]
      eqn:E; [discriminate |].
    inv H. exact (for_each_process _ _ _ E).
  - intros files file e Hin Hp.
    destruct (for_each_raises files 0%nat file e Hin Hp) as (e' & E).
    rewrite E. reflexivity.
Qed.

Lemma files_all_or_none_witness :
  session_after_upload bad_files = None
  /\ exists all_files_data,
       session_after_upload two_files = Some all_files_data
       /\ map name all_files_data = ["a.mpf"; "b.mpf"]
       /\ Forall2 (fun file file_data =>
                     name file_data = fst file
                     /\ parse_gcode_for_time_and_tools (snd file)
                        = inr (map group (data file_data)))
            two_files all_files_data.
Proof.
  split.
  - apply (proj2 files_all_or_none bad_files
             ("b.mpf", lone_minus_program) ValueError);
      [right; left; reflexivity | vm_compute; reflexivity].
  - destruct (session_after_upload two_files) as [all |] eqn:E;
      [| vm_compute in E; discriminate].
    exists all. split; [reflexivity |].
    split; [vm_compute in E; inv E; reflexivity |].
    exact (proj1 files_all_or_none two_files all E).
Defined.

(** ** The comparison of the tools *)

Lemma add_str_in (x : string) (s : list string) (y : string) :
  In y (add_str x s) <-> In y s \/ x = y.
Proof.
  unfold add_str. destruct (existsb (String.eqb x) s) eqn:E.
  - split; [auto |]. intros [H | <-]; [exact H |].
    apply existsb_exists in E. destruct E as (z & Hz & Ez).
    apply String.eqb_eq in Ez. subst z. exact Hz.
  - rewrite in_app_iff. simpl. tauto.
Qed.

Lemma add_str_NoDup (x : string) (s : list string) :
  NoDup s -> NoDup (add_str x s).
Proof.
  intros Hnd. unfold add_str.
  destruct (existsb (String.eqb x) s) eqn:E; [exact Hnd |].
  apply NoDup_app; [exact Hnd | constructor; [intros [] | constructor] |].
  intros y Hy [<- | []].
  assert (existsb (String.eqb x) s = true); [| congruence].
  apply existsb_exists. exists x. split; [exact Hy |].
  apply String.eqb_refl.
Qed.

Lemma fold_add_str_in (l : list string) : forall (acc : list string) y,
  In y (fold_left (fun s x => add_str x s) l acc) <-> In y acc \/ In y l.
Proof.
  induction l as [| x rest IH]; intros acc y; simpl; [tauto |].
  rewrite IH, add_str_in. tauto.
Qed.

Lemma fold_add_str (l : list string) : forall acc : list string,
  NoDup acc ->
  NoDup (fold_left (fun s x => add_str x s) l acc)
  /\ forall y, In y (fold_left (fun s x => add_str x s) l acc)
               <-> In y acc \/ In y l.
Proof.
  intros acc Hnd. split; [| intros y; apply fold_add_str_in].
  revert acc Hnd. induction l as [| x rest IH]; intros acc Hnd; simpl;
    [exact Hnd | apply IH, add_str_NoDup, Hnd].
Qed.

Lemma set_of_spec (l : list string) :
  NoDup (set_of l) /\ forall y, In y (set_of l) <-> In y l.
Proof.
  destruct (fold_add_str l [] (NoDup_nil _)) as [H1 H2].
  split; [exact H1 |]. intros y. unfold set_of. rewrite H2. simpl. tauto.
Qed.

Lemma set_of_nil (l : list string) : set_of l = [] <-> l = [].
Proof.
  split; [| intros ->; reflexivity].
  intros H. destruct l as [| x rest]; [reflexivity |].
  assert (Hx : In x (set_of (x :: rest)))
    by (apply set_of_spec; left; reflexivity).
  rewrite H in Hx. destruct Hx.
Qed.

Lemma insert_sorted_perm (x : string) (l : list string) :
  Permutation (x :: l) (insert_sorted x l).
Proof.
  induction l as [| y rest IH]; simpl; [reflexivity |].
  destruct (String.leb x y); [reflexivity |].
  rewrite perm_swap. constructor. exact IH.
Qed.

Lemma sorted_perm (l : list string) : Permutation l (sorted l).
Proof.
  induction l as [| x rest IH]; simpl; [constructor |].
  rewrite <- insert_sorted_perm. constructor. exact IH.
Qed.

Lemma insert_sorted_Sorted (x : string) (l : list string) :
  Sorted (fun a b => String.leb a b = true) l ->
  Sorted (fun a b => String.leb a b = true) (insert_sorted x l).
Proof.
  induction 1 as [| y rest Hs IH Hh]; simpl.
  - repeat constructor.
  - destruct (String.leb x y) eqn:E.
    + constructor; [constructor; assumption | constructor; exact E].
    + constructor; [exact IH |].
      assert (Hyx : String.leb y x = true)
        by (destruct (String.leb_total x y); congruence).
      destruct rest as [| z rest']; simpl.
      * constructor. exact Hyx.
      * inv Hh. destruct (String.leb x z); constructor; assumption.
Qed.

Lemma sorted_Sorted (l : list string) :
  Sorted (fun a b => String.leb a b = true) (sorted l).
Proof.
  induction l as [| x rest IH]; simpl; [constructor |].
  apply insert_sorted_Sorted, IH.
Qed.

Lemma leb_ltb (a b : string) :
  String.leb a b = true -> a <> b -> String.ltb a b = true.
Proof.
  unfold String.leb, String.ltb. intros H Hne.
  destruct (String.compare a b) eqn:E; try reflexivity; try discriminate.
  apply String.compare_eq_iff in E. contradiction.
Qed.

Lemma Sorted_strict (l : list string) :
  Sorted (fun a b => String.leb a b = true) l -> NoDup l ->
  Sorted (fun a b => String.ltb a b = true) l.
Proof.
  induction 1 as [| x rest Hs IH Hh]; intros Hnd; [constructor |].
  inv Hnd. constructor; [auto |].
  destruct Hh as [| y rest' Hxy]; constructor.
  apply leb_ltb; [exact Hxy |].
  intros ->. match goal with H : ~ In _ _ |- _ => apply H end.
  left. reflexivity.
Qed.

(** X12.  The comparison has one row for each tool of the data, in the
    order of the texts of the tools: each tool that some group of some
    file has is listed once, a tool no group has is not listed, and each
    row comes before the rows of the tools that are greater as strings,
    so that T10 comes before T2. *)
Theorem comparison_lists_each_tool_once :
  forall edited_data,
    Sorted (fun a b => String.ltb a b = true)
      (sorted (all_unique_tools_set edited_data))
    /\ NoDup (sorted (all_unique_tools_set edited_data))
    /\ (forall tool,
          In tool (sorted (all_unique_tools_set edited_data))
          <-> exists file_data item,
                In file_data edited_data /\ In item (data file_data)
                /\ tool_of item = tool)
    /\ Forall2 (fun tool row => row = comparison_row edited_data tool)
         (sorted (all_unique_tools_set edited_data))
         (comparison_rows edited_data).
Proof.
  intros ed.
  destruct (set_of_spec (flat_map (fun file_data =>
                                     map tool_of (data file_data)) ed))
    as [Hnd Hin].
  fold (all_unique_tools_set ed) in Hnd, Hin.
  pose proof (sorted_perm (all_unique_tools_set ed)) as Hp.
  assert (Hnd' : NoDup (sorted (all_unique_tools_set ed)))
    by exact (Permutation_NoDup Hp Hnd).
  split; [apply Sorted_strict; [apply sorted_Sorted | exact Hnd'] |].
  split; [exact Hnd' |]. split.
  - intros tool. split.
    + intros H. apply (Permutation_in _ (Permutation_sym Hp)) in H.
      apply Hin, in_flat_map in H. destruct H as (fd & Hfd & Ht).
      apply in_map_iff in Ht. destruct Ht as (item & E & Hi).
      exists fd, item. auto.
    + intros (fd & item & Hfd & Hi & E).
      apply (Permutation_in _ Hp), Hin, in_flat_map.
      exists fd. split; [exact Hfd |].
      apply in_map_iff. exists item. auto.
  - unfold comparison_rows. clear.
    induction (sorted (all_unique_tools_set ed)) as [| tool rest IH]; simpl;
      constructor; [reflexivity | exact IH].
Qed.

Lemma comparison_lists_each_tool_once_witness :
  sorted (all_unique_tools_set tools_data) = ["T10"; "T2"]
  /\ Sorted (fun a b => String.ltb a b = true)
       (sorted (all_unique_tools_set tools_data))
  /\ In "T2" (sorted (all_unique_tools_set tools_data)).
Proof.
  destruct (comparison_lists_each_tool_once tools_data) as (Hs & _ & Hin & _).
  split; [vm_compute; reflexivity |]. split; [exact Hs |].
  apply Hin.
  exists {| name := "a.mpf";
            data := [tool_item "1.1" "T2"; tool_item "1.2" "T10";
                     tool_item "1.3" "T2"] |}.
  exists (tool_item "1.1" "T2").
  split; [left; reflexivity |].
  split; [left; reflexivity |].
  reflexivity.
Defined.

(** ** The cells of the comparison *)

Lemma dict_set_keys (k v : string) (d : dict) :
  map fst (dict_set k v d) = add_str k (map fst d).
Proof.
  unfold add_str. induction d as [| [k' v'] rest IH]; simpl; [reflexivity |].
  destruct (String.eqb k k'); simpl; [reflexivity |].
  rewrite IH. destruct (existsb (String.eqb k) (map fst rest)); reflexivity.
Qed.

Lemma dict_set_fresh (k v : string) (d : dict) :
  ~ In k (map fst d) -> dict_set k v d = (d ++ [(k, v)])%list.
Proof.
  induction d as [| [k' v'] rest IH]; simpl; intros H; [reflexivity |].
  destruct (String.eqb_spec k k') as [-> | Hne]; [tauto |].
  rewrite IH; [reflexivity | tauto].
Qed.

Lemma dict_get_set_same (k v : string) (d : dict) :
  dict_get k (dict_set k v d) = Some v.
Proof.
  induction d as [| [k' v'] rest IH]; simpl;
    [rewrite String.eqb_refl; reflexivity |].
  destruct (String.eqb k k') eqn:E; simpl; rewrite E; [reflexivity | exact IH].
Qed.

Lemma dict_get_set_other (k k' v : string) (d : dict) :
  k <> k' -> dict_get k (dict_set k' v d) = dict_get k d.
Proof.
  intros Hne. induction d as [| [k1 v1] rest IH]; simpl.
  - destruct (String.eqb_spec k k'); [contradiction | reflexivity].
  - destruct (String.eqb_spec k' k1) as [-> | H1]; simpl.
    + destruct (String.eqb_spec k k1); [contradiction | reflexivity].
    + rewrite IH. reflexivity.
Qed.

(** Among the items added to a dictionary, the last one of a key gives
    its value. *)
Lemma dict_update_last (post : dict) : forall (d : dict) (k : string),
  ~ In k (map fst post) ->
  dict_get k (dict_update d post) = dict_get k d.
Proof.
  unfold dict_update.
  induction post as [| [k1 v1] rest IH]; intros d k H; simpl in *;
    [reflexivity |].
  rewrite IH; [| tauto]. apply dict_get_set_other. intros ->. tauto.
Qed.

Lemma dict_update_get (d pre post : dict) (k v : string) :
  ~ In k (map fst post) ->
  dict_get k (dict_update d (pre ++ (k, v) :: post)%list) = Some v.
Proof.
  intros H. unfold dict_update. rewrite fold_left_app. simpl.
  fold (dict_update (dict_set k v
                       (fold_left (fun acc kv =>
                                     dict_set (fst kv) (snd kv) acc) pre d))
          post).
  rewrite dict_update_last; [| exact H]. apply dict_get_set_same.
Qed.

Lemma dict_update_keys (l : dict) : forall d : dict,
  map fst (dict_update d l)
  = fold_left (fun s x => add_str x s) (map fst l) (map fst d).
Proof.
  unfold dict_update.
  induction l as [| [k v] rest IH]; intros d; simpl; [reflexivity |].
  rewrite IH, dict_set_keys. reflexivity.
Qed.

Lemma dict_update_fresh (l : dict) : forall d : dict,
  NoDup (map fst l) ->
  (forall k, In k (map fst l) -> ~ In k (map fst d)) ->
  dict_update d l = (d ++ l)%list.
Proof.
  unfold dict_update.
  induction l as [| [k v] rest IH]; intros d Hnd Hd; simpl.
  - rewrite app_nil_r. reflexivity.
  - simpl in Hnd. inv Hnd.
    rewrite dict_set_fresh; [| apply Hd; left; reflexivity].
    rewrite IH; [rewrite <- app_assoc; reflexivity | assumption |].
    intros k' Hk'. rewrite map_app, in_app_iff. simpl.
    intros [H | [<- | []]]; [| contradiction].
    apply (Hd k'); [right; exact Hk' | exact H].
Qed.

(** The comprehension of the marks adds one item for each file. *)
Lemma marks_update (edited_data : list FileData) (tool : string) :
  marks edited_data tool
  = dict_update [] (map (fun file_data =>
                           (name file_data, mark tool file_data))
                      edited_data).
Proof.
  unfold marks, dict_update. generalize (@nil (string * string)).
  induction edited_data as [| fd rest IH]; intros d; simpl;
    [reflexivity | apply IH].
Qed.

Lemma dict_keys_NoDup (l : dict) : forall d : dict,
  NoDup (map fst d) -> NoDup (map fst (dict_update d l)).
Proof.
  intros d Hd. rewrite dict_update_keys.
  exact (proj1 (fold_add_str _ _ Hd)).
Qed.

Lemma dict_get_split (d : dict) (k v : string) :
  NoDup (map fst d) -> dict_get k d = Some v ->
  exists pre post,
    d = (pre ++ (k, v) :: post)%list /\ ~ In k (map fst post).
Proof.
  induction d as [| [k1 v1] rest IH]; simpl; intros Hnd H; [discriminate |].
  inv Hnd.
  destruct (String.eqb_spec k k1) as [-> | Hne].
  - inv H. exists [], rest. auto.
  - destruct (IH ltac:(assumption) H) as (pre & post & -> & Hp).
    exists ((k1, v1) :: pre), post. auto.
Qed.

Lemma mark_cases (tool : string) (file_data : FileData) :
  (mark tool file_data = "X"
   /\ exists item, In item (data file_data) /\ tool_of item = tool)
  \/ (mark tool file_data = ""
      /\ forall item, In item (data file_data) -> tool_of item <> tool).
Proof.
  unfold mark.
  destruct (existsb (String.eqb tool) (set_of (map tool_of (data file_data))))
    eqn:E.
  - left. split; [reflexivity |].
    apply existsb_exists in E. destruct E as (t & Ht & Et).
    apply String.eqb_eq in Et. subst t.
    apply set_of_spec, in_map_iff in Ht. destruct Ht as (item & E & Hi).
    exists item. auto.
  - right. split; [reflexivity |]. intros item Hi Et.
    assert (existsb (String.eqb tool)
              (set_of (map tool_of (data file_data))) = true);
      [| congruence].
    apply existsb_exists. exists tool. split; [| apply String.eqb_refl].
    apply set_of_spec, in_map_iff. exists item. auto.
Qed.

(** X13.  When the files have different names, a row of the comparison
    holds the tool and then one cell for each file, in the order of the
    files: the cell is X when some group of the file has the tool, and
    empty when none has. *)
Theorem comparison_marks :
  forall edited_data tool,
    NoDup (map name edited_data) ->
    ~ In "Herramienta" (map name edited_data) ->
    comparison_row edited_data tool
    = ("Herramienta", tool)
      :: map (fun file_data => (name file_data, mark tool file_data))
           edited_data
    /\ forall file_data,
         In file_data edited_data ->
         (mark tool file_data = "X"
          /\ exists item, In item (data file_data) /\ tool_of item = tool)
         \/ (mark tool file_data = ""
             /\ forall item,
                  In item (data file_data) -> tool_of item <> tool).
Proof.
  intros ed tool Hnd Hh. split; [| intros fd _; apply mark_cases].
  unfold comparison_row. rewrite marks_update.
  assert (Hk : map fst (map (fun file_data =>
                               (name file_data, mark tool file_data)) ed)
               = map name ed)
    by (rewrite map_map; reflexivity).
  rewrite (dict_update_fresh _ []); [| rewrite Hk; exact Hnd | intros k _ []].
  simpl. apply dict_update_fresh; [rewrite Hk; exact Hnd |].
  rewrite Hk. intros k Hin [<- | []]. contradiction.
Qed.

Lemma comparison_marks_witness :
  comparison_rows tools_data
  = [[("Herramienta", "T10"); ("a.mpf", "X"); ("b.mpf", "X")];
     [("Herramienta", "T2"); ("a.mpf", "X"); ("b.mpf", "")]]
  /\ comparison_row tools_data "T2"
     = ("Herramienta", "T2")
       :: map (fun file_data => (name file_data, mark "T2" file_data))
            tools_data.
Proof.
  split; [vm_compute; reflexivity |].
  apply (proj1 (comparison_marks tools_data "T2"
                  ltac:(repeat constructor; simpl; intuition discriminate)
                  ltac:(simpl; intuition discriminate))).
Defined.

(** The keys a set of strings keeps are those of the list it is made
    of. *)
Lemma fold_add_str_add (x : string) (s : list string) :
  forall acc : list string,
    fold_left (fun s x => add_str x s) (add_str x s) acc
    = add_str x (fold_left (fun s x => add_str x s) s acc).
Proof.
  intros acc.
  destruct (existsb (String.eqb x) s) eqn:E.
  - assert (Ha : add_str x s = s) by (unfold add_str; rewrite E; reflexivity).
    rewrite Ha.
    assert (Hx : existsb (String.eqb x)
                   (fold_left (fun s x => add_str x s) s acc) = true).
    { apply existsb_exists in E. destruct E as (z & Hz & Ez).
      apply existsb_exists. exists z. split; [| exact Ez].
      apply fold_add_str_in. right. exact Hz. }
    unfold add_str at 2. rewrite Hx. reflexivity.
  - assert (Ha : add_str x s = (s ++ [x])%list)
      by (unfold add_str; rewrite E; reflexivity).
    rewrite Ha, fold_left_app. reflexivity.
Qed.

Lemma fold_add_str_set (l : list string) : forall s acc : list string,
  fold_left (fun s x => add_str x s)
    (fold_left (fun s x => add_str x s) l s) acc
  = fold_left (fun s x => add_str x s) l
      (fold_left (fun s x => add_str x s) s acc).
Proof.
  induction l as [| x rest IH]; intros s acc; simpl; [reflexivity |].
  rewrite IH, fold_add_str_add. reflexivity.
Qed.

(** X14.  The columns of the comparison are the names of the files, each
    name once: files of one name share one column, and its cells hold the
    marks of the last of these files, so that the tools of the others are
    not shown. *)
Theorem files_of_one_name_share_a_column :
  forall edited_data tool,
    map fst (comparison_row edited_data tool)
    = set_of ("Herramienta" :: map name edited_data)
    /\ forall pre file_data post,
         edited_data = (pre ++ file_data :: post)%list ->
         ~ In (name file_data) (map name post) ->
         name file_data <> "Herramienta" ->
         dict_get (name file_data) (comparison_row edited_data tool)
         = Some (mark tool file_data).
Proof.
  intros ed tool. unfold comparison_row. split.
  - rewrite dict_update_keys, marks_update, dict_update_keys, map_map.
    simpl. unfold set_of. simpl.
    change (fun x : FileData => name x) with name.
    rewrite fold_add_str_set. reflexivity.
  - intros pre fd post -> Hpost Hh.
    assert (Hm : dict_get (name fd) (marks (pre ++ fd :: post) tool)
                 = Some (mark tool fd)).
    { rewrite marks_update, map_app. simpl.
      apply dict_update_get. rewrite map_map. exact Hpost. }
    assert (Hnd : NoDup (map fst (marks (pre ++ fd :: post) tool))).
    { rewrite marks_update. apply dict_keys_NoDup. constructor. }
    destruct (dict_get_split _ _ _ Hnd Hm) as (p1 & p2 & -> & Hp2).
    apply dict_update_get. exact Hp2.
Qed.

Lemma files_of_one_name_share_a_column_witness :
  comparison_rows same_name_data
  = [[("Herramienta", "T10"); ("a.mpf", "X"); ("b.mpf", "")];
     [("Herramienta", "T2"); ("a.mpf", ""); ("b.mpf", "X")]]
  /\ dict_get "a.mpf" (comparison_row same_name_data "T2") = Some "".
Proof.
  split; [vm_compute; reflexivity |].
  apply (proj2 (files_of_one_name_share_a_column same_name_data "T2")
           [{| name := "a.mpf"; data := [tool_item "1.1" "T2"] |};
            {| name := "b.mpf"; data := [tool_item "2.1" "T2"] |}]
           {| name := "a.mpf"; data := [tool_item "3.1" "T10"] |} []);
    [reflexivity | intros [] | discriminate].
Defined.

(** ** The report without groups *)

Lemma for_each_bare (files : list (string * string)) : forall k : nat,
  Forall (fun file => no_begin (splitlines (snd file)) = true) files ->
  exists all_files_data,
    for_each process_file (enumerate_from k files) = inr all_files_data
    /\ Forall (fun file_data => data file_data = []) all_files_data
    /\ List.length all_files_data = List.length files.
Proof.
  induction files as [| [file_name content] rest IH]; intros k H; simpl.
  - exists []. repeat split. constructor.
  - inversion H as [| ? ? Hb Hrest]; subst. clear H.
    destruct (IH (S k) Hrest) as (tail & Et & Hd & Hl).
    unfold process_file at 1. unfold parse_gcode_for_time_and_tools.
    change (snd (snd (k, (file_name, content)))) with content.
    change (snd (file_name, content)) with content in Hb.
    rewrite (run_idle _ initial_state eq_refl Hb). simpl.
    rewrite Et. simpl. eexists. split; [reflexivity |].
    split; [constructor; [reflexivity | exact Hd] | simpl; congruence].
Qed.

Lemma no_tools_no_data (files_data : list FileData) :
  all_unique_tools_set files_data = []
  <-> Forall (fun file_data => data file_data = []) files_data.
Proof.
  unfold all_unique_tools_set. rewrite set_of_nil. split.
  - induction files_data as [| fd rest IH]; simpl; intros H; [constructor |].
    apply app_eq_nil in H. destruct H as [H1 H2].
    constructor; [| exact (IH H2)].
    destruct (data fd); [reflexivity | discriminate].
  - induction 1 as [| fd rest Hd _ IH]; simpl; [reflexivity |].
    rewrite Hd, IH. reflexivity.
Qed.

(** X15.  When the session holds files and none of them has a group, the
    end of [main] raises an [UnboundLocalError]: the comparison, bound
    only when some tool exists, is read by the call of the report.  This
    is what happens when every uploaded file lacks a begin marker. *)
Theorem report_without_groups_raises :
  (forall files_data,
     files_data <> [] ->
     (report_section (Some files_data) = report_raises UnboundLocalError
      <-> Forall (fun file_data => data file_data = []) files_data))
  /\ (forall uploaded_files,
        uploaded_files <> [] ->
        Forall (fun file => no_begin (splitlines (snd file)) = true)
          uploaded_files ->
        report_section (session_after_upload uploaded_files)
        = report_raises UnboundLocalError).
Proof.
  assert (H1 : forall files_data,
            files_data <> [] ->
            (report_section (Some files_data)
             = report_raises UnboundLocalError
             <-> Forall (fun file_data => data file_data = []) files_data)).
  { intros fds Hne. rewrite <- no_tools_no_data.
    destruct fds as [| fd rest]; [contradiction |].
    unfold report_section.
    destruct (all_unique_tools_set (fd :: rest)); split; intros H;
      try reflexivity; discriminate. }
  split; [exact H1 |].
  intros files Hne Hb.
  unfold session_after_upload, process_files, enumerate.
  destruct (for_each_bare files 0%nat Hb) as (all & E & Hd & Hl).
  rewrite E. apply H1; [| exact Hd].
  intros ->. destruct files; [contradiction | discriminate].
Qed.

Lemma report_without_groups_raises_witness :
  report_section (session_after_upload bare_files)
  = report_raises UnboundLocalError
  /\ session_after_upload bare_files
     = Some [{| name := "a.mpf"; data := [] |};
             {| name := "b.mpf"; data := [] |}].
Proof.
  split; [| vm_compute; reflexivity].
  apply (proj2 report_without_groups_raises bare_files);
    [discriminate | repeat constructor].
Defined.

(** ** Lines without words *)

Lemma word_letter_neq (c l : ascii) :
  is_word_letter c = false -> is_word_letter l = true ->
  Ascii.eqb l c = false.
Proof.
  intros Hc Hl. destruct (Ascii.eqb_spec l c) as [-> |]; congruence.
Qed.

Lemma strip_prefix_wordless (l c : ascii) (p rest : string) :
  is_word_letter c = false -> is_word_letter l = true ->
  strip_prefix (String l p) (String c rest) = None.
Proof.
  intros Hc Hl. simpl. rewrite (word_letter_neq c l Hc Hl). reflexivity.
Qed.

Lemma contains_wordless (l : ascii) (p line : string) :
  is_word_letter l = true -> wordless line = true ->
  contains (String l p) line = false.
Proof.
  intros Hl. induction line as [| c rest IH]; intros H; [reflexivity |].
  simpl in H. apply andb_prop in H. destruct H as [Hc Hr].
  apply negb_true_iff in Hc.
  rewrite contains_unfold, (strip_prefix_wordless l c p rest Hc Hl).
  exact (IH Hr).
Qed.

(** A pattern that begins with a letter finds nothing in such a line. *)
Lemma search_wordless {A} (p : string -> option A) (line : string) :
  p "" = None ->
  (forall c rest, is_word_letter c = false -> p (String c rest) = None) ->
  wordless line = true -> search p line = None.
Proof.
  intros Hnil Hp. induction line as [| c rest IH]; intros H.
  - simpl. rewrite Hnil. reflexivity.
  - simpl in H. apply andb_prop in H. destruct H as [Hc Hr].
    apply negb_true_iff in Hc.
    rewrite search_unfold, (Hp c rest Hc). exact (IH Hr).
Qed.

Lemma letter_run_wordless (l : ascii) (f : ascii -> bool) (c : ascii)
  (rest : string) :
  is_word_letter l = true -> is_word_letter c = false ->
  letter_run l f (String c rest) = None.
Proof.
  intros Hl Hc. unfold letter_run, expect.
  rewrite (word_letter_neq c l Hc Hl). reflexivity.
Qed.

Lemma g_code_at_wordless (c : ascii) (rest : string) :
  is_word_letter c = false -> g_code_at (String c rest) = None.
Proof.
  destruct c as [[] [] [] [] [] [] [] []]; try reflexivity. discriminate.
Qed.

Lemma coord_re_wordless (line : string) :
  wordless line = true -> coord_re line = [].
Proof.
  unfold coord_re. induction line as [| c rest IH]; intros H; [reflexivity |].
  simpl in H. apply andb_prop in H. destruct H as [Hc Hr].
  apply negb_true_iff in Hc. simpl.
  assert (Ha : is_axis c = false).
  { unfold is_axis.
    rewrite (Ascii.eqb_sym c "X"), (Ascii.eqb_sym c "Y"), (Ascii.eqb_sym c "Z").
    rewrite (word_letter_neq c "X" Hc eq_refl),
      (word_letter_neq c "Y" Hc eq_refl), (word_letter_neq c "Z" Hc eq_refl).
    reflexivity. }
  rewrite Ha. exact (IH Hr).
Qed.

Lemma process_line_wordless (st : State) (line : string) :
  wordless line = true -> process_line st line = inr st.
Proof.
  intros H.
  assert (Hb : group_begin_re line = None).
  { apply search_wordless; [reflexivity | | exact H].
    intros c rest Hc. unfold group_begin_at.
    rewrite (strip_prefix_wordless "G" c _ rest Hc eq_refl). reflexivity. }
  assert (He : group_end_re line = false)
    by exact (contains_wordless "G" _ line eq_refl H).
  unfold process_line, handle_groups, open_group, close_group.
  rewrite Hb, He.
  destruct (current_group_info st) as [g |] eqn:Eg; [| reflexivity].
  unfold update_modal, update_motion_mode, update_feed_mode, update_rpm,
    update_feed, update_tool, process_motion.
  assert (Hg : g_code_re line = None)
    by (apply search_wordless; [reflexivity | | exact H];
        apply g_code_at_wordless).
  assert (Hr : rpm_re line = None)
    by (apply search_wordless; [reflexivity | | exact H];
        intros c rest Hc; apply letter_run_wordless; [reflexivity | exact Hc]).
  assert (Hf : feed_re line = None)
    by (apply search_wordless; [reflexivity | | exact H];
        intros c rest Hc; apply letter_run_wordless; [reflexivity | exact Hc]).
  assert (Ht : tool_re line = None).
  { apply search_wordless; [reflexivity | | exact H].
    intros c rest Hc. unfold tool_at.
    rewrite (strip_prefix_wordless "T" c _ rest Hc eq_refl). reflexivity. }
  rewrite Hg, Hr, Hf, Ht, (coord_re_wordless line H).
  rewrite (contains_wordless "G" "95" line eq_refl H).
  rewrite (contains_wordless "G" "94" line eq_refl H).
  simpl. destruct st as [rs cur m]. simpl in *. subst cur. reflexivity.
Qed.

Lemma run_wordless (lines : list string) : forall st : State,
  run st (filter (fun line => negb (wordless line)) lines) = run st lines.
Proof.
  induction lines as [| line rest IH]; intros st; simpl; [reflexivity |].
  destruct (wordless line) eqn:E; simpl.
  - rewrite (process_line_wordless st line E). simpl. apply IH.
  - destruct (process_line st line); simpl; [reflexivity | apply IH].
Qed.

(** X16.  A line with none of the capital letters G, F, S, T, X, Y and
    Z, such as a blank line, a line of digits or a line in lower case,
    changes nothing: every pattern is written in capitals and is matched
    as written, so the line leaves the state as it is, with or without a
    group open, and a text gives what it gives without such lines. *)
Theorem wordless_lines_change_nothing :
  (forall st line, wordless line = true -> process_line st line = inr st)
  /\ (forall text text',
        splitlines text'
        = filter (fun line => negb (wordless line)) (splitlines text) ->
        parse_gcode_for_time_and_tools text'
        = parse_gcode_for_time_and_tools text).
Proof.
  split; [exact process_line_wordless |].
  intros text text' H. unfold parse_gcode_for_time_and_tools.
  rewrite H, run_wordless. reflexivity.
Qed.

Lemma wordless_lines_change_nothing_witness :
  process_line fresh_group_state "g1 x5 f3 s7" = inr fresh_group_state
  /\ parse_gcode_for_time_and_tools headless_program
     = parse_gcode_for_time_and_tools commented_program.
Proof.
  split.
  - apply (proj1 wordless_lines_change_nothing). reflexivity.
  - apply (proj2 wordless_lines_change_nothing commented_program
             headless_program).
    vm_compute. reflexivity.
Defined.

(** ** The spindle speed recorded *)

(** A rounding that has nothing to round: a mantissa of 54 digits that
    is even loses its last digit. *)
Lemma binary_round_aux_exact (q : positive) (e : Z) :
  Zdigits2 (Zpos q) = 53 -> -1074 <= e <= 971 ->
  binary_round_aux Float.prec Float.emax false (Zpos q~0) (e - 1) loc_Exact
  = S754_finite false q e.
Proof.
  intros Hd He. unfold binary_round_aux, shr_fexp.
  assert (H54 : Zdigits2 (Zpos q~0) = 54).
  { change (Zdigits2 (Zpos q~0)) with (Zpos (Pos.succ (digits2_pos q))).
    change (Zdigits2 (Zpos q)) with (Zpos (digits2_pos q)) in Hd. lia. }
  rewrite H54, FloatFacts.fexp_eq.
  replace (Z.max (54 + (e - 1) - 53) (-1074) - (e - 1)) with 1 by lia.
  cbn [shr shr_record_of_loc iter_pos shr_1 shr_m shr_r shr_s
         loc_of_shr_record round_nearest_even orb].
  rewrite Hd, FloatFacts.fexp_eq.
  replace (Z.max (53 + (e - 1 + 1) - 53) (-1074) - (e - 1 + 1)) with 0 by lia.
  cbn [shr shr_record_of_loc shr_m].
  replace (e - 1 + 1) with e by lia.
  replace (e <=? Float.emax - Float.prec) with true; [reflexivity |].
  symmetry. apply Z.leb_le. unfold Float.emax, Float.prec. lia.
Qed.

(** The float of a positive integer below [2 ^ 53] is the integer. *)
Lemma of_decimal_integer_exact (p : positive) :
  Zpos p < 2 ^ 53 ->
  Float.to_int (Float.of_decimal false (Zpos p) 0) = inr (Zpos p).
Proof.
  intros Hp. unfold Float.of_decimal.
  change (10 ^ Z.of_nat 0) with 1.
  unfold SFdiv_core_binary.
  set (d := Zdigits2 (Zpos p)).
  assert (Hd : 1 <= d <= 53).
  { split.
    - unfold d. change (Zdigits2 (Zpos p)) with (Zpos (digits2_pos p)). lia.
    - apply FloatBounds.Zdigits2_lt_pow2; lia. }
  change (Zdigits2 1) with 1. rewrite FloatFacts.fexp_eq.
  replace (Z.min (Z.max (d + 0 - (1 + 0) - 53) (-1074)) (0 - 0))
    with (d - 54) by lia.
  replace (0 - 0 - (d - 54)) with (54 - d) by lia.
  assert (Hq : exists q, Zpos p * 2 ^ (53 - d) = Zpos q).
  { assert (0 < Zpos p * 2 ^ (53 - d))
      by (apply Z.mul_pos_pos; [lia | apply Z.pow_pos_nonneg; lia]).
    destruct (Zpos p * 2 ^ (53 - d)) as [| q | q]; try lia. eauto. }
  destruct Hq as (q & Eq).
  assert (Hm : match 54 - d with
               | 0 => Zpos p
               | Zpos _ => Z.shiftl (Zpos p) (54 - d)
               | Zneg _ => 0
               end = Zpos q~0).
  { destruct (54 - d) as [| s | s] eqn:Es; try lia.
    rewrite <- Es, Z.shiftl_mul_pow2 by lia.
    replace (54 - d) with (Z.succ (53 - d)) by lia.
    rewrite Z.pow_succ_r by lia. lia. }
  rewrite Hm, FloatFacts.div_eucl_1.
  change (new_location 1 0) with loc_Exact.
  assert (Hdq : Zdigits2 (Zpos q) = 53).
  { rewrite <- Eq, FloatBounds.Zdigits2_mul_pow2 by lia. fold d. lia. }
  replace (d - 54) with (d - 53 - 1) by lia.
  rewrite (binary_round_aux_exact q (d - 53) Hdq ltac:(lia)).
  unfold Float.to_int, cond_Zopp, ret. f_equal.
  destruct (0 <=? d - 53) eqn:E.
  - apply Z.leb_le in E. rewrite <- Eq.
    replace (d - 53) with 0 by lia. replace (53 - d) with 0 by lia.
    rewrite Z.pow_0_r. lia.
  - rewrite <- Eq. replace (- (d - 53)) with (53 - d) by lia.
    apply Z.div_mul. apply Z.pow_nonzero; lia.
Qed.

Lemma digits_value_exact (txt : string) :
  Float.all_digits txt = true -> (String.length txt <= 15)%nat ->
  Float.to_int (Float.of_decimal false (Float.digits_value 0 txt) 0)
  = inr (Float.digits_value 0 txt).
Proof.
  intros Hd Hl.
  destruct (FloatBounds.digits_value_bound txt 0 Hd ltac:(lia)) as [H0 H1].
  assert (Hlt : Float.digits_value 0 txt < 2 ^ 53).
  { apply Z.lt_le_trans with (10 ^ 15); [| vm_compute; discriminate].
    apply Z.lt_le_trans with (10 ^ Z.of_nat (String.length txt)); [lia |].
    apply Z.pow_le_mono_r; lia. }
  destruct (Float.digits_value 0 txt) as [| p | p]; try lia.
  - reflexivity.
  - apply of_decimal_integer_exact. exact Hlt.
Qed.

(** X17.  A spindle word of at most 15 digits never raises, and the
    speed recorded for the group is exactly the integer written; with
    more digits the integer recorded can differ from the one written,
    as the float between them cannot hold every integer. *)
Theorem short_spindle_speeds_are_exact :
  (forall line txt mg,
     rpm_re line = Some txt ->
     (String.length txt <= 15)%nat ->
     exists r,
       Float.of_string txt = inr r
       /\ Float.to_int r = inr (Float.digits_value 0 txt)
       /\ update_rpm line mg
          = inr (with_rpm r (fst mg),
                 record_rpm (Float.digits_value 0 txt) (snd mg)))
  /\ int_of_float_of "9007199254740993" = inr 9007199254740992.
Proof.
  split; [| vm_compute; reflexivity].
  intros line txt mg Hr Hl. unfold update_rpm. rewrite Hr.
  destruct (rpm_re_digits _ _ Hr) as [Hd Hne].
  rewrite (FloatFacts.of_string_digits txt Hd Hne). simpl.
  rewrite (digits_value_exact txt Hd Hl). simpl.
  eexists. split; [reflexivity |]. split; [| reflexivity].
  exact (digits_value_exact txt Hd Hl).
Qed.

Lemma short_spindle_speeds_are_exact_witness :
  exists r,
    Float.of_string "1200" = inr r
    /\ Float.to_int r = inr 1200
    /\ update_rpm "G1 S1200 X5" (initial_machine, new_group "A")
       = inr (with_rpm r initial_machine, record_rpm 1200 (new_group "A")).
Proof.
  exact (proj1 short_spindle_speeds_are_exact "G1 S1200 X5" "1200"
           (initial_machine, new_group "A") eq_refl ltac:(simpl; lia)).
Defined.

(** ** The coordinates of a line *)

Lemma is_axis_cases (a : ascii) :
  is_axis a = true -> a = "X"%char \/ a = "Y"%char \/ a = "Z"%char.
Proof.
  unfold is_axis. intros H. apply orb_prop in H. destruct H as [H | H];
    [apply orb_prop in H; destruct H as [H | H] |];
    apply Ascii.eqb_eq in H; auto.
Qed.

Lemma coord_findall_axes (s : string) : forall skip : nat,
  Forall (fun c => is_axis (fst c) = true) (coord_findall_from skip s).
Proof.
  induction s as [| c rest IH]; intros skip; simpl; [constructor |].
  destruct skip as [| k]; [| apply IH].
  destruct (is_axis c && negb (is_empty (take_while is_numchar rest)))%bool
    eqn:E; [| apply IH].
  apply andb_prop in E. constructor; [tauto | apply IH].
Qed.

Lemma axis_value_set (a axis : ascii) (v : float) (p : Position) :
  is_axis a = true -> is_axis axis = true ->
  axis_value axis (set_axis a v p)
  = if Ascii.eqb a axis then v else axis_value axis p.
Proof.
  intros Ha Hx.
  destruct (is_axis_cases a Ha) as [-> | [-> | ->]];
    destruct (is_axis_cases axis Hx) as [-> | [-> | ->]]; reflexivity.
Qed.

Lemma target_of_axis (cs : list (ascii * string)) :
  forall (p tp : Position) (axis : ascii),
    Forall (fun c => is_axis (fst c) = true) cs ->
    target_of cs p = inr tp ->
    is_axis axis = true ->
    match last_coord axis cs with
    | Some txt => Float.of_string txt = inr (axis_value axis tp)
    | None => axis_value axis tp = axis_value axis p
    end.
Proof.
  induction cs as [| [a value] rest IH]; intros p tp axis Hcs H Hx;
    simpl in *.
  - inv H. reflexivity.
  - inv Hcs.
    destruct (Float.of_string value) as [e | v] eqn:Ev; [discriminate |].
    simpl in H.
    pose proof (IH _ _ axis ltac:(assumption) H Hx) as Hr.
    destruct (last_coord axis rest) as [txt |]; [exact Hr |].
    rewrite Hr, axis_value_set by assumption.
    destruct (Ascii.eqb a axis); [exact Ev | reflexivity].
Qed.

(** X18.  The coordinates are modal, axis by axis: after a line
    processed with a group open, an axis has the value of the last token
    of that axis on the line, and an axis with no token on the line has
    the value it had before, whether the move is charged or not. *)
Theorem coordinates_are_modal :
  forall st line g st' axis,
    current_group_info (handle_groups line st) = Some g ->
    process_line st line = inr st' ->
    is_axis axis = true ->
    match last_coord axis (coord_re line) with
    | Some txt =>
        Float.of_string txt = inr (axis_value axis (pos (machine st')))
    | None =>
        axis_value axis (pos (machine st'))
        = axis_value axis (pos (machine st))
    end.
Proof.
  intros st line g st' axis Hg Hp Hx. unfold process_line in Hp.
  rewrite Hg in Hp.
  destruct (update_modal line _ g) as [e | [m1 g1]] eqn:Eu; [discriminate |].
  destruct (update_modal_frame _ _ _ _ _ Eu) as (Hpos & _).
  rewrite handle_groups_machine in Hpos.
  simpl in Hp. unfold process_motion in Hp.
  pose proof (coord_findall_axes line 0%nat) as Hax.
  fold (coord_re line) in Hax.
  destruct (coord_re line) as [| c cs] eqn:Ec.
  - simpl in Hp. inv Hp. simpl. rewrite Hpos. reflexivity.
  - destruct (target_of (c :: cs) (pos m1)) as [e | tp] eqn:Et;
      simpl in Hp; [discriminate |].
    destruct (distance_between (pos m1) tp) as [e | d]; simpl in Hp;
      [discriminate |].
    destruct (is_cutting m1 d);
      [destruct (time_for_move m1 d) as [e | t]; simpl in Hp;
       [discriminate |] |];
      inv Hp; simpl;
      pose proof (target_of_axis _ _ _ axis Hax Et Hx) as Hr;
      rewrite Hpos in Hr; exact Hr.
Qed.

Lemma coordinates_are_modal_witness :
  last_coord "X" (coord_re "G1 X5 Y7 X20") = Some "20"
  /\ last_coord "Z" (coord_re "G1 X5 Y7 X20") = None
  /\ exists st',
       process_line group_A_state "G1 X5 Y7 X20" = inr st'
       /\ Float.of_string "20" = inr (pos_X (pos (machine st')))
       /\ pos_Z (pos (machine st')) = Float.zero.
Proof.
  split; [reflexivity |]. split; [reflexivity |].
  destruct (process_line group_A_state "G1 X5 Y7 X20") as [e | st'] eqn:E;
    [vm_compute in E; discriminate |].
  exists st'. split; [reflexivity |]. split.
  - exact (coordinates_are_modal group_A_state "G1 X5 Y7 X20" _ st' "X"
             eq_refl E eq_refl).
  - exact (coordinates_are_modal group_A_state "G1 X5 Y7 X20" _ st' "Z"
             eq_refl E eq_refl).
Defined.
